(** * Translation Validator: the data-access layer

    A shallow embedding of the three client-side stores of the
    French-to-Wolof translation validator:

    - [BrowserDb]  : the localStorage store   (browser-db.js),
    - [IndexedDb]  : the IndexedDB store      (client/src/utils/db.js),
    - [SqliteDb]   : the better-sqlite3 store (client/src/utils/sqlite-db.js),

    and of what the components do with them: the data initializer, the
    login screen and the counters and updates of the validator screen.

    JavaScript strings are sequences of UTF-16 code units, JavaScript objects
    are finite maps from property names to values, and every store operation
    is a function from the store's state to the new state and the outcome of
    the promise the operation returns.  The clock ([Date.now()],
    [new Date().toISOString()]) and the random draw ([Math.random()]) are
    inputs of the operations that read them. *)

From Stdlib Require Import ZArith QArith Qround Ascii String Sorted.
From stdpp Require Import gmap strings list fin_maps pretty.

Close Scope Q_scope.
Open Scope string_scope.
Open Scope list_scope.

(** ** JavaScript strings and values *)

Abbreviation jsstring := (list N).

(** A string literal of the source, as its code units. *)
Definition js (s : string) : jsstring :=
  (fun a => N_of_ascii a) <$> list_ascii_of_string s.

(** WhiteSpace and LineTerminator code points, the ones [String.prototype.trim]
    strips: TAB, LF, VT, FF, CR, SP, NBSP, U+1680, U+2000..U+200A, LS, PS,
    U+202F, U+205F, U+3000 and the BOM. *)
Definition is_whitespace (c : N) : bool :=
  match c with
  | 9 | 10 | 11 | 12 | 13 | 32 | 160 | 5760
  | 8232 | 8233 | 8239 | 8287 | 12288 | 65279 => true
  | _ => (8192 <=? c) && (c <=? 8202)
  end%N.

Fixpoint trimStart (s : jsstring) : jsstring :=
  match s with
  | [] => []
  | c :: r => if is_whitespace c then trimStart r else s
  end.

Definition trimEnd (s : jsstring) : jsstring := rev (trimStart (rev s)).

(** [s.trim()] *)
Definition trim (s : jsstring) : jsstring := trimEnd (trimStart s).

(** [s.split(sep)] for a one-character separator: never the empty array. *)
Fixpoint split (sep : N) (s : jsstring) : list jsstring :=
  match s with
  | [] => [[]]
  | c :: r =>
      if (c =? sep)%N then [] :: split sep r
      else match split sep r with
           | [] => [[c]]
           | h :: t => (c :: h) :: t
           end
  end.

(** [parts.join(sep)] on an array of strings. *)
Fixpoint join (sep : jsstring) (parts : list jsstring) : jsstring :=
  match parts with
  | [] => []
  | [p] => p
  | p :: rest => p ++ sep ++ join sep rest
  end.

Definition newline : N := 10.
Definition comma : N := 44.
Definition dquote : N := 34.

(** The values a record field can hold: [null], booleans, integral numbers
    and strings.  A property that is absent reads as [undefined], which is
    [None] of [option value]. *)
Inductive value :=
  | VNull
  | VBool (b : bool)
  | VNum (z : Z)
  | VStr (s : jsstring).

Global Instance value_eq_dec : EqDecision value.
Proof. solve_decision. Defined.

(** An object is the finite map of its own properties. *)
Abbreviation obj := (gmap string value).

(** ToBoolean *)
Definition truthy (v : option value) : bool :=
  match v with
  | None | Some VNull => false
  | Some (VBool b) => b
  | Some (VNum z) => negb (z =? 0)%Z
  | Some (VStr s) => negb (bool_decide (s = []))
  end.

(** ToString, as a template literal applies it.  Numbers print in decimal,
    which is what JavaScript prints for integers below 10^21. *)
Definition to_string (v : option value) : jsstring :=
  match v with
  | None => js "undefined"
  | Some VNull => js "null"
  | Some (VBool true) => js "true"
  | Some (VBool false) => js "false"
  | Some (VNum z) => js (pretty z)
  | Some (VStr s) => s
  end.

(** [a || ''] *)
Definition or_empty (v : option value) : option value :=
  if truthy v then v else Some (VStr []).

(** The string [Array.prototype.join] makes of one element:
    [undefined] and [null] give the empty string. *)
Definition join_element (v : option value) : jsstring :=
  match v with
  | None | Some VNull => []
  | _ => to_string v
  end.

(** The promise an [async] operation returns: fulfilled with a value,
    rejected with an error, or never settled. *)
Inductive error :=
  | NotFound (id : value)
  | DataError
  | ConstraintError
  | SqliteError.

Inductive outcome (A : Type) :=
  | Resolved (a : A)
  | Rejected (e : error)
  | Unsettled.
Arguments Resolved {A} a.
Arguments Rejected {A} e.
Arguments Unsettled {A}.

(** The clock as the operation sees it: what [Date.now()] and
    [new Date().toISOString()] return during the [i]-th turn of a loop. *)
Record clock := {
  date_now : nat -> Z;
  date_iso : nat -> jsstring
}.

(** ** Reading one CSV line

    The three stores parse a line with the same text:
<<
      const line = lines[i].trim();
      if (line) {
        const parts = line.split(',');
        if (parts.length >= 2) {
          const wolof = parts[0].trim();
          const french = parts.slice(1).join(',').trim();
          if (french && wolof ...) {
>>
    [csv_fields] is that text up to the test of the two fields; it returns
    [(wolof, french)] when the row passes it. *)
Definition csv_fields (raw : jsstring) : option (jsstring * jsstring) :=
  let line := trim raw in
  if negb (bool_decide (line = [])) then
    let parts := split comma line in
    if (2 <=? length parts)%nat then
      let wolof := trim (nth 0 parts []) in
      let french := trim (join [comma] (skipn 1 parts)) in
      if negb (bool_decide (french = [])) && negb (bool_decide (wolof = []))
      then Some (wolof, french)
      else None
    else None
  else None.

(** The loop [for (let i = 1; i < lines.length; i++)] over the lines of the
    text, with the body applied to the index and the line. *)
Definition for_each_data_line {S : Type} (lines : list jsstring)
    (body : S -> nat -> jsstring -> S) (s0 : S) : S :=
  fold_left (fun s i => body s i (nth i lines []))
            (seq 1 (length lines - 1)) s0.

(** ** Export

    The three stores build the CSV text from the validated records with the
    same text. *)
Definition csv_header : jsstring :=
  js "Wolof,French,Status,ValidatedBy,CorrectedBy,LastUpdated" ++ [newline].

Definition csv_line (translation : obj) : jsstring :=
  join [comma]
    [ [dquote] ++ to_string (translation !! "wolof") ++ [dquote];
      [dquote] ++ to_string (translation !! "french") ++ [dquote];
      join_element (translation !! "status");
      join_element (or_empty (translation !! "validatedBy"));
      join_element (or_empty (translation !! "correctedBy"));
      join_element (translation !! "lastUpdated") ].

Definition export_csv (validatedTranslations : list obj) : jsstring :=
  fold_left (fun csvContent translation =>
               csvContent ++ (csv_line translation ++ [newline]))
            validatedTranslations csv_header.

Definition has_status (s : string) (t : obj) : Prop :=
  t !! "status" = Some (VStr (js s)).

Global Instance has_status_dec s t : Decision (has_status s t).
Proof. unfold has_status. apply _. Defined.

(** [Math.floor(Math.random() * n)], the draw being the rational [r]. *)
Definition random_index (r : Q) (n : nat) : Z :=
  Qfloor (r * inject_Z (Z.of_nat n))%Q.

(** [pendingTranslations[randomIndex]], [undefined] out of range. *)
Definition pick {A : Type} (l : list A) (i : Z) : option A :=
  if (i <? 0)%Z then None else l !! Z.to_nat i.

(** ** The localStorage store (browser-db.js) *)
Module BrowserDb.

(** localStorage holds two items, each absent or the JSON text of an array
    of objects; the text is kept as the array it parses to. *)
Record storage := {
  translations_data : option (list obj);
  users_data : option (list obj)
}.

Definition initDB (ls : storage) : storage :=
  {| translations_data :=
       match translations_data ls with None => Some [] | d => d end;
     users_data :=
       match users_data ls with None => Some [] | d => d end |}.

(** [JSON.parse(localStorage.getItem(TRANSLATIONS_KEY))] *)
Definition translations (ls : storage) : list obj :=
  default [] (translations_data ls).

Definition users (ls : storage) : list obj :=
  default [] (users_data ls).

Definition set_translations (l : list obj) (ls : storage) : storage :=
  {| translations_data := Some l; users_data := users_data ls |}.

Definition set_users (l : list obj) (ls : storage) : storage :=
  {| translations_data := translations_data ls; users_data := Some l |}.

Definition translationExists (ls : storage) (french wolof : jsstring) : bool :=
  existsb (fun t => bool_decide (t !! "french" = Some (VStr french))
                    && bool_decide (t !! "wolof" = Some (VStr wolof)))
          (translations ls).

Definition new_translation (id : Z) (french wolof lastUpdated : jsstring) : obj :=
  {[ "id" := VNum id;
     "french" := VStr french;
     "wolof" := VStr wolof;
     "status" := VStr (js "pending");
     "validatedBy" := VNull;
     "originalWolof" := VStr wolof;
     "lastUpdated" := VStr lastUpdated ]}.

(** One turn of the import loop; the state of the loop is the array
    [translations] and the counter [addedCount]. *)
Definition import_line (ls : storage) (clk : clock)
    (acc : list obj * Z) (i : nat) (raw : jsstring) : list obj * Z :=
  let '(translations, addedCount) := acc in
  match csv_fields raw with
  | Some (wolof, french) =>
      if negb (translationExists ls french wolof) then
        (translations ++
           [new_translation (date_now clk i + addedCount) french wolof
                            (date_iso clk i)],
         (addedCount + 1)%Z)
      else acc
  | None => acc
  end.

Definition importTranslationsFromCSV (csvData : jsstring) (clk : clock)
    (ls : storage) : storage * outcome bool :=
  let ls := initDB ls in
  let translations := translations ls in
  let lines := split newline csvData in
  let '(translations, _) :=
    for_each_data_line lines (import_line ls clk) (translations, 0%Z) in
  (set_translations translations ls, Resolved true).

Definition getAllTranslations (ls : storage) : storage * outcome (list obj) :=
  let ls := initDB ls in
  (ls, Resolved (translations ls)).

(** [null] is [None]. *)
Definition getRandomPendingTranslation (r : Q) (ls : storage)
    : storage * outcome (option obj) :=
  let ls := initDB ls in
  let pendingTranslations := filter (has_status "pending") (translations ls) in
  if bool_decide (length pendingTranslations = 0%nat) then (ls, Resolved None)
  else
    let randomIndex := random_index r (length pendingTranslations) in
    (ls, Resolved (pick pendingTranslations randomIndex)).

Definition updateTranslation (id : value) (updates : obj) (now : jsstring)
    (ls : storage) : storage * outcome obj :=
  let ls := initDB ls in
  let translations := translations ls in
  match list_find (fun t => t !! "id" = Some id) translations with
  | None => (ls, Rejected (NotFound id))
  | Some (index, translation) =>
      let updatedTranslation :=
        <["lastUpdated" := VStr now]> (updates ∪ translation) in
      (set_translations (<[index := updatedTranslation]> translations) ls,
       Resolved updatedTranslation)
  end.

Definition isDatabaseEmpty (ls : storage) : storage * outcome bool :=
  let ls := initDB ls in
  (ls, Resolved (bool_decide (length (translations ls) = 0%nat))).

Definition getValidatedTranslations (ls : storage)
    : storage * outcome (list obj) :=
  let ls := initDB ls in
  (ls, Resolved (filter (has_status "validated") (translations ls))).

Definition defaultUsers : list jsstring :=
  [js "Alwaly"; js "Serge"; js "Matar"].

Definition has_name (name : jsstring) (user : obj) : bool :=
  bool_decide (user !! "name" = Some (VStr name)).

(** One turn of [for (const name of defaultUsers)]; the state of the loop
    is the array [users] and the flag [changed]. *)
Definition add_default_user (clk : clock) (acc : list obj * bool)
    (turn : nat * jsstring) : list obj * bool :=
  let '(users, changed) := acc in
  let '(i, name) := turn in
  if negb (existsb (has_name name) users) then
    (users ++ [ {[ "id" := VNum (date_now clk i + Z.of_nat (length users));
                   "name" := VStr name ]} ],
     true)
  else acc.

Definition initializeUsers (clk : clock) (ls : storage)
    : storage * outcome bool :=
  let ls := initDB ls in
  let '(users, changed) :=
    fold_left (add_default_user clk) (imap pair defaultUsers)
              (users ls, false) in
  ((if changed then set_users users ls else ls), Resolved true).

Definition getUsers (ls : storage) : storage * outcome (list obj) :=
  let ls := initDB ls in
  (ls, Resolved (users ls)).

Definition exportValidatedTranslationsToCSV (ls : storage)
    : storage * outcome jsstring :=
  let ls := initDB ls in
  (ls, Resolved (export_csv (filter (has_status "validated") (translations ls)))).

End BrowserDb.


(** ** The IndexedDB store (client/src/utils/db.js)

    Both object stores are created with [{ keyPath: 'id', autoIncrement: true }]:
    the key of a record is its own [id] property, a record stored without one
    receives the next number of the store's key generator, and [getAll]
    returns the records in the order of their keys. *)
Module IndexedDb.

(** The valid keys among the values: numbers and strings. *)
Inductive key :=
  | KNum (z : Z)
  | KStr (s : jsstring).

Global Instance key_eq_dec : EqDecision key.
Proof. solve_decision. Defined.

Definition key_of_value (v : value) : option key :=
  match v with
  | VNum z => Some (KNum z)
  | VStr s => Some (KStr s)
  | VNull | VBool _ => None
  end.

Fixpoint string_ltb (a b : jsstring) : bool :=
  match a, b with
  | _, [] => false
  | [], _ :: _ => true
  | x :: a', y :: b' => (x <? y)%N || ((x =? y)%N && string_ltb a' b')
  end.

(** The order of keys: numbers come before strings. *)
Definition key_ltb (a b : key) : bool :=
  match a, b with
  | KNum x, KNum y => (x <? y)%Z
  | KNum _, KStr _ => true
  | KStr _, KNum _ => false
  | KStr x, KStr y => string_ltb x y
  end.

Record object_store := {
  records : list obj;
  generator : Z
}.

(** The key of a stored record, read through the key path. *)
Definition key_of (record : obj) : option key :=
  record !! "id" ≫= key_of_value.

(** [store.get(k)] *)
Definition store_get (k : key) (os : object_store) : option obj :=
  snd <$> list_find (fun record => key_of record = Some k) (records os).

(** The record [v] of key [k] put at its place in the order of keys,
    over the record that has the key when there is one. *)
Fixpoint place (k : key) (v : obj) (rs : list obj) : list obj :=
  match rs with
  | [] => [v]
  | r :: rest =>
      match key_of r with
      | Some k' =>
          if decide (k = k') then v :: rest
          else if key_ltb k k' then v :: r :: rest
          else r :: place k v rest
      | None => r :: place k v rest
      end
  end.

(** [store.add(v)] when [no_overwrite], [store.put(v)] otherwise. *)
Definition store_write (no_overwrite : bool) (v : obj) (os : object_store)
    : error + object_store :=
  match v !! "id" with
  | None =>
      let k := generator os in
      inr {| records := place (KNum k) (<["id" := VNum k]> v) (records os);
             generator := (k + 1)%Z |}
  | Some x =>
      match key_of_value x with
      | None => inl DataError
      | Some k =>
          if no_overwrite && bool_decide (is_Some (store_get k os))
          then inl ConstraintError
          else
            inr {| records := place k v (records os);
                   generator :=
                     match k with
                     | KNum z => Z.max (generator os) (z + 1)
                     | KStr _ => generator os
                     end |}
      end
  end.

Record database := {
  translations : object_store;
  users : object_store
}.

Definition new_translation (french wolof lastUpdated : jsstring) : obj :=
  {[ "french" := VStr french;
     "wolof" := VStr wolof;
     "status" := VStr (js "pending");
     "validatedBy" := VNull;
     "originalWolof" := VStr wolof;
     "lastUpdated" := VStr lastUpdated ]}.

(** One turn of the import loop: the requests of the transaction so far
    have left the store in [acc], or one of them has failed. *)
Definition import_line (clk : clock) (acc : error + object_store)
    (i : nat) (raw : jsstring) : error + object_store :=
  match acc with
  | inl e => inl e
  | inr store =>
      match csv_fields raw with
      | Some (wolof, french) =>
          store_write true (new_translation french wolof (date_iso clk i)) store
      | None => inr store
      end
  end.

(** A failed request aborts the transaction: nothing is stored and the
    promise is rejected with the error. *)
Definition importTranslationsFromCSV (csvData : jsstring) (clk : clock)
    (db : database) : database * outcome bool :=
  let store := translations db in
  let lines := split newline csvData in
  match for_each_data_line lines (import_line clk) (inr store) with
  | inr store => ({| translations := store; users := users db |}, Resolved true)
  | inl e => (db, Rejected e)
  end.

Definition getAllTranslations (db : database) : database * outcome (list obj) :=
  (db, Resolved (records (translations db))).

Definition getRandomPendingTranslation (r : Q) (db : database)
    : database * outcome (option obj) :=
  let translations := records (translations db) in
  let pendingTranslations := filter (has_status "pending") translations in
  if bool_decide (length pendingTranslations = 0%nat) then (db, Resolved None)
  else
    let randomIndex := random_index r (length pendingTranslations) in
    (db, Resolved (pick pendingTranslations randomIndex)).

(** [store.get(id)] throws on a value that is no key, which rejects the
    promise.  [store.put] runs inside the success handler of the get: when
    it throws there, the transaction aborts and the promise is never
    settled. *)
Definition updateTranslation (id : value) (updates : obj) (now : jsstring)
    (db : database) : database * outcome obj :=
  let store := translations db in
  match key_of_value id with
  | None => (db, Rejected DataError)
  | Some k =>
      let translation := store_get k store in
      let updatedTranslation :=
        <["lastUpdated" := VStr now]> (updates ∪ default ∅ translation) in
      match store_write false updatedTranslation store with
      | inr store =>
          ({| translations := store; users := users db |},
           Resolved updatedTranslation)
      | inl _ => (db, Unsettled)
      end
  end.

Definition isDatabaseEmpty (db : database) : database * outcome bool :=
  (db, Resolved (bool_decide (length (records (translations db)) = 0%nat))).

Definition getValidatedTranslations (db : database)
    : database * outcome (list obj) :=
  (db, Resolved (filter (has_status "validated") (records (translations db)))).

Definition defaultUsers : list jsstring :=
  [js "Alwaly"; js "Serge"; js "Matar"].

(** [store.index('name').get(name)]: the first record of that name. *)
Definition index_get (name : jsstring) (os : object_store) : option obj :=
  snd <$> list_find (fun record => record !! "name" = Some (VStr name))
                    (records os).

(** [store.add({ name })] under the unique index on [name]. *)
Definition add_user (name : jsstring) (os : object_store)
    : error + object_store :=
  if bool_decide (is_Some (index_get name os)) then inl ConstraintError
  else store_write true {[ "name" := VStr name ]} os.

(** The loop places its three [get] requests before any success handler
    runs, so each [get] reads the store as it was; the [add] requests of the
    handlers follow in the same order. *)
Definition initializeUsers (db : database) : database * outcome bool :=
  let store := users db in
  let results := (fun name => (name, index_get name store)) <$> defaultUsers in
  let adds :=
    fold_left (fun acc '(name, result) =>
                 match acc, result with
                 | inr store, None => add_user name store
                 | _, _ => acc
                 end)
              results (inr store) in
  match adds with
  | inr store => ({| translations := translations db; users := store |},
                  Resolved true)
  | inl e => (db, Rejected e)
  end.

Definition getUsers (db : database) : database * outcome (list obj) :=
  (db, Resolved (records (users db))).

Definition exportValidatedTranslationsToCSV (db : database)
    : database * outcome jsstring :=
  (db, Resolved (export_csv
                   (filter (has_status "validated") (records (translations db))))).

End IndexedDb.

(** ** The SQLite store (client/src/utils/sqlite-db.js)

    A table is the list of its rows in the order of their rowids, with the
    largest rowid it has ever held ([AUTOINCREMENT]).  The two tables are
<<
      translations (id INTEGER PRIMARY KEY AUTOINCREMENT,
                    french TEXT NOT NULL, wolof TEXT NOT NULL,
                    status TEXT DEFAULT 'pending', validatedBy TEXT,
                    correctedBy TEXT, hasBeenCorrected INTEGER DEFAULT 0,
                    originalWolof TEXT, lastUpdated TEXT,
                    UNIQUE(french, wolof))
      users (id INTEGER PRIMARY KEY AUTOINCREMENT, name TEXT UNIQUE NOT NULL)
>> *)
Module SqliteDb.

Record table := {
  rows : list obj;
  sequence : Z
}.

Record database := {
  translations : table;
  users : table
}.

(** The module variable [db]: [null] until [initDB] has run. *)
Definition connection := option database.

Definition empty_table : table := {| rows := []; sequence := 0 |}.

Definition initDB (db : connection) : database :=
  match db with
  | Some database => database
  | None => {| translations := empty_table; users := empty_table |}
  end.

Definition getDB (db : connection) : database := initDB db.

Definition rowid (row : obj) : Z :=
  match row !! "id" with
  | Some (VNum z) => z
  | _ => 0
  end.

Definition next_rowid (t : table) : Z :=
  (Z.max (sequence t) (foldr Z.max 0 (rowid <$> rows t)) + 1)%Z.

(** [INSERT OR IGNORE INTO translations
     (wolof, french, status, originalWolof, lastUpdated)
     VALUES (?, ?, 'pending', ?, ?)]: the row is dropped when it breaks
    [UNIQUE(french, wolof)]. *)
Definition insert_translation (wolof french originalWolof lastUpdated : jsstring)
    (t : table) : table :=
  if existsb (fun row => bool_decide (row !! "french" = Some (VStr french))
                         && bool_decide (row !! "wolof" = Some (VStr wolof)))
             (rows t)
  then t
  else
    let id := next_rowid t in
    {| rows := rows t ++
         [ {[ "id" := VNum id;
              "french" := VStr french;
              "wolof" := VStr wolof;
              "status" := VStr (js "pending");
              "validatedBy" := VNull;
              "correctedBy" := VNull;
              "hasBeenCorrected" := VNum 0;
              "originalWolof" := VStr originalWolof;
              "lastUpdated" := VStr lastUpdated ]} ];
       sequence := id |}.

Definition import_line (clk : clock) (t : table) (i : nat) (raw : jsstring)
    : table :=
  match csv_fields raw with
  | Some (wolof, french) =>
      let now := date_iso clk i in
      insert_translation wolof french wolof now t
  | None => t
  end.

Definition importTranslationsFromCSV (csvData : jsstring) (clk : clock)
    (db : connection) : connection * outcome bool :=
  let database := getDB db in
  let lines := split newline csvData in
  let t := for_each_data_line lines (import_line clk) (translations database) in
  (Some {| translations := t; users := users database |}, Resolved true).

Definition getAllTranslations (db : connection)
    : connection * outcome (list obj) :=
  let database := getDB db in
  (Some database, Resolved (rows (translations database))).

(** [SELECT * FROM translations WHERE id = ?] for a number [id]. *)
Definition select_by_id (id : Z) (t : table) : option obj :=
  snd <$> list_find (fun row => row !! "id" = Some (VNum id)) (rows t).

Section Engine.

(** The [UPDATE translations SET ... WHERE id = ?] statement is built
    from the property names of [updates]; what running it does is the
    engine's: the table it leaves, or [None] when it throws. *)
Variable run_update : obj -> jsstring -> Z -> table -> option table.

Definition updateTranslation (id : Z) (updates : obj) (now : jsstring)
    (db : connection) : connection * outcome (option obj) :=
  let database := getDB db in
  match select_by_id id (translations database) with
  | None => (Some database, Rejected (NotFound (VNum id)))
  | Some translation =>
      match run_update updates now id (translations database) with
      | None => (Some database, Rejected SqliteError)
      | Some t =>
          (Some {| translations := t; users := users database |},
           Resolved (select_by_id id t))
      end
  end.

End Engine.

Definition isDatabaseEmpty (db : connection) : connection * outcome bool :=
  let database := getDB db in
  (Some database,
   Resolved (bool_decide (length (rows (translations database)) = 0%nat))).

Definition getValidatedTranslations (db : connection)
    : connection * outcome (list obj) :=
  let database := getDB db in
  (Some database,
   Resolved (filter (has_status "validated") (rows (translations database)))).

Definition defaultUsers : list jsstring :=
  [js "Alwaly"; js "Serge"; js "Matar"].

(** [INSERT OR IGNORE INTO users (name) VALUES (?)] *)
Definition insert_user (t : table) (name : jsstring) : table :=
  if existsb (fun row => bool_decide (row !! "name" = Some (VStr name))) (rows t)
  then t
  else
    let id := next_rowid t in
    {| rows := rows t ++ [ {[ "id" := VNum id; "name" := VStr name ]} ];
       sequence := id |}.

Definition initializeUsers (db : connection) : connection * outcome bool :=
  let database := getDB db in
  let t := fold_left insert_user defaultUsers (users database) in
  (Some {| translations := translations database; users := t |}, Resolved true).

Definition getUsers (db : connection) : connection * outcome (list obj) :=
  let database := getDB db in
  (Some database, Resolved (rows (users database))).

Definition exportValidatedTranslationsToCSV (db : connection)
    : connection * outcome jsstring :=
  let database := getDB db in
  (Some database,
   Resolved (export_csv
               (filter (has_status "validated") (rows (translations database))))).

End SqliteDb.


(** ** The components and what they call

    The components import the store's functions from db-bridge.js, which
    hands on the functions of one implementation under the same names; the
    components are embedded over any implementation of these functions. *)

(** The functions the data initializer and the login screen call, for a
    store with states of type [S]. *)
Record store_api (S : Type) := {
  api_isDatabaseEmpty : S -> S * outcome bool;
  api_importTranslationsFromCSV : jsstring -> clock -> S -> S * outcome bool;
  api_initializeUsers : clock -> S -> S * outcome bool;
  api_getUsers : S -> S * outcome (list obj)
}.
Arguments api_isDatabaseEmpty {S} _ _.
Arguments api_importTranslationsFromCSV {S} _ _ _ _.
Arguments api_initializeUsers {S} _ _ _.
Arguments api_getUsers {S} _ _.

Definition browser_api : store_api BrowserDb.storage :=
  {| api_isDatabaseEmpty := BrowserDb.isDatabaseEmpty;
     api_importTranslationsFromCSV := BrowserDb.importTranslationsFromCSV;
     api_initializeUsers := BrowserDb.initializeUsers;
     api_getUsers := BrowserDb.getUsers |}.

Definition indexed_api : store_api IndexedDb.database :=
  {| api_isDatabaseEmpty := IndexedDb.isDatabaseEmpty;
     api_importTranslationsFromCSV := IndexedDb.importTranslationsFromCSV;
     api_initializeUsers := fun _ => IndexedDb.initializeUsers;
     api_getUsers := IndexedDb.getUsers |}.

Definition sqlite_api : store_api SqliteDb.connection :=
  {| api_isDatabaseEmpty := SqliteDb.isDatabaseEmpty;
     api_importTranslationsFromCSV := SqliteDb.importTranslationsFromCSV;
     api_initializeUsers := fun _ => SqliteDb.initializeUsers;
     api_getUsers := SqliteDb.getUsers |}.

(** [s.startsWith(prefix)] *)
Definition startsWith (prefix s : jsstring) : bool :=
  bool_decide (take (length prefix) s = prefix).

(** The header of an older file, put in the order of the columns now read:
<<
      if (csvData.startsWith('French,Wolof')) {
        csvData = 'Wolof,French' + csvData.substring('French,Wolof'.length);
      }
>> *)
Definition fix_header (csvData : jsstring) : jsstring :=
  if startsWith (js "French,Wolof") csvData
  then js "Wolof,French" ++ drop (length (js "French,Wolof")) csvData
  else csvData.

(** [initializeData] of the data initializer.  [fetched] is what the fetch
    of the file and the reading of its text give.  Every path ends in
    [onInitialized()], also the one of the [catch]; the store that is left is
    the result. *)
Definition initializeData {S : Type} (api : store_api S)
    (fetched : outcome jsstring) (clk : clock) (st : S) : S :=
  match api_isDatabaseEmpty api st with
  | (st, Resolved isEmpty) =>
      if isEmpty then
        match fetched with
        | Resolved csvData =>
            let csvData := fix_header csvData in
            (api_importTranslationsFromCSV api csvData clk st).1
        | _ => st
        end
      else st
  | (st, _) => st
  end.

(** [loadUsers] of the login screen: the store it leaves and the list it
    puts in the state [users], which stays as it was when a call fails. *)
Definition loadUsers {S : Type} (api : store_api S) (clk : clock)
    (users : list obj) (st : S) : S * list obj :=
  match api_initializeUsers api clk st with
  | (st, Resolved _) =>
      match api_getUsers api st with
      | (st, Resolved userList) => (st, userList)
      | (st, _) => (st, users)
      end
  | (st, _) => (st, users)
  end.

(** The fields [handleValidate] of the validator screen gives to an update:
<<
      status: 'validated', validatedBy: username
>> *)
Definition validation (username : jsstring) : obj :=
  {[ "status" := VStr (js "validated"); "validatedBy" := VStr username ]}.

(** The counters [updateStats] of the validator screen computes from the
    translations that [getAllTranslations] returns. *)
Record stats := {
  total : nat;
  pending : nat;
  validated : nat;
  corrected : nat
}.

Definition updateStats (translations : list obj) : stats :=
  {| total := length translations;
     pending := length (filter (has_status "pending") translations);
     validated := length (filter (has_status "validated") translations);
     corrected := length (filter (has_status "corrected") translations) |}.

(** ** The application shell (App.jsx) and the form of the login screen *)
Module App.

(** The state of [App]: [currentUser] is [null] ([None]) or a name. *)
Record state := {
  isInitialized : bool;
  currentUser : option jsstring
}.

Definition initial : state :=
  {| isInitialized := false; currentUser := None |}.

Definition handleInitialized (a : state) : state :=
  {| isInitialized := true; currentUser := currentUser a |}.

Definition handleLogin (username : jsstring) (a : state) : state :=
  {| isInitialized := isInitialized a; currentUser := Some username |}.

Definition handleLogout (a : state) : state :=
  {| isInitialized := isInitialized a; currentUser := None |}.

(** The component [App] returns. *)
Inductive screen :=
  | DataInitializer
  | Login
  | TranslationValidator (username : jsstring).

(** [!currentUser] holds for [null] and for the empty string. *)
Definition render (a : state) : screen :=
  if negb (isInitialized a) then DataInitializer
  else
    match currentUser a with
    | None => Login
    | Some username =>
        if bool_decide (username = []) then Login
        else TranslationValidator username
    end.

End App.

(** [handleLogin] of the login screen, on the submission of the form:
<<
      if (selectedUser) { onLogin(selectedUser); }
>> *)
Definition submit_login {S : Type} (selectedUser : jsstring)
    (onLogin : jsstring -> S -> S) (s : S) : S :=
  if negb (bool_decide (selectedUser = [])) then onLogin selectedUser s else s.

(** * Specification

    The vocabulary of the properties: what a text, a store or a result is
    to satisfy, written from the description of the interface. *)

(** ** Texts and rows *)

(** A string that neither starts nor ends with white space is its own trim. *)
Definition trimmed (s : jsstring) : Prop :=
  match s with
  | [] => False
  | c :: _ => is_whitespace c = false /\ is_whitespace (List.last s 0%N) = false
  end.

(** The data lines of a text: every line after the first, with its index. *)
Definition data_lines (lines : list jsstring) : list (nat * jsstring) :=
  imap (fun i raw => (S i, raw)) (tail lines).

(** A row as the interface describes it: split on commas, the first column
    trimmed is the Wolof text, the other columns joined again with commas and
    trimmed are the French text; no row for a blank line, a single column or
    an empty field. *)
Definition row_of_line (raw : jsstring) : option (jsstring * jsstring) :=
  match split comma (trim raw) with
  | first :: ((_ :: _) as remaining) =>
      let wolof := trim first in
      let french := trim (join [comma] remaining) in
      if decide (wolof <> [] /\ french <> []) then Some (wolof, french) else None
  | _ => None
  end.

(** The rows of a text that an import inserts, [exists_pair french wolof]
    telling which pairs the store holds: index of the line, Wolof, French. *)
Definition accepted_rows (exists_pair : jsstring -> jsstring -> bool)
    (rows : list (nat * jsstring)) : list (nat * jsstring * jsstring) :=
  omap (fun '(i, raw) =>
          match row_of_line raw with
          | Some (wolof, french) =>
              if exists_pair french wolof then None else Some (i, wolof, french)
          | None => None
          end) rows.

(** What an inserted record holds for the row it comes from. *)
Definition inserted_for (clk : clock) (row : nat * jsstring * jsstring)
    (t : obj) : Prop :=
  let '(i, wolof, french) := row in
  t !! "french" = Some (VStr french) /\
  t !! "wolof" = Some (VStr wolof) /\
  t !! "status" = Some (VStr (js "pending")) /\
  t !! "originalWolof" = Some (VStr wolof) /\
  t !! "lastUpdated" = Some (VStr (date_iso clk i)).

(** Some record of [l] holds the pair as its French and Wolof text. *)
Definition has_pair (french wolof : jsstring) (l : list obj) : Prop :=
  Exists (fun t => t !! "french" = Some (VStr french)
                   /\ t !! "wolof" = Some (VStr wolof)) l.


(** ** The records an import makes *)

(** The records the localStorage import makes of the accepted rows, the
    counter [addedCount] starting at [n]. *)
Definition browser_records (clk : clock) (n : Z)
    (rows : list (nat * jsstring * jsstring)) : list obj :=
  imap (fun j '(i, wolof, french) =>
          BrowserDb.new_translation (date_now clk i + (n + Z.of_nat j))
                                    french wolof (date_iso clk i))
       rows.

(** A store whose keys are all numbers below the key generator, as every
    store is that has only ever received generated keys. *)
Definition indexed_numeric (os : IndexedDb.object_store) : Prop :=
  Forall (fun r => exists z, r !! "id" = Some (VNum z)
                             /\ (z < IndexedDb.generator os)%Z)
         (IndexedDb.records os).

(** The records the IndexedDB import makes of the accepted rows, the key
    generator starting at [g]. *)
Definition indexed_records (clk : clock) (g : Z)
    (rows : list (nat * jsstring * jsstring)) : list obj :=
  imap (fun j '(i, wolof, french) =>
          <["id" := VNum (g + Z.of_nat j)]>
            (IndexedDb.new_translation french wolof (date_iso clk i)))
       rows.


(** ** Updates *)

(** The object [{ ...old, ...updates, lastUpdated: now }]: the time of the
    update, then the named fields, then the fields of the old record. *)
Definition merged_fields (old updates : obj) (now : jsstring) (new : obj) : Prop :=
  new !! "lastUpdated" = Some (VStr now) /\
  forall field, field <> "lastUpdated" ->
    new !! field = match updates !! field with
                   | Some v => Some v
                   | None => old !! field
                   end.

(** An id is present when some stored record carries it. *)
Definition browser_present (id : value) (ls : BrowserDb.storage) : Prop :=
  exists t, t ∈ BrowserDb.translations ls /\ t !! "id" = Some id.

Global Instance browser_present_dec id ls : Decision (browser_present id ls).
Proof.
  refine (cast_if (decide (Exists (fun t => t !! "id" = Some id)
                                  (BrowserDb.translations ls))));
    unfold browser_present; by rewrite Exists_exists in *.
Defined.

(** The records of the store are in the strict order of their keys. *)
Definition indexed_sorted (os : IndexedDb.object_store) : Prop :=
  StronglySorted
    (fun r1 r2 => exists k1 k2,
       IndexedDb.key_of r1 = Some k1 /\ IndexedDb.key_of r2 = Some k2
       /\ IndexedDb.key_ltb k1 k2 = true)
    (IndexedDb.records os).

(** An id is present when it is a key and the store has a record of that key. *)
Definition indexed_present (id : value) (db : IndexedDb.database) : Prop :=
  exists k, IndexedDb.key_of_value id = Some k
            /\ is_Some (IndexedDb.store_get k (IndexedDb.translations db)).

(** The fields [handleCorrect] of the validator screen gives to an update:
<<
      wolof: editedTranslation, status: 'pending',
      correctedBy: username, hasBeenCorrected: true
>> *)
Definition correction (editedTranslation username : jsstring) : obj :=
  {[ "wolof" := VStr editedTranslation;
     "status" := VStr (js "pending");
     "correctedBy" := VStr username;
     "hasBeenCorrected" := VBool true ]}.

(** ** Operations *)

(** The operations of the store interface, with their inputs. *)
Inductive operation :=
  | Import (csvData : jsstring) (clk : clock)
  | GetAll
  | GetRandomPending (r : Q)
  | Update (id : value) (updates : obj) (now : jsstring)
  | IsEmpty
  | GetValidated
  | InitializeUsers (clk : clock)
  | GetUsers
  | ExportValidatedToCSV.

(** The store an operation leaves. *)
Definition browser_run (op : operation) (ls : BrowserDb.storage)
    : BrowserDb.storage :=
  match op with
  | Import csvData clk => (BrowserDb.importTranslationsFromCSV csvData clk ls).1
  | GetAll => (BrowserDb.getAllTranslations ls).1
  | GetRandomPending r => (BrowserDb.getRandomPendingTranslation r ls).1
  | Update id updates now => (BrowserDb.updateTranslation id updates now ls).1
  | IsEmpty => (BrowserDb.isDatabaseEmpty ls).1
  | GetValidated => (BrowserDb.getValidatedTranslations ls).1
  | InitializeUsers clk => (BrowserDb.initializeUsers clk ls).1
  | GetUsers => (BrowserDb.getUsers ls).1
  | ExportValidatedToCSV => (BrowserDb.exportValidatedTranslationsToCSV ls).1
  end.

Definition indexed_run (op : operation) (db : IndexedDb.database)
    : IndexedDb.database :=
  match op with
  | Import csvData clk => (IndexedDb.importTranslationsFromCSV csvData clk db).1
  | GetAll => (IndexedDb.getAllTranslations db).1
  | GetRandomPending r => (IndexedDb.getRandomPendingTranslation r db).1
  | Update id updates now => (IndexedDb.updateTranslation id updates now db).1
  | IsEmpty => (IndexedDb.isDatabaseEmpty db).1
  | GetValidated => (IndexedDb.getValidatedTranslations db).1
  | InitializeUsers _ => (IndexedDb.initializeUsers db).1
  | GetUsers => (IndexedDb.getUsers db).1
  | ExportValidatedToCSV => (IndexedDb.exportValidatedTranslationsToCSV db).1
  end.




(** ** Users *)

(** The names of the default reviewers. *)
Definition default_names : list jsstring := [js "Alwaly"; js "Serge"; js "Matar"].

(** Some stored user carries the name. *)
Definition user_named (name : jsstring) (users : list obj) : Prop :=
  Exists (fun user => user !! "name" = Some (VStr name)) users.

(** The default names that no stored user carries. *)
Definition missing_defaults (users : list obj) : list jsstring :=
  filter (fun name => ~ user_named name users) default_names.

(** [after] is [before] followed by one new user for each missing default
    name, in the order of the default names. *)
Definition seeded (before after : list obj) : Prop :=
  exists added,
    after = before ++ added /\
    (fun user => user !! "name") <$> added
    = (fun name => Some (VStr name)) <$> missing_defaults before.

(** ** The random pick *)


(** ** The text of an export *)

(** A field of a row that is empty when the record has no such field. *)
Definition shown_or_empty (v : option value) : jsstring :=
  if truthy v then to_string v else [].

(** The row of a validated record: the Wolof and the French text between
    double quotes, then the status, who validated, who corrected and the time
    of the last update, with commas between and the end of the line. *)
Definition export_row (t : obj) : jsstring :=
  [dquote] ++ to_string (t !! "wolof") ++ [dquote] ++ [comma]
  ++ [dquote] ++ to_string (t !! "french") ++ [dquote] ++ [comma]
  ++ js "validated" ++ [comma]
  ++ shown_or_empty (t !! "validatedBy") ++ [comma]
  ++ shown_or_empty (t !! "correctedBy") ++ [comma]
  ++ join_element (t !! "lastUpdated") ++ [newline].

(** The text of an export, given the validated records. *)
Definition export_text (validated : list obj) : jsstring :=
  js "Wolof,French,Status,ValidatedBy,CorrectedBy,LastUpdated" ++ [newline]
  ++ concat (export_row <$> validated).

(** ** Agreement of the stores *)







(** A clock, a text of two rows and the empty stores. *)
Definition sample_clock : clock :=
  {| date_now := fun i => (1700000000000 + Z.of_nat i)%Z;
     date_iso := fun _ => js "2023-11-14T22:13:20.000Z" |}.

Definition sample_stamp : jsstring := js "2023-11-14T22:13:20.000Z".

Definition sample_csv : jsstring :=
  js "Wolof,French" ++ [newline] ++ js "salam,bonjour" ++ [newline]
     ++ js "nanga def,comment vas-tu".

Definition empty_storage : BrowserDb.storage :=
  {| BrowserDb.translations_data := None; BrowserDb.users_data := None |}.

Definition empty_store : IndexedDb.object_store :=
  {| IndexedDb.records := []; IndexedDb.generator := 1 |}.

Definition empty_database : IndexedDb.database :=
  {| IndexedDb.translations := empty_store; IndexedDb.users := empty_store |}.

(** Two stored translations, with the ids 1 and 2, in either store. *)
Definition sample_record_1 : obj :=
  BrowserDb.new_translation 1 (js "bonjour") (js "salam") sample_stamp.

Definition sample_record_2 : obj :=
  BrowserDb.new_translation 2 (js "comment vas-tu") (js "nanga def") sample_stamp.

Definition sample_storage : BrowserDb.storage :=
  {| BrowserDb.translations_data := Some [sample_record_1; sample_record_2];
     BrowserDb.users_data := Some [] |}.

Definition sample_database : IndexedDb.database :=
  {| IndexedDb.translations :=
       {| IndexedDb.records := [sample_record_1; sample_record_2];
          IndexedDb.generator := 3 |};
     IndexedDb.users := empty_store |}.

(** The fields [handleValidate] gives to an update, for the reviewer Alwaly. *)
Definition sample_validation : obj :=
  {[ "status" := VStr (js "validated"); "validatedBy" := VStr (js "Alwaly") ]}.

(** ** White space *)

(** A string of white space only. *)
Definition blank (s : jsstring) : Prop :=
  Forall (fun c => is_whitespace c = true) s.

(** ** Ids of the localStorage store *)

(** A clock that does not run backwards during the loop. *)
Definition clock_monotone (clk : clock) : Prop :=
  forall i j, (i <= j)%nat -> (date_now clk i <= date_now clk j)%Z.

(** Both records carry a number as their id, the first a smaller one. *)
Definition id_below (t1 t2 : obj) : Prop :=
  exists a b, t1 !! "id" = Some (VNum a) /\ t2 !! "id" = Some (VNum b)
              /\ (a < b)%Z.

(** ** The writes of the components *)

(** The calls by which the components change the translations: the import
    of the data initializer, and the updates of [handleValidate] and
    [handleCorrect] of the validator screen, for the user [username]. *)
Inductive write :=
  | Imports (csvData : jsstring) (clk : clock)
  | Validates (id : value) (username now : jsstring)
  | Corrects (id : value) (editedTranslation username now : jsstring).

Definition browser_write (w : write) (ls : BrowserDb.storage)
    : BrowserDb.storage :=
  match w with
  | Imports csvData clk => (BrowserDb.importTranslationsFromCSV csvData clk ls).1
  | Validates id username now =>
      (BrowserDb.updateTranslation id (validation username) now ls).1
  | Corrects id editedTranslation username now =>
      (BrowserDb.updateTranslation id (correction editedTranslation username)
                                   now ls).1
  end.

Definition indexed_write (w : write) (db : IndexedDb.database)
    : IndexedDb.database :=
  match w with
  | Imports csvData clk => (IndexedDb.importTranslationsFromCSV csvData clk db).1
  | Validates id username now =>
      (IndexedDb.updateTranslation id (validation username) now db).1
  | Corrects id editedTranslation username now =>
      (IndexedDb.updateTranslation id (correction editedTranslation username)
                                   now db).1
  end.

(** A record that is pending or validated. *)
Definition reviewed (t : obj) : Prop :=
  has_status "pending" t \/ has_status "validated" t.

(** ** Operations on the users *)

Definition is_initializeUsers (op : operation) : bool :=
  match op with InitializeUsers _ => true | _ => false end.

(** ** The constraints of the SQLite tables *)

(** [UNIQUE(french, wolof)]: no two rows hold the same pair. *)
Definition unique_pairs (l : list obj) : Prop :=
  NoDup ((fun row => (row !! "french", row !! "wolof")) <$> l).

(** [name TEXT UNIQUE]: no two rows hold the same name. *)
Definition unique_names (l : list obj) : Prop :=
  NoDup ((fun row => row !! "name") <$> l).

(** [id INTEGER PRIMARY KEY]: every row has a number as its id, and the rows
    come in the strict order of their ids. *)
Definition keyed (l : list obj) : Prop :=
  Forall (fun row => exists z, row !! "id" = Some (VNum z)) l /\
  StronglySorted id_below l.

(** ** The order of the IndexedDB records *)

(** The key of the first record comes before the key of the second. *)
Definition key_order (r1 r2 : obj) : Prop :=
  exists k1 k2, IndexedDb.key_of r1 = Some k1 /\ IndexedDb.key_of r2 = Some k2
                /\ IndexedDb.key_ltb k1 k2 = true.

(** ** The events of the application shell *)

(** What reaches [App]: the data initializer has finished, the form of the
    login screen is submitted with the selected name, the user logs out. *)
Inductive event :=
  | Initialized
  | Submitted (selectedUser : jsstring)
  | LoggedOut.

Definition app_step (a : App.state) (e : event) : App.state :=
  match e with
  | Initialized => App.handleInitialized a
  | Submitted selectedUser => submit_login selectedUser App.handleLogin a
  | LoggedOut => App.handleLogout a
  end.

(** * Properties *)

(** ** Strings *)
Section Strings.

Lemma split_not_nil sep s : split sep s <> [].
Proof. destruct s as [|c r]; simpl; [done|]. destruct (c =? sep)%N; [done|]. destruct (split sep r); done. Qed.

Lemma split_no_sep sep s : sep ∉ s -> split sep s = [s].
Proof.
  induction s as [|c r IH]; intros Hs; [done|].
  apply not_elem_of_cons in Hs as [Hc Hr]. simpl.
  destruct (N.eqb_spec c sep) as [->|_]; [done|]. by rewrite (IH Hr).
Qed.

Lemma split_app_sep sep a b :
  sep ∉ a -> split sep (a ++ sep :: b) = a :: split sep b.
Proof.
  induction a as [|c r IH]; intros Ha; simpl.
  - by rewrite N.eqb_refl.
  - apply not_elem_of_cons in Ha as [Hc Hr].
    destruct (N.eqb_spec c sep) as [->|_]; [done|]. by rewrite (IH Hr).
Qed.

Lemma join_split sep s : join [sep] (split sep s) = s.
Proof.
  induction s as [|c r IH]; [done|]. simpl.
  destruct (N.eqb_spec c sep) as [->|_].
  - pose proof (split_not_nil sep r). destruct (split sep r) eqn:E; [done|].
    simpl in *. by rewrite IH.
  - destruct (split sep r) as [|h t] eqn:E; [by destruct (split_not_nil sep r)|].
    destruct t; simpl in *; by rewrite <- IH.
Qed.

Lemma trimStart_id c s : is_whitespace c = false -> trimStart (c :: s) = c :: s.
Proof. intros H. simpl. by rewrite H. Qed.

Lemma trim_trimmed s : trimmed s -> trim s = s.
Proof.
  destruct s as [|c r]; [done|]. intros [Hc Hl].
  unfold trim. rewrite trimStart_id by done. unfold trimEnd.
  destruct (rev (c :: r)) as [|d q] eqn:E.
  - apply (f_equal (@rev N)) in E. rewrite rev_involutive in E. done.
  - assert (c :: r = rev q ++ [d]) as Hs.
    { rewrite <- (rev_involutive (c :: r)), E. done. }
    rewrite Hs, last_last in Hl. rewrite trimStart_id by done.
    rewrite Hs. done.
Qed.

Lemma last_app_cons (a : jsstring) y b d :
  List.last (a ++ y :: b) d = List.last (y :: b) d.
Proof.
  induction a as [|x a IH]; [done|].
  change ((x :: a) ++ y :: b) with (x :: (a ++ y :: b)).
  destruct (a ++ y :: b) eqn:E; [by destruct a|]. by rewrite <- IH.
Qed.

Lemma trimmed_app a c b : trimmed a -> trimmed b -> trimmed (a ++ c :: b).
Proof.
  destruct a as [|x a]; [done|]. destruct b as [|y b]; [done|].
  intros [Hx _] [_ Hy]. split; [done|].
  replace ((x :: a) ++ c :: y :: b) with (((x :: a) ++ [c]) ++ y :: b)
    by (by rewrite <- app_assoc).
  by rewrite last_app_cons.
Qed.

Lemma csv_fields_clean w f :
  trimmed w -> trimmed f -> comma ∉ w ->
  csv_fields (w ++ comma :: f) = Some (w, f).
Proof.
  intros Hw Hf Hc. unfold csv_fields.
  rewrite (trim_trimmed _ (trimmed_app _ comma _ Hw Hf)).
  rewrite bool_decide_eq_false_2 by (by destruct w).
  rewrite split_app_sep by done.
  assert ((2 <=? length (w :: split comma f))%nat = true) as ->.
  { pose proof (split_not_nil comma f). destruct (split comma f); done. }
  change (skipn 1 (w :: split comma f)) with (split comma f).
  change (nth 0 (w :: split comma f) []) with w.
  rewrite join_split, !trim_trimmed by done.
  rewrite !bool_decide_eq_false_2; [done| by destruct w | by destruct f].
Qed.

End Strings.

(** ** The import loop *)

Section ImportLoop.

Lemma csv_fields_row_of_line raw : csv_fields raw = row_of_line raw.
Proof.
  unfold csv_fields, row_of_line.
  destruct (decide (trim raw = [])) as [E|E].
  - rewrite E. by rewrite bool_decide_eq_true_2.
  - rewrite bool_decide_eq_false_2 by done. simpl negb. cbv iota.
    destruct (split comma (trim raw)) as [|first [|second rest]] eqn:Es;
      [done | done |].
    change (2 <=? length (first :: second :: rest))%nat with true. cbv iota.
    change (nth 0 (first :: second :: rest) []) with first.
    change (skipn 1 (first :: second :: rest)) with (second :: rest).
    set (french := trim (join [comma] (second :: rest))).
    set (wolof := trim first).
    destruct (decide (french = [])) as [Ef|Ef], (decide (wolof = [])) as [Ew|Ew];
      rewrite ?(bool_decide_eq_true_2 _ Ef), ?(bool_decide_eq_false_2 _ Ef),
              ?(bool_decide_eq_true_2 _ Ew), ?(bool_decide_eq_false_2 _ Ew);
      simpl; destruct (decide _) as [[? ?]|Hn]; try done.
    all: exfalso; apply Hn; done.
Qed.

Lemma accepted_rows_cons e i raw rows :
  accepted_rows e ((i, raw) :: rows)
  = match row_of_line raw with
    | Some (wolof, french) =>
        if e french wolof then accepted_rows e rows
        else (i, wolof, french) :: accepted_rows e rows
    | None => accepted_rows e rows
    end.
Proof.
  unfold accepted_rows. simpl.
  destruct (row_of_line raw) as [[w f]|]; [|done]. by destruct (e f w).
Qed.

Lemma accepted_rows_ext e1 e2 rows :
  (forall french wolof, e1 french wolof = e2 french wolof) ->
  accepted_rows e1 rows = accepted_rows e2 rows.
Proof.
  intros He. induction rows as [|[i raw] rows IH]; [done|].
  rewrite !accepted_rows_cons, IH.
  destruct (row_of_line raw) as [[w f]|]; [|done]. by rewrite He.
Qed.

Context {St : Type}.

Lemma fold_indexed_lines (body : St -> nat -> jsstring -> St) pre rest s0 :
  fold_left (fun s i => body s i (nth i (pre ++ rest) []))
            (seq (length pre) (length rest)) s0
  = fold_left (fun s '(i, raw) => body s i raw)
              (imap (fun i raw => (length pre + i, raw)%nat) rest) s0.
Proof.
  revert pre s0. induction rest as [|raw rest IH]; intros pre s0; [done|].
  simpl. rewrite Nat.add_0_r.
  replace (nth (length pre) (pre ++ raw :: rest) []) with raw
    by (by rewrite app_nth2, Nat.sub_diag by lia).
  specialize (IH (pre ++ [raw]) (body s0 (length pre) raw)).
  rewrite <- app_assoc, length_app in IH. simpl in IH.
  rewrite Nat.add_1_r in IH. rewrite IH.
  f_equal. apply imap_ext. intros i x _. simpl. f_equal. lia.
Qed.

Lemma for_each_data_line_fold (body : St -> nat -> jsstring -> St) lines s0 :
  for_each_data_line lines body s0
  = fold_left (fun s '(i, raw) => body s i raw) (data_lines lines) s0.
Proof.
  unfold for_each_data_line, data_lines.
  destruct lines as [|header rest]; [done|].
  replace (length (header :: rest) - 1)%nat with (length rest)
    by (simpl; lia).
  apply (fold_indexed_lines body [header] rest s0).
Qed.

End ImportLoop.

(** ** The localStorage store: import *)

Section BrowserImport.
Import BrowserDb.

Lemma browser_translations_initDB ls : translations (initDB ls) = translations ls.
Proof. by destruct ls as [[?|] ?]. Qed.

Lemma browser_translations_set l ls : translations (set_translations l ls) = l.
Proof. done. Qed.

Lemma browser_users_initDB ls : users (initDB ls) = users ls.
Proof. by destruct ls as [? [?|]]. Qed.

Lemma browser_initDB_idem ls : initDB (initDB ls) = initDB ls.
Proof. by destruct ls as [[?|] [?|]]. Qed.

Lemma browser_translationExists_initDB ls f w :
  translationExists (initDB ls) f w = translationExists ls f w.
Proof. unfold translationExists. by rewrite browser_translations_initDB. Qed.

Lemma browser_translationExists_spec ls french wolof :
  translationExists ls french wolof = true <->
  exists t, t ∈ translations ls /\
            t !! "french" = Some (VStr french) /\
            t !! "wolof" = Some (VStr wolof).
Proof.
  unfold translationExists. rewrite existsb_exists. split.
  - intros (t & Hin & Ht). apply andb_true_iff in Ht as [H1 H2].
    apply bool_decide_eq_true in H1, H2. exists t.
    by rewrite list_elem_of_In.
  - intros (t & Hin & H1 & H2). exists t. rewrite <- list_elem_of_In.
    split; [done|]. by rewrite !bool_decide_eq_true_2.
Qed.

Lemma browser_records_cons clk n row rows :
  browser_records clk n (row :: rows)
  = (let '(i, wolof, french) := row in
     new_translation (date_now clk i + n) french wolof (date_iso clk i))
    :: browser_records clk (n + 1) rows.
Proof.
  unfold browser_records. rewrite imap_cons. destruct row as [[i w] f].
  rewrite Z.add_0_r. f_equal. apply imap_ext. intros j [[i' w'] f'] _.
  simpl. do 2 f_equal. lia.
Qed.

Lemma browser_import_loop ls clk rows acc n :
  fold_left (fun s '(i, raw) => import_line ls clk s i raw) rows (acc, n)
  = (let new := accepted_rows (translationExists ls) rows in
     (acc ++ browser_records clk n new, (n + Z.of_nat (length new))%Z)).
Proof.
  revert acc n. induction rows as [|[i raw] rows IH]; intros acc n.
  - simpl. by rewrite app_nil_r, Z.add_0_r.
  - simpl fold_left. unfold import_line at 1.
    rewrite csv_fields_row_of_line, accepted_rows_cons.
    destruct (row_of_line raw) as [[wolof french]|]; [|apply IH].
    destruct (translationExists ls french wolof); simpl negb; cbv iota;
      [apply IH|].
    rewrite IH. cbv zeta.
    rewrite browser_records_cons, <- app_assoc. simpl. f_equal. lia.
Qed.

Lemma browser_records_inserted clk n rows :
  Forall2 (inserted_for clk) rows (browser_records clk n rows).
Proof.
  revert n. induction rows as [|[[i w] f] rows IH]; intros n.
  - constructor.
  - rewrite browser_records_cons. constructor; [|apply IH].
    unfold inserted_for, new_translation. by simplify_map_eq.
Qed.

(** The translations after an import: the stored ones, then one record for
    each accepted row of the text. *)
Lemma browser_import_translations csv clk ls :
  importTranslationsFromCSV csv clk ls
  = (set_translations
       (translations ls ++
          browser_records clk 0
            (accepted_rows (translationExists ls)
                           (data_lines (split newline csv))))
       (initDB ls),
     Resolved true).
Proof.
  unfold importTranslationsFromCSV. rewrite for_each_data_line_fold.
  rewrite browser_import_loop. cbv zeta.
  rewrite browser_translations_initDB.
  do 4 f_equal. apply accepted_rows_ext. intros f w.
  apply browser_translationExists_initDB.
Qed.

End BrowserImport.

(** ** The localStorage store: importing a text again *)
Section BrowserReimport.
Import BrowserDb.

Lemma accepted_rows_elem e rows i raw wolof french :
  (i, raw) ∈ rows -> row_of_line raw = Some (wolof, french) ->
  e french wolof = false -> (i, wolof, french) ∈ accepted_rows e rows.
Proof.
  intros Hin Hrow He. induction rows as [|[j raw'] rows IH];
    [by apply elem_of_nil in Hin|].
  rewrite accepted_rows_cons. apply elem_of_cons in Hin as [Heq|Hin].
  - injection Heq as <- <-. rewrite Hrow, He. apply elem_of_cons. by left.
  - specialize (IH Hin). destruct (row_of_line raw') as [[w f]|]; [|done].
    destruct (e f w); [done|]. apply elem_of_cons. by right.
Qed.

Lemma accepted_rows_none e rows :
  (forall i raw wolof french,
     (i, raw) ∈ rows -> row_of_line raw = Some (wolof, french) ->
     e french wolof = true) ->
  accepted_rows e rows = [].
Proof.
  intros He. induction rows as [|[j raw] rows IH]; [done|].
  rewrite accepted_rows_cons.
  assert (accepted_rows e rows = []) as ->.
  { apply IH. intros i r w f Hin. apply (He i r), elem_of_cons. by right. }
  destruct (row_of_line raw) as [[w f]|] eqn:E; [|done].
  rewrite (He j raw w f); [done | apply elem_of_cons; by left | done].
Qed.

Lemma inserted_for_elem clk rows records i wolof french :
  Forall2 (inserted_for clk) rows records ->
  (i, wolof, french) ∈ rows ->
  exists t, t ∈ records /\ t !! "french" = Some (VStr french)
            /\ t !! "wolof" = Some (VStr wolof).
Proof.
  induction 1 as [|row t rows records Hrow _ IH]; intros Hin;
    [by apply elem_of_nil in Hin|].
  apply elem_of_cons in Hin as [<-|Hin].
  - exists t. split; [apply elem_of_cons; by left|].
    destruct Hrow as (? & ? & _). done.
  - destruct (IH Hin) as (t' & ? & ?). exists t'.
    split; [apply elem_of_cons; by right | done].
Qed.

(** After an import every row of the text is in the store, so importing
    the same text again, at any later time, changes nothing. *)
Lemma browser_import_twice csv clk1 clk2 ls :
  let ls1 := (importTranslationsFromCSV csv clk1 ls).1 in
  importTranslationsFromCSV csv clk2 ls1 = (ls1, Resolved true).
Proof.
  cbv zeta. rewrite (browser_import_translations csv clk1 ls). simpl fst.
  rewrite browser_import_translations.
  set (rows := data_lines (split newline csv)).
  set (new := accepted_rows (translationExists ls) rows).
  set (ls1 := set_translations (translations ls ++ _) (initDB ls)).
  assert (accepted_rows (translationExists ls1) rows = []) as ->.
  { apply accepted_rows_none. intros i raw w f Hin Hrow.
    apply browser_translationExists_spec. unfold ls1. simpl.
    destruct (translationExists ls f w) eqn:E.
    - apply browser_translationExists_spec in E as (t & Ht & ?).
      exists t. split; [|done]. apply elem_of_app. by left.
    - pose proof (accepted_rows_elem _ _ _ _ _ _ Hin Hrow E) as Hacc.
      destruct (inserted_for_elem clk1 _ _ _ _ _
                  (browser_records_inserted clk1 0 new) Hacc) as (t & Ht & ?).
      exists t. split; [|done]. apply elem_of_app. by right. }
  unfold browser_records. simpl imap. rewrite app_nil_r.
  subst ls1. by destruct ls as [? [?|]].
Qed.

Lemma browser_import_idempotent_count csv clk1 clk2 ls :
  let once := (importTranslationsFromCSV csv clk1 ls).1 in
  let twice := (importTranslationsFromCSV csv clk2 once).1 in
  length (translations twice) = length (translations once).
Proof. cbv zeta. by rewrite browser_import_twice. Qed.

End BrowserReimport.

(** ** The IndexedDB store: import *)

Section IndexedImport.
Import IndexedDb.

Lemma indexed_place_append g v rs :
  Forall (fun r => exists z, r !! "id" = Some (VNum z) /\ (z < g)%Z) rs ->
  place (KNum g) v rs = rs ++ [v].
Proof.
  induction 1 as [|r rs (z & Hz & Hlt) _ IH]; [done|].
  simpl. unfold key_of. rewrite Hz. simpl.
  destruct (decide (KNum g = KNum z)) as [[= ->]|_]; [lia|].
  destruct (Z.ltb_spec g z); [lia|]. by rewrite IH.
Qed.

Lemma indexed_write_generated b v os :
  v !! "id" = None -> indexed_numeric os ->
  let os' := {| records := records os ++ [<["id" := VNum (generator os)]> v];
                generator := generator os + 1 |} in
  store_write b v os = inr os' /\ indexed_numeric os'.
Proof.
  intros Hv Hos. cbv zeta. split.
  - unfold store_write. rewrite Hv. by rewrite indexed_place_append.
  - unfold indexed_numeric. simpl. apply Forall_app. split.
    + eapply Forall_impl; [exact Hos|]. intros r (z & ? & ?). exists z.
      split; [done|lia].
    + constructor; [|done]. exists (generator os). split; [|lia].
      by rewrite lookup_insert_eq.
Qed.

Lemma indexed_records_cons clk g row rows :
  indexed_records clk g (row :: rows)
  = (let '(i, wolof, french) := row in
     <["id" := VNum g]> (new_translation french wolof (date_iso clk i)))
    :: indexed_records clk (g + 1) rows.
Proof.
  unfold indexed_records. rewrite imap_cons. destruct row as [[i w] f].
  rewrite Z.add_0_r. f_equal. apply imap_ext. intros j [[i' w'] f'] _.
  simpl. by replace (g + Z.of_nat (S j))%Z with (g + 1 + Z.of_nat j)%Z by lia.
Qed.

Lemma indexed_import_line_step clk os i raw :
  import_line clk (inr os) i raw
  = match row_of_line raw with
    | Some (wolof, french) =>
        store_write true (new_translation french wolof (date_iso clk i)) os
    | None => inr os
    end.
Proof. unfold import_line. by rewrite csv_fields_row_of_line. Qed.

Lemma indexed_import_loop clk rows os :
  indexed_numeric os ->
  let new := accepted_rows (fun _ _ => false) rows in
  let os' := {| records := records os ++ indexed_records clk (generator os) new;
                generator := generator os + Z.of_nat (length new) |} in
  fold_left (fun s '(i, raw) => import_line clk s i raw) rows (inr os) = inr os'
  /\ indexed_numeric os'.
Proof.
  revert os. induction rows as [|[i raw] rows IH]; intros os Hos.
  - simpl. rewrite app_nil_r, Z.add_0_r. by destruct os.
  - cbv zeta. cbn [fold_left].
    rewrite indexed_import_line_step, accepted_rows_cons.
    destruct (row_of_line raw) as [[wolof french]|]; [|by apply IH].
    destruct (indexed_write_generated true
                (new_translation french wolof (date_iso clk i)) os)
      as [-> Hos']; [done | done |].
    destruct (IH _ Hos') as [-> Hnum]. simpl in *.
    rewrite indexed_records_cons. rewrite <- app_assoc in Hnum |- *.
    simpl in *.
    set (n := length (accepted_rows (fun _ _ => false) rows)) in *.
    replace (generator os + Z.of_nat (S n))%Z
      with (generator os + 1 + Z.of_nat n)%Z by lia.
    done.
Qed.


Lemma indexed_import_translations csv clk db :
  indexed_numeric (translations db) ->
  let new := accepted_rows (fun _ _ => false) (data_lines (split newline csv)) in
  importTranslationsFromCSV csv clk db
  = ({| translations :=
          {| records := records (translations db) ++
                          indexed_records clk (generator (translations db)) new;
             generator := generator (translations db) + Z.of_nat (length new) |};
        users := users db |},
     Resolved true).
Proof.
  intros Hos. cbv zeta. unfold importTranslationsFromCSV.
  rewrite for_each_data_line_fold.
  by destruct (indexed_import_loop clk (data_lines (split newline csv)) _ Hos)
    as [-> _].
Qed.

End IndexedImport.

(** ** Import inserts the accepted rows *)



(** ** Update *)

Lemma merged_fields_spread (old updates : obj) now :
  merged_fields old updates now (<["lastUpdated" := VStr now]> (updates ∪ old)).
Proof.
  split; [apply lookup_insert_eq|]. intros field Hne.
  rewrite lookup_insert_ne by done. rewrite lookup_union.
  by destruct (updates !! field), (old !! field).
Qed.

Section BrowserUpdate.
Import BrowserDb.

Lemma browser_update_unknown id updates now ls :
  ~ browser_present id ls ->
  updateTranslation id updates now ls = (initDB ls, Rejected (NotFound id)).
Proof.
  intros Hno. unfold updateTranslation. rewrite browser_translations_initDB.
  destruct (list_find _ _) as [[index t]|] eqn:E; [|done].
  apply list_find_Some in E as (Hl & Hid & _). destruct Hno.
  exists t. split; [|done]. by eapply list_elem_of_lookup_2.
Qed.

Lemma browser_update_known id updates now ls :
  browser_present id ls ->
  exists index old,
    translations ls !! index = Some old /\ old !! "id" = Some id /\
    (forall j t, translations ls !! j = Some t -> (j < index)%nat ->
                 t !! "id" <> Some id) /\
    updateTranslation id updates now ls
    = (let new := <["lastUpdated" := VStr now]> (updates ∪ old) in
       (set_translations (<[index := new]> (translations ls)) (initDB ls),
        Resolved new)).
Proof.
  intros (t & Hin & Hid). unfold updateTranslation.
  rewrite browser_translations_initDB.
  destruct (list_find_elem_of (fun t => t !! "id" = Some id) _ t Hin Hid)
    as [[index old] E].
  rewrite E. apply list_find_Some in E as (Hl & Hold & Hmin).
  exists index, old. done.
Qed.

End BrowserUpdate.

Section IndexedUpdate.
Import IndexedDb.

Lemma string_ltb_asym a b : string_ltb a b = true -> string_ltb b a = false.
Proof.
  revert b. induction a as [|x a IH]; intros [|y b]; simpl; try done.
  intros H. apply orb_true_iff in H as [H|H].
  - apply N.ltb_lt in H. apply orb_false_iff. split.
    + apply N.ltb_ge. lia.
    + apply andb_false_iff. left. apply N.eqb_neq. lia.
  - apply andb_true_iff in H as [Hxy H]. apply N.eqb_eq in Hxy as ->.
    rewrite N.ltb_irrefl, (IH _ H). simpl. apply andb_false_r.
Qed.

Lemma key_ltb_asym a b : key_ltb a b = true -> key_ltb b a = false.
Proof.
  destruct a, b; simpl; try done.
  - intros H. apply Z.ltb_lt in H. apply Z.ltb_ge. lia.
  - apply string_ltb_asym.
Qed.

Lemma indexed_place_replace k v rs index old :
  StronglySorted
    (fun r1 r2 => exists k1 k2, key_of r1 = Some k1 /\ key_of r2 = Some k2
                                /\ key_ltb k1 k2 = true) rs ->
  list_find (fun record => key_of record = Some k) rs = Some (index, old) ->
  place k v rs = <[index := v]> rs.
Proof.
  intros Hs. revert index. induction Hs as [|r rest Hs IH Hr]; intros index Hf.
  - done.
  - simpl in Hf. simpl place. destruct (decide (key_of r = Some k)) as [Hk|Hk].
    + injection Hf as <- <-. rewrite Hk. by rewrite decide_True.
    + destruct (list_find _ rest) as [[i' old']|] eqn:E; [|done].
      injection Hf as <- <-. pose proof E as E'.
      apply list_find_Some in E' as (Hl & Hold & _).
      apply list_elem_of_lookup_2 in Hl.
      rewrite Forall_forall in Hr. apply Hr in Hl.
      destruct Hl as (k1 & k2 & Hk1 & Hk2 & Hlt).
      rewrite Hk1. rewrite Hold in Hk2. injection Hk2 as <-.
      rewrite decide_False by (intros ->; by rewrite Hk1 in Hk).
      rewrite (key_ltb_asym _ _ Hlt). simpl. f_equal. by apply IH.
Qed.

Lemma indexed_update_known id updates now db :
  indexed_sorted (translations db) -> indexed_present id db ->
  updates !! "id" = None ->
  exists index old,
    records (translations db) !! index = Some old /\ old !! "id" = Some id /\
    exists g,
      updateTranslation id updates now db
      = (let new := <["lastUpdated" := VStr now]> (updates ∪ old) in
         ({| translations :=
               {| records := <[index := new]> (records (translations db));
                  generator := g |};
             users := users db |},
          Resolved new)).
Proof.
  intros Hs (k & Hk & [old Hget]) Hu. unfold updateTranslation.
  rewrite Hk, Hget. unfold store_get in Hget.
  destruct (list_find _ _) as [[index old']|] eqn:E; [|done].
  injection Hget as ->. pose proof E as E'.
  apply list_find_Some in E' as (Hl & Hold & _).
  unfold key_of in Hold. destruct (old !! "id") as [x|] eqn:Hx; [|done].
  simpl in Hold.
  assert (x = id) as ->.
  { destruct x, id; simpl in *; congruence. }
  exists index, old. split; [done|]. split; [done|].
  unfold store_write. simpl default.
  rewrite lookup_insert_ne by done. rewrite lookup_union, Hu, Hx. simpl.
  rewrite Hk. simpl andb. cbv iota.
  rewrite (indexed_place_replace _ _ _ _ _ Hs E). by eexists.
Qed.

End IndexedUpdate.

(** *** Update of an id that is not in the store *)

Lemma indexed_update_never_not_found id updates now db unknown :
  (IndexedDb.updateTranslation id updates now db).2 <> Rejected (NotFound unknown).
Proof.
  unfold IndexedDb.updateTranslation.
  destruct (IndexedDb.key_of_value id); [|done].
  by destruct (IndexedDb.store_write _ _ _).
Qed.

Lemma sqlite_update_unknown run_update id updates now db :
  SqliteDb.select_by_id id (SqliteDb.translations (SqliteDb.getDB db)) = None ->
  SqliteDb.updateTranslation run_update id updates now db
  = (Some (SqliteDb.getDB db), Rejected (NotFound (VNum id))).
Proof. intros H. unfold SqliteDb.updateTranslation. by rewrite H. Qed.

(** C3.  The IndexedDB store, asked to update the id 42 that it does not
    hold, does not fail: the promise is fulfilled and the store has a third
    record, made of the given fields alone under the next generated key.
    (The localStorage store and the SQLite store reject the call with
    NotFound and stay as they were: [browser_update_unknown],
    [sqlite_update_unknown].) *)
Theorem indexed_update_unknown_id_inserts :
  ~ indexed_present (VNum 42) sample_database /\
  IndexedDb.updateTranslation (VNum 42) sample_validation sample_stamp
                              sample_database
  = (let updated := <["lastUpdated" := VStr sample_stamp]> sample_validation in
     ({| IndexedDb.translations :=
           {| IndexedDb.records :=
                [sample_record_1; sample_record_2; <["id" := VNum 3]> updated];
              IndexedDb.generator := 4 |};
         IndexedDb.users := empty_store |},
      Resolved updated)).
Proof.
  split; [|vm_compute; reflexivity].
  intros (k & Hk & Hsome). injection Hk as <-. revert Hsome.
  vm_compute. by intros [? ?].
Qed.

(** *** Update of an id that is in the store *)

(** C5 (as amended).  For an id that the store holds and fields that do not
    name [id], an update fulfils its promise with the merged record, which
    takes the place of the first record of that id (localStorage) or of the
    record of that key (IndexedDB) and leaves every other record as it was.
    The merged record holds the time of the update as [lastUpdated], the
    given value in every other named field and the old value in every field
    not named. *)
Theorem update_merges_named_fields id updates now ls db :
  updates !! "id" = None ->
  browser_present id ls ->
  indexed_sorted (IndexedDb.translations db) ->
  indexed_present id db ->
  (exists index old new,
     BrowserDb.translations ls !! index = Some old /\ old !! "id" = Some id /\
     (BrowserDb.updateTranslation id updates now ls).2 = Resolved new /\
     BrowserDb.translations (BrowserDb.updateTranslation id updates now ls).1
     = <[index := new]> (BrowserDb.translations ls) /\
     merged_fields old updates now new)
  /\
  (exists index old new,
     IndexedDb.records (IndexedDb.translations db) !! index = Some old /\
     old !! "id" = Some id /\
     (IndexedDb.updateTranslation id updates now db).2 = Resolved new /\
     IndexedDb.records
       (IndexedDb.translations (IndexedDb.updateTranslation id updates now db).1)
     = <[index := new]> (IndexedDb.records (IndexedDb.translations db)) /\
     merged_fields old updates now new).
Proof.
  intros Hu Hls Hs Hdb. split.
  - destruct (browser_update_known id updates now ls Hls)
      as (index & old & Hl & Hid & _ & ->).
    exists index, old, (<["lastUpdated" := VStr now]> (updates ∪ old)).
    repeat split; try done; apply merged_fields_spread.
  - destruct (indexed_update_known id updates now db Hs Hdb Hu)
      as (index & old & Hl & Hid & g & ->).
    exists index, old, (<["lastUpdated" := VStr now]> (updates ∪ old)).
    repeat split; try done; apply merged_fields_spread.
Qed.

Lemma sample_database_sorted : indexed_sorted (IndexedDb.translations sample_database).
Proof.
  unfold indexed_sorted. simpl. repeat constructor.
  by exists (IndexedDb.KNum 1), (IndexedDb.KNum 2).
Qed.

Lemma update_merges_named_fields_witness :
  exists index old new,
    BrowserDb.translations sample_storage !! index = Some old /\
    old !! "id" = Some (VNum 1) /\
    (BrowserDb.updateTranslation (VNum 1) sample_validation sample_stamp
                                 sample_storage).2 = Resolved new /\
    BrowserDb.translations
      (BrowserDb.updateTranslation (VNum 1) sample_validation sample_stamp
                                   sample_storage).1
    = <[index := new]> (BrowserDb.translations sample_storage) /\
    merged_fields old sample_validation sample_stamp new.
Proof.
  refine (proj1 (update_merges_named_fields (VNum 1) sample_validation
                   sample_stamp sample_storage sample_database _ _ _ _)).
  - reflexivity.
  - exists sample_record_1. split; [left | reflexivity].
  - unfold indexed_sorted. simpl. repeat constructor.
    by exists (IndexedDb.KNum 1), (IndexedDb.KNum 2).
  - exists (IndexedDb.KNum 1). split; [reflexivity|].
    exists sample_record_1. vm_compute. reflexivity.
Defined.

(** C5, counterexample.  In the IndexedDB store the fields
    [{ id: 2, status: 'validated' }] given for the id 1 leave the record of
    id 1 as it was, still pending, and replace the record of id 2. *)
Lemma update_naming_id_counterexample :
  let updates : obj := {[ "id" := VNum 2; "status" := VStr (js "validated") ]} in
  let after :=
    IndexedDb.translations
      (IndexedDb.updateTranslation (VNum 1) updates sample_stamp sample_database).1 in
  indexed_sorted (IndexedDb.translations sample_database) /\
  indexed_present (VNum 1) sample_database /\
  IndexedDb.store_get (IndexedDb.KNum 1) after = Some sample_record_1 /\
  sample_record_1 !! "status" = Some (VStr (js "pending")) /\
  IndexedDb.store_get (IndexedDb.KNum 2)
                      (IndexedDb.translations sample_database)
  = Some sample_record_2 /\
  IndexedDb.store_get (IndexedDb.KNum 2) after <> Some sample_record_2.
Proof.
  cbv zeta. split; [exact sample_database_sorted|]. split.
  { exists (IndexedDb.KNum 1). split; [reflexivity|].
    exists sample_record_1. vm_compute. reflexivity. }
  split; [vm_compute; reflexivity|]. split; [reflexivity|].
  split; [vm_compute; reflexivity|].
  intros H. apply (f_equal (fun o => o ≫= (fun t => t !! "wolof"))) in H.
  vm_compute in H. discriminate H.
Qed.

(** ** The operations of the store interface *)

Section IndexedPresence.
Import IndexedDb.




Lemma indexed_import_loop_failed clk rows e :
  fold_left (fun s '(i, raw) => import_line clk s i raw) rows (inl e) = inl e.
Proof. induction rows as [|[i raw] rows IH]; [done|]. apply IH. Qed.




End IndexedPresence.

Section BrowserPresence.
Import BrowserDb.





End BrowserPresence.




(** ** The user store *)

Section Users.

Lemma default_names_NoDup : NoDup default_names.
Proof. apply (bool_decide_unpack _). by vm_compute. Qed.

Lemma filter_ext_elem {A} (P Q : A -> Prop)
    `{forall x, Decision (P x)} `{forall x, Decision (Q x)} (l : list A) :
  (forall x, x ∈ l -> P x <-> Q x) -> filter P l = filter Q l.
Proof.
  induction l as [|x l IH]; intros Hl; [done|].
  rewrite !filter_cons, IH.
  - destruct (decide (P x)) as [Hp|Hp], (decide (Q x)) as [Hq|Hq]; try done;
      exfalso; apply (Hl x (list_elem_of_here _ _)) in Hp || apply Hp;
      try done; by apply (Hl x (list_elem_of_here _ _)).
  - intros y Hy. apply Hl. by right.
Qed.

Lemma filter_none {A} (P : A -> Prop) `{forall x, Decision (P x)} (l : list A) :
  (forall x, x ∈ l -> ~ P x) -> filter P l = [].
Proof.
  induction l as [|x l IH]; intros Hl; [done|].
  rewrite filter_cons_False by (apply Hl; left). apply IH.
  intros y Hy. apply Hl. by right.
Qed.

Lemma user_named_snoc name users user other :
  user !! "name" = Some (VStr other) -> other <> name ->
  user_named name (users ++ [user]) <-> user_named name users.
Proof.
  intros Hu Hne. unfold user_named. rewrite Exists_app. split; [|by left].
  intros [H|H]; [done|]. apply Exists_cons in H as [H|H].
  - congruence.
  - by apply Exists_nil in H.
Qed.

Lemma existsb_has_name name users :
  existsb (BrowserDb.has_name name) users = bool_decide (user_named name users).
Proof.
  unfold user_named. induction users as [|u us IH]; [done|]. simpl. rewrite IH.
  unfold BrowserDb.has_name.
  destruct (decide (u !! "name" = Some (VStr name))) as [Hu|Hu].
  - rewrite (bool_decide_eq_true_2 _ Hu). simpl. symmetry.
    apply bool_decide_eq_true_2. by left.
  - rewrite (bool_decide_eq_false_2 _ Hu). simpl.
    apply bool_decide_ext. rewrite Exists_cons. tauto.
Qed.

Lemma seeded_complete before after :
  seeded before after -> missing_defaults after = [].
Proof.
  intros (added & -> & Hnames). apply filter_none. intros name Hin Hno.
  apply Hno. unfold user_named. rewrite Exists_app.
  destruct (decide (user_named name before)) as [Hb|Hb]; [by left|right].
  assert (Some (VStr name) ∈ (fun user => user !! "name") <$> added) as Hn.
  { rewrite Hnames. apply list_elem_of_fmap. exists name. split; [done|].
    by apply list_elem_of_filter. }
  apply list_elem_of_fmap in Hn as (u & Hu & Huin).
  apply Exists_exists. by exists u.
Qed.

Lemma seeded_nothing before added :
  missing_defaults before = [] ->
  (fun user : obj => user !! "name") <$> added
  = (fun name => Some (VStr name)) <$> missing_defaults before ->
  added = [].
Proof. intros ->. apply fmap_nil_inv. Qed.

End Users.

Section BrowserUsers.
Import BrowserDb.

Lemma browser_seed_loop clk names k us ch :
  NoDup names ->
  exists added,
    fold_left (add_default_user clk) (imap (fun i n => ((k + i)%nat, n)) names)
              (us, ch)
    = (us ++ added, ch || negb (bool_decide (added = []))) /\
    (fun user => user !! "name") <$> added
    = (fun name => Some (VStr name))
        <$> filter (fun name => ~ user_named name us) names.
Proof.
  intros Hnd. revert k us ch.
  induction Hnd as [|name names Hnotin Hnd IH]; intros k us ch.
  - exists []. simpl. by rewrite app_nil_r, orb_false_r.
  - rewrite imap_cons. cbn [fold_left]. unfold add_default_user at 2.
    rewrite existsb_has_name, (imap_ext _ (fun i n => ((S k + i)%nat, n)))
      by (intros; simpl; f_equal; lia).
    rewrite filter_cons. destruct (decide (user_named name us)) as [Hn|Hn].
    + rewrite bool_decide_eq_true_2 by done. simpl negb. cbv iota.
      rewrite decide_False by tauto. apply IH.
    + rewrite bool_decide_eq_false_2 by done. simpl negb. cbv iota.
      rewrite decide_True by done.
      set (u := {[ "id" := _; "name" := VStr name ]} : obj).
      destruct (IH (S k) (us ++ [u]) true) as (added & -> & Hnames).
      exists (u :: added). split.
      * by rewrite <- app_assoc, orb_true_r.
      * rewrite !fmap_cons, Hnames. apply (f_equal2 cons); [done|]. f_equal.
        apply filter_ext_elem. intros n Hin.
        assert (name <> n) by (by intros ->).
        by rewrite (user_named_snoc n us u name).
Qed.

Lemma browser_initializeUsers_seeded clk ls :
  exists added,
    initializeUsers clk ls
    = ((if bool_decide (added = []) then initDB ls
        else set_users (users ls ++ added) (initDB ls)),
       Resolved true) /\
    (fun user => user !! "name") <$> added
    = (fun name => Some (VStr name)) <$> missing_defaults (users ls).
Proof.
  unfold initializeUsers.
  destruct (browser_seed_loop clk defaultUsers 0 (users (initDB ls)) false
              default_names_NoDup) as (added & Hfold & Hnames).
  change (imap pair defaultUsers)
    with (imap (fun i n => ((0 + i)%nat, n)) defaultUsers).
  rewrite Hfold. rewrite browser_users_initDB in *. exists added.
  split; [|done]. simpl orb. by destruct (bool_decide (added = [])).
Qed.

Lemma browser_initializeUsers_users clk ls :
  seeded (users ls) (users (initializeUsers clk ls).1).
Proof.
  destruct (browser_initializeUsers_seeded clk ls) as (added & -> & Hnames).
  exists added. split; [|done]. simpl.
  destruct (decide (added = [])) as [->|Hne].
  - rewrite bool_decide_eq_true_2 by done.
    by rewrite browser_users_initDB, app_nil_r.
  - by rewrite bool_decide_eq_false_2 by done.
Qed.

Lemma browser_initializeUsers_again clk ls :
  missing_defaults (users ls) = [] ->
  initializeUsers clk ls = (initDB ls, Resolved true).
Proof.
  intros Hm.
  destruct (browser_initializeUsers_seeded clk ls) as (added & -> & Hnames).
  rewrite (seeded_nothing _ _ Hm Hnames). by rewrite bool_decide_eq_true_2.
Qed.

Lemma browser_initializeUsers_idempotent clk clk' ls :
  let after := (initializeUsers clk ls).1 in
  initializeUsers clk' after = (after, Resolved true).
Proof.
  cbv zeta.
  rewrite browser_initializeUsers_again
    by (eapply seeded_complete, browser_initializeUsers_users).
  f_equal.
  destruct (browser_initializeUsers_seeded clk ls) as (added & -> & _).
  simpl. destruct (bool_decide _); [apply browser_initDB_idem|].
  by destruct ls as [[?|] ?].
Qed.

End BrowserUsers.

Section SqliteUsers.
Import SqliteDb.

Lemma sqlite_seed_loop names t :
  NoDup names ->
  exists added,
    rows (fold_left insert_user names t) = rows t ++ added /\
    (added = [] -> fold_left insert_user names t = t) /\
    (fun user => user !! "name") <$> added
    = (fun name => Some (VStr name))
        <$> filter (fun name => ~ user_named name (rows t)) names.
Proof.
  intros Hnd. revert t.
  induction Hnd as [|name names Hnotin Hnd IH]; intros t.
  - exists []. simpl. by rewrite app_nil_r.
  - cbn [fold_left]. unfold insert_user at 2 4.
    change (existsb _ (rows t)) with (existsb (BrowserDb.has_name name) (rows t)).
    rewrite existsb_has_name, filter_cons.
    destruct (decide (user_named name (rows t))) as [Hn|Hn].
    + rewrite bool_decide_eq_true_2 by done.
      rewrite decide_False by tauto. apply IH.
    + rewrite bool_decide_eq_false_2 by done.
      rewrite decide_True by done.
      set (u := {[ "id" := _; "name" := VStr name ]} : obj).
      set (t1 := {| rows := rows t ++ [u]; sequence := next_rowid t |}).
      destruct (IH t1) as (added & Hrows & _ & Hnames).
      exists (u :: added). split; [|split].
      * rewrite Hrows. simpl. by rewrite <- app_assoc.
      * done.
      * rewrite !fmap_cons, Hnames. apply (f_equal2 cons); [done|]. f_equal.
        apply filter_ext_elem. intros n Hin.
        assert (name <> n) by (by intros ->).
        simpl. by rewrite (user_named_snoc n (rows t) u name).
Qed.

Lemma sqlite_initializeUsers_users db :
  seeded (rows (users (getDB db)))
         (rows (users (getDB (initializeUsers db).1))).
Proof.
  destruct (sqlite_seed_loop defaultUsers (users (getDB db)) default_names_NoDup)
    as (added & Hrows & _ & Hnames).
  exists added. split; [|done]. unfold initializeUsers. simpl. apply Hrows.
Qed.

Lemma sqlite_initializeUsers_again db :
  missing_defaults (rows (users (getDB db))) = [] ->
  initializeUsers db = (Some (getDB db), Resolved true).
Proof.
  intros Hm.
  destruct (sqlite_seed_loop defaultUsers (users (getDB db)) default_names_NoDup)
    as (added & _ & Hsame & Hnames).
  unfold initializeUsers. rewrite Hsame by (by eapply seeded_nothing).
  by destruct (getDB db).
Qed.

Lemma sqlite_initializeUsers_idempotent db :
  let after := (initializeUsers db).1 in
  initializeUsers after = (after, Resolved true).
Proof.
  cbv zeta.
  rewrite sqlite_initializeUsers_again
    by (eapply seeded_complete, sqlite_initializeUsers_users).
  done.
Qed.

End SqliteUsers.

Section IndexedUsers.
Import IndexedDb.

Lemma indexed_index_get_named name os :
  is_Some (index_get name os) <-> user_named name (records os).
Proof.
  unfold index_get, user_named. rewrite Exists_exists. split.
  - intros [u Hu]. destruct (list_find _ _) as [[i u']|] eqn:E; [|done].
    apply list_find_Some in E as (Hl & Hname & _). exists u'.
    split; [by eapply list_elem_of_lookup_2 | done].
  - intros (u & Hin & Hname).
    destruct (list_find_elem_of (fun r => r !! "name" = Some (VStr name))
                _ u Hin Hname) as [[i u'] ->]. by eexists.
Qed.

Lemma indexed_seed_loop (results : list (jsstring * option obj)) os :
  NoDup results.*1 -> indexed_numeric os ->
  Forall (fun '(name, result) =>
            result = None <-> ~ user_named name (records os)) results ->
  exists added g,
    fold_left (fun acc '(name, result) =>
                 match acc, result with
                 | inr store, None => add_user name store
                 | _, _ => acc
                 end)
              results (inr os)
    = inr {| records := records os ++ added; generator := g |} /\
    indexed_numeric {| records := records os ++ added; generator := g |} /\
    (added = [] -> g = generator os) /\
    (fun user => user !! "name") <$> added
    = (fun name => Some (VStr name))
        <$> filter (fun name => ~ user_named name (records os)) results.*1.
Proof.
  revert os. induction results as [|[name result] results IH];
    intros os Hnd Hos Hres.
  - exists [], (generator os). destruct os. simpl in *. by rewrite app_nil_r.
  - apply NoDup_cons in Hnd as [Hnotin Hnd].
    apply Forall_cons in Hres as [Hr Hres].
    cbn [fold_left]. rewrite fmap_cons, filter_cons. cbn [fst].
    destruct result as [found|].
    + rewrite decide_False by (intros Hno; by apply Hr in Hno).
      by apply IH.
    + rewrite decide_True by (by apply Hr).
      unfold add_user at 2.
      rewrite bool_decide_eq_false_2
        by (rewrite indexed_index_get_named; by apply Hr).
      destruct (indexed_write_generated true {[ "name" := VStr name ]} os)
        as [-> Hos1]; [done | done |].
      pose (u := <["id" := VNum (generator os)]> {[ "name" := VStr name ]} : obj).
      assert (forall n, n ∈ results.*1 ->
                user_named n (records os ++ [u]) <-> user_named n (records os))
        as Hsame.
      { intros n Hin. apply (user_named_snoc n _ u name).
        - unfold u. by simplify_map_eq.
        - by intros ->. }
      destruct (IH _ Hnd Hos1) as (added & g & -> & Hnum & _ & Hnames).
      { rewrite Forall_forall in Hres |- *. intros [n r] Hin.
        assert (n ∈ results.*1) as Hn
          by (apply list_elem_of_fmap; by exists (n, r)).
        pose proof (Hres (n, r) Hin) as Hnr. pose proof (Hsame n Hn) as Hs.
        cbn [records]. unfold u in Hs. by rewrite Hs. }
      cbn [records] in Hnum |- *. rewrite <- app_assoc in Hnum.
      exists (u :: added), g. split; [|split; [|split]].
      * by rewrite <- app_assoc.
      * done.
      * done.
      * rewrite !fmap_cons, Hnames. apply (f_equal2 cons); [done|]. f_equal.
        apply filter_ext_elem. intros n Hin.
        pose proof (Hsame n Hin) as Hs. cbn [records]. unfold u in Hs.
        by rewrite Hs.
Qed.

Lemma indexed_initializeUsers_seeded db :
  indexed_numeric (users db) ->
  exists added g,
    initializeUsers db
    = ({| translations := translations db;
          users := {| records := records (users db) ++ added; generator := g |} |},
       Resolved true) /\
    indexed_numeric {| records := records (users db) ++ added; generator := g |} /\
    (added = [] -> g = generator (users db)) /\
    (fun user => user !! "name") <$> added
    = (fun name => Some (VStr name)) <$> missing_defaults (records (users db)).
Proof.
  intros Hos. unfold initializeUsers.
  destruct (indexed_seed_loop
              ((fun name => (name, index_get name (users db))) <$> defaultUsers)
              (users db))
    as (added & g & Hfold & Hnum & Hg & Hnames).
  - rewrite <- list_fmap_compose. simpl. apply default_names_NoDup.
  - done.
  - rewrite Forall_fmap. apply Forall_forall. intros name _. simpl.
    rewrite <- indexed_index_get_named.
    destruct (index_get name (users db)); split; try done.
    intros H. destruct H. by eexists.
  - rewrite Hfold. exists added, g. split; [done|]. split; [done|].
    split; [done|]. rewrite Hnames. by rewrite <- list_fmap_compose.
Qed.

Lemma indexed_initializeUsers_idempotent db :
  indexed_numeric (users db) ->
  let after := (initializeUsers db).1 in
  seeded (records (users db)) (records (users after)) /\
  initializeUsers after = (after, Resolved true).
Proof.
  intros Hos. cbv zeta.
  destruct (indexed_initializeUsers_seeded db Hos)
    as (added & g & -> & Hnum & _ & Hnames).
  cbn [fst]. set (after := {| translations := _; users := _ |}).
  assert (seeded (records (users db)) (records (users after))) as Hseed
    by (by exists added).
  split; [done|].
  destruct (indexed_initializeUsers_seeded after Hnum)
    as (added' & g' & -> & _ & Hg & Hnames').
  rewrite (seeded_nothing _ _ (seeded_complete _ _ Hseed) Hnames') in *.
  rewrite Hg by done. by rewrite app_nil_r.
Qed.

End IndexedUsers.

(** C9.  In each of the three stores [initializeUsers] fulfils its promise,
    leaves the stored users as they are and appends one user for each of the
    names Alwaly, Serge and Matar that no stored user carries, in that
    order; run again on the store it has left, it changes nothing. *)
Theorem initializeUsers_idempotent clk clk' ls db sql :
  indexed_numeric (IndexedDb.users db) ->
  (let after := BrowserDb.initializeUsers clk ls in
   after.2 = Resolved true /\
   seeded (BrowserDb.users ls) (BrowserDb.users after.1) /\
   BrowserDb.initializeUsers clk' after.1 = (after.1, Resolved true))
  /\
  (let after := IndexedDb.initializeUsers db in
   after.2 = Resolved true /\
   seeded (IndexedDb.records (IndexedDb.users db))
          (IndexedDb.records (IndexedDb.users after.1)) /\
   IndexedDb.initializeUsers after.1 = (after.1, Resolved true))
  /\
  (let after := SqliteDb.initializeUsers sql in
   after.2 = Resolved true /\
   seeded (SqliteDb.rows (SqliteDb.users (SqliteDb.getDB sql)))
          (SqliteDb.rows (SqliteDb.users (SqliteDb.getDB after.1))) /\
   SqliteDb.initializeUsers after.1 = (after.1, Resolved true)).
Proof.
  intros Hos. cbv zeta. split; [|split].
  - split; [|split].
    + by destruct (browser_initializeUsers_seeded clk ls) as (added & -> & _).
    + apply browser_initializeUsers_users.
    + apply browser_initializeUsers_idempotent.
  - split.
    + by destruct (indexed_initializeUsers_seeded db Hos) as (? & ? & -> & _).
    + by apply indexed_initializeUsers_idempotent.
  - split; [done|]. split.
    + apply sqlite_initializeUsers_users.
    + apply sqlite_initializeUsers_idempotent.
Qed.

Lemma initializeUsers_idempotent_witness :
  indexed_numeric (IndexedDb.users empty_database) /\
  missing_defaults (BrowserDb.users empty_storage) = default_names /\
  seeded (BrowserDb.users empty_storage)
         (BrowserDb.users
            (BrowserDb.initializeUsers sample_clock empty_storage).1).
Proof.
  split; [constructor|]. split; [by vm_compute|].
  refine (proj1 (proj2 (proj1 (initializeUsers_idempotent
                                 sample_clock sample_clock empty_storage
                                 empty_database None _)))).
  constructor.
Defined.

(** ** The random pending translation *)

Section RandomPick.

Lemma Qfloor_eq_iff x j :
  Qfloor x = j <-> (inject_Z j <= x /\ x < inject_Z (j + 1))%Q.
Proof.
  split.
  - intros <-. split; [apply Qfloor_le | apply Qlt_floor].
  - intros [Hl Hu].
    pose proof (Qfloor_resp_le _ _ Hl) as H1. rewrite Qfloor_Z in H1.
    pose proof (Qle_lt_trans _ _ _ (Qfloor_le x) Hu) as H2.
    rewrite <- Zlt_Qlt in H2. lia.
Qed.

Lemma inject_nat_pos n : (0 < n)%nat -> (0 < inject_Z (Z.of_nat n))%Q.
Proof. intros H. change 0%Q with (inject_Z 0). rewrite <- Zlt_Qlt. lia. Qed.

Lemma random_index_interval r n j :
  (0 < n)%nat ->
  random_index r n = j <->
  (inject_Z j / inject_Z (Z.of_nat n) <= r /\
   r < inject_Z (j + 1) / inject_Z (Z.of_nat n))%Q.
Proof.
  intros Hn. pose proof (inject_nat_pos n Hn) as Hpos.
  assert (~ inject_Z (Z.of_nat n) == 0)%Q as Hne
    by (intros E; rewrite E in Hpos; by apply Qlt_irrefl in Hpos).
  unfold random_index. rewrite Qfloor_eq_iff. split; intros [Hl Hu]; split.
  - by apply Qle_shift_div_r.
  - by apply Qlt_shift_div_l.
  - rewrite <- (Qmult_div_r (inject_Z j) _ Hne), Qmult_comm.
    apply Qmult_le_compat_r; [done | by apply Qlt_le_weak].
  - rewrite <- (Qmult_div_r (inject_Z (j + 1)) _ Hne),
      (Qmult_comm (inject_Z (Z.of_nat n))).
    by apply Qmult_lt_compat_r.
Qed.




End RandomPick.



(** ** Export *)

Section ExportText.

Lemma export_csv_concat l :
  export_csv l = csv_header ++ concat ((fun t => csv_line t ++ [newline]) <$> l).
Proof.
  unfold export_csv. generalize csv_header as acc.
  induction l as [|t l IH]; intros acc; simpl.
  - by rewrite app_nil_r.
  - rewrite IH. by rewrite <- app_assoc.
Qed.

Lemma join_element_or_empty v : join_element (or_empty v) = shown_or_empty v.
Proof.
  unfold or_empty, shown_or_empty.
  destruct v as [[|[|]|z|s]|]; simpl; try done.
  - by destruct (z =? 0)%Z.
  - by destruct (bool_decide (s = [])).
Qed.

Lemma csv_line_validated t :
  has_status "validated" t -> csv_line t ++ [newline] = export_row t.
Proof.
  intros Hs. unfold csv_line, export_row. rewrite Hs.
  rewrite !join_element_or_empty. cbn [join].
  change (join_element (Some (VStr (js "validated")))) with (js "validated").
  by rewrite <- !app_assoc.
Qed.

Lemma export_rows_validated all :
  concat ((fun t => csv_line t ++ [newline])
            <$> filter (has_status "validated") all)
  = concat (export_row <$> filter (has_status "validated") all).
Proof.
  induction all as [|t all IH]; [done|]. rewrite filter_cons.
  destruct (decide (has_status "validated" t)) as [Hs|Hs]; [|done].
  rewrite !fmap_cons. cbn [concat]. by rewrite IH, csv_line_validated.
Qed.

Lemma export_csv_validated all :
  export_csv (filter (has_status "validated") all)
  = export_text (filter (has_status "validated") all).
Proof.
  rewrite export_csv_concat, export_rows_validated.
  unfold export_text, csv_header. by rewrite <- app_assoc.
Qed.

End ExportText.

(** C7.  In each store the export is fulfilled with the header line
    followed by the rows of the records that [getValidatedTranslations]
    returns, one row for each record and in their order; and a record without
    [validatedBy] or [correctedBy], or with [null] there, has the empty
    string in that place of its row. *)
Theorem export_lists_validated ls db sql :
  (exists validated,
     (BrowserDb.getValidatedTranslations ls).2 = Resolved validated /\
     (BrowserDb.exportValidatedTranslationsToCSV ls).2
     = Resolved (export_text validated))
  /\
  (exists validated,
     (IndexedDb.getValidatedTranslations db).2 = Resolved validated /\
     (IndexedDb.exportValidatedTranslationsToCSV db).2
     = Resolved (export_text validated))
  /\
  (exists validated,
     (SqliteDb.getValidatedTranslations sql).2 = Resolved validated /\
     (SqliteDb.exportValidatedTranslationsToCSV sql).2
     = Resolved (export_text validated))
  /\
  shown_or_empty None = [] /\ shown_or_empty (Some VNull) = [].
Proof.
  split; [|split; [|split]]; [| | |done];
    eexists; (split; [reflexivity|]); simpl; by rewrite export_csv_validated.
Qed.

(** ** The duplicate check after a correction *)

Section DuplicateCheck.
Import BrowserDb.

Lemma split_two_lines header line :
  newline ∉ header -> newline ∉ line ->
  split newline (header ++ newline :: line) = [header; line].
Proof. intros Hh Hl. by rewrite split_app_sep, split_no_sep. Qed.

Lemma accepted_single_row e wolof french :
  trimmed wolof -> trimmed french -> comma ∉ wolof ->
  e french wolof = false ->
  accepted_rows e [(1%nat, wolof ++ comma :: french)] = [(1%nat, wolof, french)].
Proof.
  intros Hw Hf Hc He. rewrite accepted_rows_cons.
  by rewrite <- csv_fields_row_of_line, csv_fields_clean, He.
Qed.

End DuplicateCheck.

(** C10.  The duplicate check of the localStorage import looks for a record
    whose [french] and [wolof] fields are the candidate pair.  So when the
    record of [id], imported as ([wolof], [french]), has had its Wolof text
    corrected to another text and no other record holds the pair, the check
    finds nothing for ([french], [wolof]), and importing the line
    [wolof,french] appends a second record of that import-time pair. *)
Theorem import_checks_current_wolof
    ls id index old wolof french corrected username header clk now :
  BrowserDb.translations ls !! index = Some old ->
  old !! "id" = Some id ->
  (forall j t, BrowserDb.translations ls !! j = Some t -> (j < index)%nat ->
               t !! "id" <> Some id) ->
  old !! "french" = Some (VStr french) ->
  old !! "originalWolof" = Some (VStr wolof) ->
  (forall j t, BrowserDb.translations ls !! j = Some t -> j <> index ->
               ~ (t !! "french" = Some (VStr french) /\
                  t !! "wolof" = Some (VStr wolof))) ->
  corrected <> wolof ->
  trimmed wolof -> trimmed french -> comma ∉ wolof ->
  newline ∉ header -> newline ∉ wolof -> newline ∉ french ->
  let ls1 :=
    (BrowserDb.updateTranslation id (correction corrected username) now ls).1 in
  let ls2 :=
    (BrowserDb.importTranslationsFromCSV
       (header ++ newline :: wolof ++ comma :: french) clk ls1).1 in
  (forall f w,
     BrowserDb.translationExists ls1 f w = true <->
     exists t, t ∈ BrowserDb.translations ls1 /\
               t !! "french" = Some (VStr f) /\ t !! "wolof" = Some (VStr w)) /\
  (exists updated,
     BrowserDb.translations ls1 !! index = Some updated /\
     updated !! "french" = Some (VStr french) /\
     updated !! "originalWolof" = Some (VStr wolof) /\
     updated !! "wolof" = Some (VStr corrected)) /\
  BrowserDb.translationExists ls1 french wolof = false /\
  BrowserDb.translations ls2
  = BrowserDb.translations ls1 ++
      [BrowserDb.new_translation (date_now clk 1 + 0) french wolof (date_iso clk 1)].
Proof.
  intros Hl Hid Hfirst Hf How Hothers Hne Hw Hfr Hc Hh Hnw Hnf. cbv zeta.
  assert (browser_present id ls) as Hp.
  { exists old. split; [by eapply list_elem_of_lookup_2 | done]. }
  destruct (browser_update_known id (correction corrected username) now ls Hp)
    as (index' & old' & Hl' & Hid' & Hfirst' & ->).
  assert (index' = index) as ->.
  { destruct (Nat.lt_trichotomy index' index) as [Hlt|[->|Hlt]]; [|done|].
    - by destruct (Hfirst _ _ Hl' Hlt).
    - by destruct (Hfirst' _ _ Hl Hlt). }
  rewrite Hl in Hl'. injection Hl' as <-. cbv zeta. cbn [fst].
  set (updated := <["lastUpdated" := VStr now]> (correction corrected username ∪ old)).
  set (ls1 := BrowserDb.set_translations _ _).
  assert (BrowserDb.translations ls1
          = <[index := updated]> (BrowserDb.translations ls)) as Hls1 by done.
  assert (updated !! "wolof" = Some (VStr corrected)) as Hwolof.
  { unfold updated. rewrite lookup_insert_ne by done.
    by apply lookup_union_Some_l. }
  assert (BrowserDb.translationExists ls1 french wolof = false) as Hcheck.
  { apply not_true_is_false. intros Hex.
    apply browser_translationExists_spec in Hex as (t & Hin & Ht1 & Ht2).
    rewrite Hls1 in Hin. apply list_elem_of_lookup in Hin as [j Hj].
    destruct (decide (j = index)) as [->|Hj'].
    - rewrite list_lookup_insert_eq in Hj by (by eapply lookup_lt_Some).
      injection Hj as <-. congruence.
    - rewrite list_lookup_insert_ne in Hj by done.
      by destruct (Hothers j t Hj Hj'). }
  split; [intros f w; apply browser_translationExists_spec|].
  split.
  { exists updated. rewrite Hls1.
    split; [apply list_lookup_insert_eq; by eapply lookup_lt_Some|].
    split; [|split; [|exact Hwolof]]; unfold updated;
      rewrite lookup_insert_ne by done; by rewrite lookup_union_r. }
  split; [done|].
  rewrite browser_import_translations. cbn [fst].
  rewrite browser_translations_set.
  rewrite split_two_lines; [|done|].
  - change (data_lines [header; wolof ++ comma :: french])
      with [(1%nat, wolof ++ comma :: french)].
    by rewrite accepted_single_row.
  - rewrite elem_of_app, elem_of_cons. intros [?|[?|?]]; done.
Qed.

Lemma import_checks_current_wolof_witness :
  let ls1 :=
    (BrowserDb.updateTranslation (VNum 1) (correction (js "salaam") (js "Alwaly"))
                                 sample_stamp sample_storage).1 in
  let ls2 :=
    (BrowserDb.importTranslationsFromCSV
       (js "Wolof,French" ++ newline :: js "salam" ++ comma :: js "bonjour")
       sample_clock ls1).1 in
  sample_record_1 !! "originalWolof" = Some (VStr (js "salam")) /\
  BrowserDb.translationExists ls1 (js "bonjour") (js "salam") = false /\
  BrowserDb.translations ls2
  = BrowserDb.translations ls1 ++
      [BrowserDb.new_translation (date_now sample_clock 1 + 0)
         (js "bonjour") (js "salam") (date_iso sample_clock 1)].
Proof.
  cbv zeta. split; [reflexivity|].
  refine (proj2 (proj2 (import_checks_current_wolof
            sample_storage (VNum 1) 0 sample_record_1 (js "salam") (js "bonjour")
            (js "salaam") (js "Alwaly") (js "Wolof,French") sample_clock
            sample_stamp _ _ _ _ _ _ _ _ _ _ _ _ _))).
  - reflexivity.
  - reflexivity.
  - intros j t _ Hj. lia.
  - reflexivity.
  - reflexivity.
  - intros [|[|j]] t Hj Hne; [done | | done].
    injection Hj as <-. intros [H _]. vm_compute in H. discriminate H.
  - by vm_compute.
  - by vm_compute.
  - by vm_compute.
  - apply (bool_decide_unpack _). by vm_compute.
  - apply (bool_decide_unpack _). by vm_compute.
  - apply (bool_decide_unpack _). by vm_compute.
  - apply (bool_decide_unpack _). by vm_compute.
Defined.

(** ** Importing a text twice *)

Section Reimport.

(** The IndexedDB import has no duplicate check: a second import of a text
    inserts every well-formed row of it once more. *)
Lemma indexed_import_twice_count csv clk1 clk2 db :
  indexed_numeric (IndexedDb.translations db) ->
  let rows := accepted_rows (fun _ _ => false) (data_lines (split newline csv)) in
  let once := (IndexedDb.importTranslationsFromCSV csv clk1 db).1 in
  let twice := (IndexedDb.importTranslationsFromCSV csv clk2 once).1 in
  length (IndexedDb.records (IndexedDb.translations twice))
  = (length (IndexedDb.records (IndexedDb.translations once)) + length rows)%nat.
Proof.
  intros Hdb. cbv zeta.
  destruct (indexed_import_loop clk1 (data_lines (split newline csv)) _ Hdb)
    as [_ Hnum].
  rewrite (indexed_import_translations csv clk1 db Hdb). cbn [fst].
  rewrite indexed_import_translations by exact Hnum. cbn [fst].
  cbn [IndexedDb.translations IndexedDb.records].
  rewrite !length_app. unfold indexed_records. by rewrite !length_imap.
Qed.

Lemma existsb_has_pair french wolof l :
  existsb (fun t => bool_decide (t !! "french" = Some (VStr french))
                    && bool_decide (t !! "wolof" = Some (VStr wolof))) l
  = bool_decide (has_pair french wolof l).
Proof.
  unfold has_pair. induction l as [|t l IH]; [done|]. simpl. rewrite IH.
  destruct (decide (t !! "french" = Some (VStr french)
                    /\ t !! "wolof" = Some (VStr wolof))) as [[H1 H2]|Hn].
  - rewrite (bool_decide_eq_true_2 _ H1), (bool_decide_eq_true_2 _ H2).
    simpl. symmetry. apply bool_decide_eq_true_2. by left.
  - assert (bool_decide (t !! "french" = Some (VStr french))
            && bool_decide (t !! "wolof" = Some (VStr wolof)) = false) as ->.
    { apply andb_false_iff.
      destruct (decide (t !! "french" = Some (VStr french))) as [H1|H1].
      - right. apply bool_decide_eq_false_2. tauto.
      - left. by apply bool_decide_eq_false_2. }
    simpl. apply bool_decide_ext. rewrite Exists_cons. tauto.
Qed.

Lemma sqlite_insert_has_pair wolof french now t f w :
  has_pair f w
    (SqliteDb.rows (SqliteDb.insert_translation wolof french wolof now t))
  <-> has_pair f w (SqliteDb.rows t) \/ (f = french /\ w = wolof).
Proof.
  unfold SqliteDb.insert_translation. rewrite existsb_has_pair.
  destruct (decide (has_pair french wolof (SqliteDb.rows t))) as [Hp|Hp].
  - rewrite bool_decide_eq_true_2 by done. split; [by left|].
    intros [?|[-> ->]]; done.
  - rewrite bool_decide_eq_false_2 by done. cbn [SqliteDb.rows].
    unfold has_pair. rewrite Exists_app, Exists_cons, Exists_nil.
    simplify_map_eq. split.
    + intros [?|[[[= ->] [= ->]]|[]]]; [by left | by right].
    + intros [?|[-> ->]]; [by left | right; by left].
Qed.

Lemma sqlite_import_loop_has_pair clk rows t f w :
  has_pair f w (SqliteDb.rows t) ->
  has_pair f w
    (SqliteDb.rows
       (fold_left (fun s '(i, raw) => SqliteDb.import_line clk s i raw) rows t)).
Proof.
  revert t. induction rows as [|[i raw] rows IH]; intros t Hp; [done|].
  cbn [fold_left]. apply IH. unfold SqliteDb.import_line.
  destruct (csv_fields raw) as [[wolof french]|]; [|done].
  apply sqlite_insert_has_pair. by left.
Qed.

Lemma sqlite_import_loop_complete clk rows t i raw wolof french :
  (i, raw) ∈ rows -> row_of_line raw = Some (wolof, french) ->
  has_pair french wolof
    (SqliteDb.rows
       (fold_left (fun s '(i, raw) => SqliteDb.import_line clk s i raw) rows t)).
Proof.
  revert t. induction rows as [|[j raw'] rows IH]; intros t Hin Hrow;
    [by apply elem_of_nil in Hin|].
  cbn [fold_left]. apply elem_of_cons in Hin as [[= <- <-]|Hin].
  - apply sqlite_import_loop_has_pair. unfold SqliteDb.import_line.
    rewrite csv_fields_row_of_line, Hrow. apply sqlite_insert_has_pair.
    by right.
  - by apply IH.
Qed.

Lemma sqlite_import_loop_nothing clk rows t :
  (forall i raw wolof french,
     (i, raw) ∈ rows -> row_of_line raw = Some (wolof, french) ->
     has_pair french wolof (SqliteDb.rows t)) ->
  fold_left (fun s '(i, raw) => SqliteDb.import_line clk s i raw) rows t = t.
Proof.
  induction rows as [|[j raw] rows IH]; intros Hall; [done|].
  cbn [fold_left].
  assert (SqliteDb.import_line clk t j raw = t) as ->.
  { unfold SqliteDb.import_line. rewrite csv_fields_row_of_line.
    destruct (row_of_line raw) as [[wolof french]|] eqn:E; [|done].
    unfold SqliteDb.insert_translation.
    rewrite existsb_has_pair, bool_decide_eq_true_2; [done|].
    apply (Hall j raw); [by left | done]. }
  apply IH. intros i raw' w f Hin. apply (Hall i raw'). by right.
Qed.

Lemma sqlite_import_twice csv clk1 clk2 db :
  let once := (SqliteDb.importTranslationsFromCSV csv clk1 db).1 in
  SqliteDb.importTranslationsFromCSV csv clk2 once = (once, Resolved true).
Proof.
  cbv zeta. unfold SqliteDb.importTranslationsFromCSV. cbn [fst].
  rewrite !for_each_data_line_fold. cbn [SqliteDb.getDB SqliteDb.initDB].
  cbn [SqliteDb.translations SqliteDb.users].
  rewrite sqlite_import_loop_nothing; [done|].
  intros i raw w f Hin Hrow. by eapply sqlite_import_loop_complete.
Qed.

End Reimport.

(** C2.  In the IndexedDB store an import of the sample text into the
    empty database leaves two records and a second import of the same text
    leaves four.  (The localStorage store and the SQLite store are left
    unchanged by the second import: [browser_import_twice],
    [sqlite_import_twice].) *)
Theorem indexed_import_twice_duplicates :
  let once :=
    (IndexedDb.importTranslationsFromCSV sample_csv sample_clock empty_database).1 in
  let twice :=
    (IndexedDb.importTranslationsFromCSV sample_csv sample_clock once).1 in
  length (IndexedDb.records (IndexedDb.translations once)) = 2%nat /\
  length (IndexedDb.records (IndexedDb.translations twice)) = 4%nat /\
  (fun t => (t !! "wolof", t !! "french"))
    <$> IndexedDb.records (IndexedDb.translations twice)
  = [(Some (VStr (js "salam")), Some (VStr (js "bonjour")));
     (Some (VStr (js "nanga def")), Some (VStr (js "comment vas-tu")));
     (Some (VStr (js "salam")), Some (VStr (js "bonjour")));
     (Some (VStr (js "nanga def")), Some (VStr (js "comment vas-tu")))].
Proof. by vm_compute. Qed.

(** ** What the three stores agree on *)

Section Agreement.




















End Agreement.




(** ** The scenario of the interface description

    The sample text imported into the empty localStorage store gives two
    pending records; once the first is validated by Alwaly, the export is the
    header and the row of that record. *)
Example browser_scenario :
  let ls1 :=
    (BrowserDb.importTranslationsFromCSV sample_csv sample_clock empty_storage).1 in
  let ls2 :=
    (BrowserDb.updateTranslation (VNum 1700000000001) sample_validation
                                 sample_stamp ls1).1 in
  length (filter (has_status "pending") (BrowserDb.translations ls1)) = 2%nat /\
  (BrowserDb.exportValidatedTranslationsToCSV ls2).2
  = Resolved
      (js "Wolof,French,Status,ValidatedBy,CorrectedBy,LastUpdated" ++ [newline]
       ++ [dquote] ++ js "salam" ++ [dquote; comma; dquote] ++ js "bonjour"
       ++ [dquote] ++ js ",validated,Alwaly,,2023-11-14T22:13:20.000Z"
       ++ [newline]).
Proof. by vm_compute. Qed.

(** * Further properties of the code *)

(** ** The fields of a line *)

Section Fields.

Lemma trimStart_blank p s : blank p -> trimStart (p ++ s) = trimStart s.
Proof. induction 1 as [|c p Hc _ IH]; [done|]. simpl. by rewrite Hc. Qed.

Lemma trimStart_split s : exists p, blank p /\ s = p ++ trimStart s.
Proof.
  induction s as [|c r (p & Hp & Hr)];
    [exists []; split; [constructor | done]|].
  simpl. destruct (is_whitespace c) eqn:E.
  - exists (c :: p). split; [by apply Forall_cons|]. simpl. by f_equal.
  - exists []. split; [constructor | done].
Qed.

Lemma trimStart_head s c r : trimStart s = c :: r -> is_whitespace c = false.
Proof.
  induction s as [|d s IH]; [done|]. simpl.
  destruct (is_whitespace d) eqn:E; [done|]. by intros [= <- _].
Qed.

Lemma trimEnd_blank s q : blank q -> trimEnd (s ++ q) = trimEnd s.
Proof.
  intros Hq. unfold trimEnd. rewrite rev_app_distr, trimStart_blank; [done|].
  by apply Forall_rev.
Qed.

Lemma trimEnd_split s : exists q, blank q /\ s = trimEnd s ++ q.
Proof.
  destruct (trimStart_split (rev s)) as (p & Hp & Hs). exists (rev p).
  split; [by apply Forall_rev|].
  unfold trimEnd. by rewrite <- rev_app_distr, <- Hs, rev_involutive.
Qed.

(** [trim] takes white space off both ends, and nothing else. *)
Lemma trim_split s : exists p q, blank p /\ blank q /\ s = p ++ trim s ++ q.
Proof.
  destruct (trimStart_split s) as (p & Hp & Hs).
  destruct (trimEnd_split (trimStart s)) as (q & Hq & Ht).
  exists p, q. split; [done|]. split; [done|]. unfold trim. congruence.
Qed.

(** What [trim] leaves is empty, or starts and ends with no white space. *)
Lemma trim_nil_or_trimmed s : trim s = [] \/ trimmed (trim s).
Proof.
  unfold trim. destruct (trimStart s) as [|c r] eqn:Et; [by left|]. right.
  pose proof (trimStart_head _ _ _ Et) as Hc.
  destruct (trimStart_split (rev (c :: r))) as (p & Hp & Hs).
  unfold trimEnd. destruct (trimStart (rev (c :: r))) as [|d m] eqn:Eu.
  - exfalso. rewrite app_nil_r in Hs. simpl in Hs.
    assert (In c p) as Hin by (rewrite <- Hs; apply in_or_app; right; by left).
    unfold blank in Hp. rewrite Forall_forall in Hp.
    apply list_elem_of_In, Hp in Hin. congruence.
  - pose proof (trimStart_head _ _ _ Eu) as Hd.
    apply (f_equal (@rev N)) in Hs. rewrite rev_involutive, rev_app_distr in Hs.
    simpl in Hs. simpl. rewrite <- app_assoc in Hs. simpl in Hs.
    destruct (rev m) as [|x y] eqn:Em; simpl in *.
    + injection Hs as -> _. done.
    + injection Hs as -> _. split; [done|].
      change (is_whitespace (List.last ((x :: y) ++ [d]) 0%N) = false).
      by rewrite last_last.
Qed.

Lemma trimmed_not_nil s : trimmed s -> s <> [].
Proof. by destruct s. Qed.

Lemma trimmed_ends a m b : trimmed a -> trimmed b -> trimmed (a ++ m ++ b).
Proof.
  destruct a as [|x a]; [done|]. destruct b as [|y b]; [done|].
  intros [Hx _] [_ Hy]. split; [done|].
  rewrite app_assoc. by rewrite last_app_cons.
Qed.

Lemma trim_padded p s q : blank p -> blank q -> trimmed s -> trim (p ++ s ++ q) = s.
Proof.
  intros Hp Hq Hs. pose proof (trim_trimmed s Hs) as Ht. unfold trim in *.
  rewrite trimStart_blank by done. destruct s as [|c r]; [done|].
  destruct Hs as [Hc _]. rewrite trimStart_id in Ht by done.
  change ((c :: r) ++ q) with (c :: (r ++ q)). rewrite trimStart_id by done.
  change (c :: (r ++ q)) with ((c :: r) ++ q). by rewrite trimEnd_blank.
Qed.

Lemma blank_no_comma p : blank p -> comma ∉ p.
Proof.
  intros Hp Hin. unfold blank in Hp. rewrite Forall_forall in Hp.
  by apply Hp in Hin.
Qed.

Lemma split_head_no_sep sep s a l : split sep s = a :: l -> sep ∉ a.
Proof.
  revert a l. induction s as [|c r IH]; intros a l; simpl.
  - intros [= <- _]. apply not_elem_of_nil.
  - destruct (N.eqb_spec c sep) as [->|Hc].
    + intros [= <- _]. apply not_elem_of_nil.
    + destruct (split sep r) as [|h t] eqn:E.
      * intros [= <- _]. apply not_elem_of_cons.
        split; [congruence | apply not_elem_of_nil].
      * intros [= <- _]. apply not_elem_of_cons.
        split; [congruence | by eapply IH].
Qed.

Lemma split_two sep s a b l :
  split sep s = a :: b :: l -> s = a ++ sep :: join [sep] (b :: l).
Proof. intros H. rewrite <- (join_split sep s) at 1. by rewrite H. Qed.

(** A line whose fields carry white space around them reads as the
    fields. *)
Lemma csv_fields_padded p1 p2 p3 p4 wolof french :
  blank p1 -> blank p2 -> blank p3 -> blank p4 ->
  trimmed wolof -> trimmed french -> comma ∉ wolof ->
  csv_fields (p1 ++ wolof ++ p2 ++ comma :: p3 ++ french ++ p4)
  = Some (wolof, french).
Proof.
  intros H1 H2 H3 H4 Hw Hf Hc. unfold csv_fields.
  replace (p1 ++ wolof ++ p2 ++ comma :: p3 ++ french ++ p4)
    with (p1 ++ (wolof ++ (p2 ++ comma :: p3) ++ french) ++ p4)
    by (by rewrite <- !app_assoc).
  rewrite (trim_padded p1 _ p4 H1 H4 (trimmed_ends _ _ _ Hw Hf)).
  rewrite bool_decide_eq_false_2 by (by destruct wolof).
  replace (wolof ++ (p2 ++ comma :: p3) ++ french)
    with ((wolof ++ p2) ++ comma :: (p3 ++ french))
    by (by rewrite <- !app_assoc).
  rewrite split_app_sep
    by (rewrite elem_of_app; intros [?|?]; [done | by apply (blank_no_comma p2)]).
  assert ((2 <=? length ((wolof ++ p2) :: split comma (p3 ++ french)))%nat
          = true) as ->.
  { pose proof (split_not_nil comma (p3 ++ french)).
    destruct (split comma (p3 ++ french)); done. }
  change (skipn 1 ((wolof ++ p2) :: split comma (p3 ++ french)))
    with (split comma (p3 ++ french)).
  change (nth 0 ((wolof ++ p2) :: split comma (p3 ++ french)) [])
    with (wolof ++ p2).
  rewrite join_split.
  assert (blank []) as H0 by constructor.
  pose proof (trim_padded [] wolof p2 H0 H2 Hw) as Ew.
  pose proof (trim_padded p3 french [] H3 H0 Hf) as Ef.
  rewrite app_nil_r in Ef. simpl in Ew. rewrite Ew, Ef.
  rewrite !bool_decide_eq_false_2;
    [done | by apply trimmed_not_nil | by apply trimmed_not_nil].
Qed.

(** A line that reads as two fields is these fields with white space
    around them and a comma between. *)
Lemma csv_fields_inv raw wolof french :
  csv_fields raw = Some (wolof, french) ->
  exists p1 p2 p3 p4,
    blank p1 /\ blank p2 /\ blank p3 /\ blank p4 /\
    trimmed wolof /\ trimmed french /\ (comma ∉ wolof) /\
    raw = p1 ++ wolof ++ p2 ++ comma :: p3 ++ french ++ p4.
Proof.
  rewrite csv_fields_row_of_line. unfold row_of_line.
  destruct (split comma (trim raw)) as [|first [|second rest]] eqn:Es;
    [done | done |].
  destruct (decide _) as [[Hw Hf]|]; [|done]. intros [= <- <-].
  destruct (trim_split raw) as (P & Q & HP & HQ & Hraw).
  destruct (trim_split first) as (a & b & Ha & Hb & Hfirst).
  destruct (trim_split (join [comma] (second :: rest)))
    as (c & d & Hc & Hd & Hjoin).
  pose proof (split_head_no_sep _ _ _ _ Es) as Hno.
  pose proof (split_two _ _ _ _ _ Es) as Hline.
  exists (P ++ a), b, c, (d ++ Q).
  split; [by apply Forall_app|]. split; [done|]. split; [done|].
  split; [by apply Forall_app|].
  split; [by destruct (trim_nil_or_trimmed first)|].
  split; [by destruct (trim_nil_or_trimmed (join [comma] (second :: rest)))|].
  split.
  - intros Hin. apply Hno. rewrite Hfirst, !elem_of_app. right. by left.
  - rewrite Hraw at 1. rewrite Hline. rewrite Hfirst at 1. rewrite Hjoin at 1.
    rewrite <- !app_assoc. simpl. by rewrite <- !app_assoc.
Qed.

End Fields.

(** X1.  A line of the text gives a row exactly when it is made of a Wolof
    text and a French text, each starting and ending with no white space and
    the Wolof text without a comma, with a comma between them and any white
    space around each; the row is then these two texts. *)
Theorem csv_fields_accepts raw wolof french :
  csv_fields raw = Some (wolof, french) <->
  exists p1 p2 p3 p4,
    blank p1 /\ blank p2 /\ blank p3 /\ blank p4 /\
    trimmed wolof /\ trimmed french /\ (comma ∉ wolof) /\
    raw = p1 ++ wolof ++ p2 ++ comma :: p3 ++ french ++ p4.
Proof.
  split; [apply csv_fields_inv|].
  intros (p1 & p2 & p3 & p4 & H1 & H2 & H3 & H4 & Hw & Hf & Hc & ->).
  by apply csv_fields_padded.
Qed.

(** ** A line of the export, read by the import *)

Section ExportedLine.

Lemma dquote_quoted_trimmed s : trimmed ([dquote] ++ s ++ [dquote]).
Proof.
  split; [done|]. change ([dquote] ++ s ++ [dquote]) with ((dquote :: s) ++ [dquote]).
  by rewrite last_last.
Qed.

Lemma trimmed_after a b : a <> [] -> is_whitespace (hd 0%N a) = false ->
  trimmed b -> trimmed (a ++ b).
Proof.
  destruct a as [|x a]; [done|]. destruct b as [|y b]; [done|].
  intros _ Hx [_ Hy]. split; [done|]. by rewrite last_app_cons.
Qed.

End ExportedLine.

(** X2.  The import does not read back what the export writes.  A row of
    the export, given to the reading of a line, yields as Wolof text the
    Wolof text between its double quotes, and as French text the quoted
    French text followed by the four other columns. *)
Theorem import_reads_exported_line t wolof french lastUpdated :
  t !! "wolof" = Some (VStr wolof) ->
  t !! "french" = Some (VStr french) ->
  t !! "lastUpdated" = Some (VStr lastUpdated) ->
  comma ∉ wolof -> trimmed lastUpdated ->
  csv_fields (csv_line t)
  = Some ([dquote] ++ wolof ++ [dquote],
          join [comma]
            [ [dquote] ++ french ++ [dquote];
              join_element (t !! "status");
              join_element (or_empty (t !! "validatedBy"));
              join_element (or_empty (t !! "correctedBy"));
              lastUpdated ]).
Proof.
  intros Hw Hf Hl Hc Hlu. unfold csv_line. rewrite Hw, Hf, Hl.
  cbn [to_string join_element].
  set (status := join_element (t !! "status")).
  set (validatedBy := join_element (or_empty (t !! "validatedBy"))).
  set (correctedBy := join_element (or_empty (t !! "correctedBy"))).
  set (quoted := [dquote] ++ wolof ++ [dquote]).
  set (others := join [comma] [ [dquote] ++ french ++ [dquote]; status;
                                validatedBy; correctedBy; lastUpdated ]).
  change (join [comma] [quoted; [dquote] ++ french ++ [dquote]; status;
                        validatedBy; correctedBy; lastUpdated])
    with (quoted ++ comma :: others).
  apply csv_fields_clean.
  - apply dquote_quoted_trimmed.
  - unfold others. cbn [join].
    replace (([dquote] ++ french ++ [dquote]) ++ [comma] ++ status ++ [comma]
             ++ validatedBy ++ [comma] ++ correctedBy ++ [comma] ++ lastUpdated)
      with (([dquote] ++ french ++ [dquote] ++ [comma] ++ status ++ [comma]
             ++ validatedBy ++ [comma] ++ correctedBy ++ [comma]) ++ lastUpdated)
      by (by rewrite <- !app_assoc).
    by apply trimmed_after.
  - unfold quoted. rewrite !elem_of_app, !list_elem_of_singleton.
    intros [?|[?|?]]; done.
Qed.

Lemma import_reads_exported_line_witness :
  (comma ∉ js "salam") /\ trimmed sample_stamp /\
  csv_fields (csv_line sample_record_1)
  = Some ([dquote] ++ js "salam" ++ [dquote],
          join [comma]
            [ [dquote] ++ js "bonjour" ++ [dquote];
              join_element (sample_record_1 !! "status");
              join_element (or_empty (sample_record_1 !! "validatedBy"));
              join_element (or_empty (sample_record_1 !! "correctedBy"));
              sample_stamp ]).
Proof.
  assert (comma ∉ js "salam") as Hc
    by (apply (bool_decide_unpack _); vm_compute; exact I).
  assert (trimmed sample_stamp) as Hs by (vm_compute; split; reflexivity).
  split; [exact Hc|]. split; [exact Hs|].
  refine (import_reads_exported_line sample_record_1 (js "salam")
            (js "bonjour") sample_stamp _ _ _ Hc Hs); reflexivity.
Defined.

(** ** The first line of the text *)

Section FirstLine.

Lemma split_tail_prefix sep a s :
  sep ∉ a -> tail (split sep (a ++ s)) = tail (split sep s).
Proof.
  induction a as [|c a IH]; intros Ha; [done|].
  apply not_elem_of_cons in Ha as [Hc Ha]. simpl.
  destruct (N.eqb_spec c sep) as [->|_]; [done|].
  rewrite <- (IH Ha). by destruct (split sep (a ++ s)).
Qed.

Lemma data_lines_prefix a b s :
  newline ∉ a -> newline ∉ b ->
  data_lines (split newline (a ++ s)) = data_lines (split newline (b ++ s)).
Proof.
  intros Ha Hb. unfold data_lines. by rewrite !split_tail_prefix.
Qed.

(** The three imports read the text through its data lines alone. *)
Lemma browser_import_data_lines csv1 csv2 clk ls :
  data_lines (split newline csv1) = data_lines (split newline csv2) ->
  BrowserDb.importTranslationsFromCSV csv1 clk ls
  = BrowserDb.importTranslationsFromCSV csv2 clk ls.
Proof. intros H. by rewrite !browser_import_translations, H. Qed.

Lemma indexed_import_data_lines csv1 csv2 clk db :
  data_lines (split newline csv1) = data_lines (split newline csv2) ->
  IndexedDb.importTranslationsFromCSV csv1 clk db
  = IndexedDb.importTranslationsFromCSV csv2 clk db.
Proof.
  intros H. unfold IndexedDb.importTranslationsFromCSV.
  by rewrite !for_each_data_line_fold, H.
Qed.

Lemma sqlite_import_data_lines csv1 csv2 clk db :
  data_lines (split newline csv1) = data_lines (split newline csv2) ->
  SqliteDb.importTranslationsFromCSV csv1 clk db
  = SqliteDb.importTranslationsFromCSV csv2 clk db.
Proof.
  intros H. unfold SqliteDb.importTranslationsFromCSV.
  by rewrite !for_each_data_line_fold, H.
Qed.

Lemma fix_header_data_lines csv :
  data_lines (split newline (fix_header csv)) = data_lines (split newline csv).
Proof.
  unfold fix_header, startsWith.
  destruct (decide (take (length (js "French,Wolof")) csv = js "French,Wolof"))
    as [E|E].
  - rewrite bool_decide_eq_true_2 by done.
    rewrite <- (take_drop (length (js "French,Wolof")) csv) at 2. rewrite E.
    apply data_lines_prefix; apply (bool_decide_unpack _); vm_compute; exact I.
  - by rewrite bool_decide_eq_false_2.
Qed.

End FirstLine.

(** X3.  The import never reads the first line of the text: two texts that
    differ in their first line only are imported alike, in each store. *)
Theorem import_ignores_first_line header1 header2 body clk ls db sql :
  newline ∉ header1 -> newline ∉ header2 ->
  BrowserDb.importTranslationsFromCSV (header1 ++ newline :: body) clk ls
  = BrowserDb.importTranslationsFromCSV (header2 ++ newline :: body) clk ls /\
  IndexedDb.importTranslationsFromCSV (header1 ++ newline :: body) clk db
  = IndexedDb.importTranslationsFromCSV (header2 ++ newline :: body) clk db /\
  SqliteDb.importTranslationsFromCSV (header1 ++ newline :: body) clk sql
  = SqliteDb.importTranslationsFromCSV (header2 ++ newline :: body) clk sql.
Proof.
  intros H1 H2.
  pose proof (data_lines_prefix header1 header2 (newline :: body) H1 H2) as H.
  split; [by apply browser_import_data_lines|].
  split; [by apply indexed_import_data_lines | by apply sqlite_import_data_lines].
Qed.

Lemma import_ignores_first_line_witness :
  (newline ∉ js "Wolof,French") /\ (newline ∉ js "salam,bonjour") /\
  BrowserDb.importTranslationsFromCSV
    (js "Wolof,French" ++ newline :: js "nanga def,comment vas-tu")
    sample_clock empty_storage
  = BrowserDb.importTranslationsFromCSV
      (js "salam,bonjour" ++ newline :: js "nanga def,comment vas-tu")
      sample_clock empty_storage.
Proof.
  assert (newline ∉ js "Wolof,French") as H1
    by (apply (bool_decide_unpack _); vm_compute; exact I).
  assert (newline ∉ js "salam,bonjour") as H2
    by (apply (bool_decide_unpack _); vm_compute; exact I).
  split; [exact H1|]. split; [exact H2|].
  exact (proj1 (import_ignores_first_line (js "Wolof,French") (js "salam,bonjour")
                  (js "nanga def,comment vas-tu") sample_clock empty_storage
                  empty_database None H1 H2)).
Defined.

(** X4.  The data initializer rewrites the header [French,Wolof] of an
    older file to [Wolof,French] before the import; the import is the same
    with and without it, in each store: the columns of such a file are not
    exchanged, its first column is still read as the Wolof text. *)
Theorem fix_header_changes_nothing csv clk ls db sql :
  api_importTranslationsFromCSV browser_api (fix_header csv) clk ls
  = api_importTranslationsFromCSV browser_api csv clk ls /\
  api_importTranslationsFromCSV indexed_api (fix_header csv) clk db
  = api_importTranslationsFromCSV indexed_api csv clk db /\
  api_importTranslationsFromCSV sqlite_api (fix_header csv) clk sql
  = api_importTranslationsFromCSV sqlite_api csv clk sql.
Proof.
  pose proof (fix_header_data_lines csv) as H. cbn.
  split; [by apply browser_import_data_lines|].
  split; [by apply indexed_import_data_lines | by apply sqlite_import_data_lines].
Qed.

(** ** The data initializer *)

Section Initializer.

Lemma indexed_place_not_nil k v rs : IndexedDb.place k v rs <> [].
Proof.
  destruct rs as [|r rs]; simpl; [done|].
  destruct (IndexedDb.key_of r); [|done].
  destruct (decide _); [done|]. by destruct (IndexedDb.key_ltb _ _).
Qed.

(** A text without a well-formed row leaves the IndexedDB store as it is. *)
Lemma indexed_import_loop_nothing clk rows os :
  accepted_rows (fun _ _ => false) rows = [] ->
  fold_left (fun s '(i, raw) => IndexedDb.import_line clk s i raw) rows (inr os)
  = inr os.
Proof.
  induction rows as [|[i raw] rows IH]; [done|].
  rewrite accepted_rows_cons. cbn [fold_left].
  rewrite indexed_import_line_step.
  by destruct (row_of_line raw) as [[wolof french]|].
Qed.

(** The requests of the IndexedDB import never fail, the records carrying
    no key of their own; a well-formed row leaves the store with a record. *)
Lemma indexed_import_loop_cases clk rows os :
  exists os',
    fold_left (fun s '(i, raw) => IndexedDb.import_line clk s i raw) rows (inr os)
    = inr os' /\
    (accepted_rows (fun _ _ => false) rows = [] \/ IndexedDb.records os' <> []).
Proof.
  revert os. induction rows as [|[i raw] rows IH]; intros os.
  - exists os. split; [done | by left].
  - cbn [fold_left]. rewrite indexed_import_line_step, accepted_rows_cons.
    destruct (row_of_line raw) as [[wolof french]|]; [|apply IH].
    unfold IndexedDb.store_write.
    assert (IndexedDb.new_translation french wolof (date_iso clk i) !! "id"
            = None) as -> by done.
    match goal with |- context [fold_left _ rows (inr ?o)] => set (os1 := o) end.
    destruct (IH os1) as (os' & Hfold & Hcases). exists os'.
    split; [done|]. right. destruct Hcases as [Hnone|Hsome]; [|done].
    rewrite (indexed_import_loop_nothing _ _ _ Hnone) in Hfold.
    injection Hfold as <-. apply indexed_place_not_nil.
Qed.

Lemma browser_import_initialised csv clk ls :
  BrowserDb.initDB (BrowserDb.importTranslationsFromCSV csv clk ls).1
  = (BrowserDb.importTranslationsFromCSV csv clk ls).1.
Proof.
  rewrite browser_import_translations. cbn [fst].
  by destruct ls as [? [?|]].
Qed.

Lemma browser_initializeData fetched clk ls :
  initializeData browser_api fetched clk ls
  = if bool_decide (BrowserDb.translations ls = []) then
      match fetched with
      | Resolved csvData =>
          (BrowserDb.importTranslationsFromCSV (fix_header csvData) clk
             (BrowserDb.initDB ls)).1
      | _ => BrowserDb.initDB ls
      end
    else BrowserDb.initDB ls.
Proof.
  unfold initializeData. cbn [api_isDatabaseEmpty browser_api].
  unfold BrowserDb.isDatabaseEmpty. rewrite browser_translations_initDB.
  cbn [api_importTranslationsFromCSV].
  destruct (BrowserDb.translations ls) as [|t l];
    [by destruct fetched | done].
Qed.

Lemma indexed_initializeData fetched clk db :
  initializeData indexed_api fetched clk db
  = if bool_decide (IndexedDb.records (IndexedDb.translations db) = []) then
      match fetched with
      | Resolved csvData =>
          (IndexedDb.importTranslationsFromCSV (fix_header csvData) clk db).1
      | _ => db
      end
    else db.
Proof.
  unfold initializeData. cbn [api_isDatabaseEmpty indexed_api].
  unfold IndexedDb.isDatabaseEmpty. cbn [api_importTranslationsFromCSV].
  destruct (IndexedDb.records (IndexedDb.translations db)) as [|t l];
    [by destruct fetched | done].
Qed.

Lemma sqlite_initializeData fetched clk sql :
  initializeData sqlite_api fetched clk sql
  = if bool_decide (SqliteDb.rows (SqliteDb.translations (SqliteDb.getDB sql))
                    = []) then
      match fetched with
      | Resolved csvData =>
          (SqliteDb.importTranslationsFromCSV (fix_header csvData) clk
             (Some (SqliteDb.getDB sql))).1
      | _ => Some (SqliteDb.getDB sql)
      end
    else Some (SqliteDb.getDB sql).
Proof.
  unfold initializeData. cbn [api_isDatabaseEmpty sqlite_api].
  unfold SqliteDb.isDatabaseEmpty. cbn [api_importTranslationsFromCSV].
  destruct (SqliteDb.rows (SqliteDb.translations (SqliteDb.getDB sql)))
    as [|t l]; [by destruct fetched | done].
Qed.

Lemma browser_initializeData_again fetched clk1 clk2 ls :
  initializeData browser_api fetched clk2
    (initializeData browser_api fetched clk1 ls)
  = initializeData browser_api fetched clk1 ls.
Proof.
  rewrite (browser_initializeData fetched clk1 ls).
  assert (forall l : BrowserDb.storage,
            BrowserDb.translations l <> [] ->
            initializeData browser_api fetched clk2 (BrowserDb.initDB l)
            = BrowserDb.initDB l) as Hfull.
  { intros l Hl. rewrite browser_initializeData, browser_translations_initDB.
    by rewrite bool_decide_eq_false_2, browser_initDB_idem. }
  assert (forall l : BrowserDb.storage,
            (forall csv, fetched <> Resolved csv) ->
            initializeData browser_api fetched clk2 (BrowserDb.initDB l)
            = BrowserDb.initDB l) as Hfailed.
  { intros l Hf. rewrite browser_initializeData, browser_initDB_idem.
    destruct fetched as [csv| |]; [by destruct (Hf csv)| |];
      by destruct (bool_decide _). }
  destruct (decide (BrowserDb.translations ls = [])) as [E|E].
  - rewrite (bool_decide_eq_true_2 _ E).
    destruct fetched as [csv| |]; [|by apply Hfailed..].
    set (ls1 := (BrowserDb.importTranslationsFromCSV (fix_header csv) clk1
                   (BrowserDb.initDB ls)).1).
    rewrite browser_initializeData.
    assert (BrowserDb.initDB ls1 = ls1) as -> by apply browser_import_initialised.
    destruct (bool_decide _); [|done].
    unfold ls1. by rewrite browser_import_twice.
  - rewrite (bool_decide_eq_false_2 _ E). by apply Hfull.
Qed.

Lemma indexed_initializeData_again fetched clk1 clk2 db :
  initializeData indexed_api fetched clk2
    (initializeData indexed_api fetched clk1 db)
  = initializeData indexed_api fetched clk1 db.
Proof.
  rewrite (indexed_initializeData fetched clk1 db).
  destruct (decide (IndexedDb.records (IndexedDb.translations db) = []))
    as [E|E].
  - rewrite (bool_decide_eq_true_2 _ E).
    destruct fetched as [csv| |];
      [|by rewrite indexed_initializeData, (bool_decide_eq_true_2 _ E)..].
    assert (forall clk,
              accepted_rows (fun _ _ => false)
                (data_lines (split newline (fix_header csv))) = [] ->
              IndexedDb.importTranslationsFromCSV (fix_header csv) clk db
              = (db, Resolved true)) as Hnothing.
    { intros clk Hnone. unfold IndexedDb.importTranslationsFromCSV.
      rewrite for_each_data_line_fold.
      rewrite (indexed_import_loop_nothing _ _ _ Hnone). by destruct db. }
    destruct (indexed_import_loop_cases clk1
                (data_lines (split newline (fix_header csv)))
                (IndexedDb.translations db)) as (os' & Hfold & [Hnone|Hsome]).
    + rewrite (Hnothing clk1 Hnone). cbn [fst].
      rewrite indexed_initializeData, (bool_decide_eq_true_2 _ E).
      by rewrite (Hnothing clk2 Hnone).
    + assert (IndexedDb.importTranslationsFromCSV (fix_header csv) clk1 db
              = ({| IndexedDb.translations := os';
                    IndexedDb.users := IndexedDb.users db |}, Resolved true))
        as ->.
      { unfold IndexedDb.importTranslationsFromCSV.
        by rewrite for_each_data_line_fold, Hfold. }
      cbn [fst]. rewrite indexed_initializeData. cbn [IndexedDb.translations].
      by rewrite bool_decide_eq_false_2.
  - rewrite (bool_decide_eq_false_2 _ E).
    by rewrite indexed_initializeData, (bool_decide_eq_false_2 _ E).
Qed.

Lemma sqlite_initializeData_again fetched clk1 clk2 sql :
  initializeData sqlite_api fetched clk2
    (initializeData sqlite_api fetched clk1 sql)
  = initializeData sqlite_api fetched clk1 sql.
Proof.
  rewrite (sqlite_initializeData fetched clk1 sql).
  set (db := SqliteDb.getDB sql).
  destruct (decide (SqliteDb.rows (SqliteDb.translations db) = [])) as [E|E].
  - rewrite (bool_decide_eq_true_2 _ E).
    destruct fetched as [csv|e|].
    + set (once := (SqliteDb.importTranslationsFromCSV (fix_header csv) clk1
                      (Some db)).1).
      pose proof (sqlite_import_twice (fix_header csv) clk1 clk2 (Some db))
        as Htwice. cbv zeta in Htwice. fold once in Htwice.
      assert (exists database, once = Some database) as [database Hd]
        by (by eexists).
      rewrite Hd in Htwice |- *. rewrite sqlite_initializeData.
      cbn [SqliteDb.getDB SqliteDb.initDB].
      destruct (bool_decide _); [|done]. by rewrite Htwice.
    + rewrite sqlite_initializeData. cbn [SqliteDb.getDB SqliteDb.initDB].
      by rewrite (bool_decide_eq_true_2 _ E).
    + rewrite sqlite_initializeData. cbn [SqliteDb.getDB SqliteDb.initDB].
      by rewrite (bool_decide_eq_true_2 _ E).
  - rewrite (bool_decide_eq_false_2 _ E).
    rewrite sqlite_initializeData. cbn [SqliteDb.getDB SqliteDb.initDB].
    by rewrite (bool_decide_eq_false_2 _ E).
Qed.

End Initializer.

(** X5.  Running the data initializer again changes nothing, in each store
    and whatever the fetch gives: it imports into an empty store only, and
    the store it leaves is either not empty, or is left as it is by another
    import of the same text.  This holds for the IndexedDB store too, whose
    import alone would insert the rows once more. *)
Theorem initializeData_idempotent fetched clk1 clk2 ls db sql :
  initializeData browser_api fetched clk2
    (initializeData browser_api fetched clk1 ls)
  = initializeData browser_api fetched clk1 ls /\
  initializeData indexed_api fetched clk2
    (initializeData indexed_api fetched clk1 db)
  = initializeData indexed_api fetched clk1 db /\
  initializeData sqlite_api fetched clk2
    (initializeData sqlite_api fetched clk1 sql)
  = initializeData sqlite_api fetched clk1 sql.
Proof.
  split; [apply browser_initializeData_again|].
  split; [apply indexed_initializeData_again | apply sqlite_initializeData_again].
Qed.

(** ** The login screen *)

Section Login.

Lemma missing_defaults_none users :
  missing_defaults users = [] ->
  Forall (fun name => user_named name users) default_names.
Proof.
  intros Hnone. apply Forall_forall. intros name Hin.
  destruct (decide (user_named name users)) as [|Hn]; [done|].
  assert (name ∈ missing_defaults users) as Hm
    by (by apply list_elem_of_filter).
  rewrite Hnone in Hm. by apply elem_of_nil in Hm.
Qed.

Lemma browser_loadUsers clk offered ls :
  loadUsers browser_api clk offered ls
  = let after := (BrowserDb.initializeUsers clk ls).1 in
    (after, BrowserDb.users after).
Proof.
  unfold loadUsers. cbn [api_initializeUsers api_getUsers browser_api].
  destruct (browser_initializeUsers_seeded clk ls) as (added & -> & _).
  cbv zeta. cbn [fst]. unfold BrowserDb.getUsers.
  destruct (bool_decide (added = [])).
  - by rewrite browser_initDB_idem.
  - by destruct ls as [[?|] [?|]].
Qed.

Lemma indexed_loadUsers clk offered db :
  indexed_numeric (IndexedDb.users db) ->
  loadUsers indexed_api clk offered db
  = let after := (IndexedDb.initializeUsers db).1 in
    (after, IndexedDb.records (IndexedDb.users after)).
Proof.
  intros Hdb. unfold loadUsers. cbn [api_initializeUsers api_getUsers indexed_api].
  by destruct (indexed_initializeUsers_seeded db Hdb) as (added & g & -> & _).
Qed.

Lemma sqlite_loadUsers clk offered sql :
  loadUsers sqlite_api clk offered sql
  = let after := (SqliteDb.initializeUsers sql).1 in
    (after, SqliteDb.rows (SqliteDb.users (SqliteDb.getDB after))).
Proof. done. Qed.

End Login.

(** X6.  The list of names the login screen offers is the list of the
    stored users followed by one new user for each default name that was
    missing, so it holds every default name; it is never the list the screen
    held before.  (The IndexedDB store is taken with generated keys.) *)
Theorem loadUsers_offers_defaults clk offered ls db sql :
  indexed_numeric (IndexedDb.users db) ->
  (let userList := (loadUsers browser_api clk offered ls).2 in
   seeded (BrowserDb.users ls) userList /\
   Forall (fun name => user_named name userList) default_names) /\
  (let userList := (loadUsers indexed_api clk offered db).2 in
   seeded (IndexedDb.records (IndexedDb.users db)) userList /\
   Forall (fun name => user_named name userList) default_names) /\
  (let userList := (loadUsers sqlite_api clk offered sql).2 in
   seeded (SqliteDb.rows (SqliteDb.users (SqliteDb.getDB sql))) userList /\
   Forall (fun name => user_named name userList) default_names).
Proof.
  intros Hdb. cbv zeta.
  rewrite browser_loadUsers, (indexed_loadUsers _ _ _ Hdb), sqlite_loadUsers.
  cbv zeta. cbn [snd].
  pose proof (browser_initializeUsers_users clk ls) as H1.
  pose proof (proj1 (indexed_initializeUsers_idempotent db Hdb)) as H2.
  pose proof (sqlite_initializeUsers_users sql) as H3.
  split; [|split]; (split; [done|]);
    by eapply missing_defaults_none, seeded_complete.
Qed.

Lemma loadUsers_offers_defaults_witness :
  indexed_numeric (IndexedDb.users empty_database) /\
  Forall (fun name => user_named name
                        (loadUsers indexed_api sample_clock [] empty_database).2)
         default_names.
Proof.
  assert (indexed_numeric (IndexedDb.users empty_database)) as H by constructor.
  split; [exact H|].
  exact (proj2 (proj1 (proj2 (loadUsers_offers_defaults sample_clock []
                                empty_storage empty_database None H)))).
Defined.

(** ** Importing a text again, and a row that comes twice *)

Section RepeatedRow.

Lemma split_three_lines header line1 line2 :
  newline ∉ header -> newline ∉ line1 -> newline ∉ line2 ->
  split newline (header ++ newline :: line1 ++ newline :: line2)
  = [header; line1; line2].
Proof. intros Hh H1 H2. by rewrite !split_app_sep, split_no_sep. Qed.

Lemma line_no_newline wolof french :
  newline ∉ wolof -> newline ∉ french -> newline ∉ wolof ++ comma :: french.
Proof.
  intros Hw Hf. rewrite elem_of_app, elem_of_cons. intros [?|[?|?]]; done.
Qed.

Lemma browser_translationExists_has_pair ls french wolof :
  BrowserDb.translationExists ls french wolof
  = bool_decide (has_pair french wolof (BrowserDb.translations ls)).
Proof. apply existsb_has_pair. Qed.

End RepeatedRow.


(** X8.  The duplicate check of the localStorage import reads the stored
    array, not the array the loop is filling: a row that comes twice in one
    text, and is not stored yet, is inserted twice.  The SQLite import
    inserts it once. *)
Theorem import_repeated_row header wolof french clk ls sql :
  trimmed wolof -> trimmed french -> comma ∉ wolof ->
  newline ∉ header -> newline ∉ wolof -> newline ∉ french ->
  ~ has_pair french wolof (BrowserDb.translations ls) ->
  ~ has_pair french wolof
      (SqliteDb.rows (SqliteDb.translations (SqliteDb.getDB sql))) ->
  let line := wolof ++ comma :: french in
  let csv := header ++ newline :: line ++ newline :: line in
  BrowserDb.translations (BrowserDb.importTranslationsFromCSV csv clk ls).1
  = BrowserDb.translations ls ++
      [BrowserDb.new_translation (date_now clk 1 + 0) french wolof
                                 (date_iso clk 1);
       BrowserDb.new_translation (date_now clk 2 + 1) french wolof
                                 (date_iso clk 2)] /\
  exists row,
    SqliteDb.rows (SqliteDb.translations
      (SqliteDb.getDB (SqliteDb.importTranslationsFromCSV csv clk sql).1))
    = SqliteDb.rows (SqliteDb.translations (SqliteDb.getDB sql)) ++ [row] /\
    row !! "french" = Some (VStr french) /\
    row !! "wolof" = Some (VStr wolof) /\
    row !! "lastUpdated" = Some (VStr (date_iso clk 1)).
Proof.
  intros Hw Hf Hc Hh Hnw Hnf Hls Hsql. cbv zeta.
  pose proof (line_no_newline _ _ Hnw Hnf) as Hline.
  pose proof (split_three_lines header _ _ Hh Hline Hline) as Hsplit.
  assert (data_lines [header; wolof ++ comma :: french;
                      wolof ++ comma :: french]
          = [(1%nat, wolof ++ comma :: french);
             (2%nat, wolof ++ comma :: french)]) as Hdata by done.
  pose proof (csv_fields_clean _ _ Hw Hf Hc) as Hfields.
  split.
  - rewrite browser_import_translations. cbn [fst].
    rewrite browser_translations_set, Hsplit, Hdata.
    rewrite !accepted_rows_cons, <- csv_fields_row_of_line, Hfields.
    rewrite browser_translationExists_has_pair.
    by rewrite bool_decide_eq_false_2.
  - unfold SqliteDb.importTranslationsFromCSV. cbn [fst].
    rewrite for_each_data_line_fold, Hsplit, Hdata.
    cbn [fold_left SqliteDb.getDB SqliteDb.initDB SqliteDb.translations].
    set (t := SqliteDb.translations (SqliteDb.getDB sql)) in *.
    unfold SqliteDb.import_line. rewrite Hfields.
    set (t1 := SqliteDb.insert_translation wolof french wolof (date_iso clk 1) t).
    assert (SqliteDb.insert_translation wolof french wolof (date_iso clk 2) t1
            = t1) as ->.
    { unfold SqliteDb.insert_translation at 1.
      rewrite existsb_has_pair, bool_decide_eq_true_2; [done|].
      apply sqlite_insert_has_pair. by right. }
    unfold t1, SqliteDb.insert_translation.
    rewrite existsb_has_pair, bool_decide_eq_false_2 by done.
    cbn [SqliteDb.rows]. eexists. split; [done|]. by simplify_map_eq.
Qed.

Lemma import_repeated_row_witness :
  let csv := js "Wolof,French" ++ newline :: js "salam,bonjour"
                ++ newline :: js "salam,bonjour" in
  length (BrowserDb.translations
            (BrowserDb.importTranslationsFromCSV csv sample_clock
                                                 empty_storage).1) = 2%nat.
Proof.
  cbv zeta.
  refine (eq_trans (f_equal (@length obj)
            (proj1 (import_repeated_row (js "Wolof,French") (js "salam")
                      (js "bonjour") sample_clock empty_storage None
                      _ _ _ _ _ _ _ _))) _);
    try (vm_compute; split; reflexivity);
    try (apply (bool_decide_unpack _); vm_compute; exact I).
Defined.

(** ** The ids the localStorage import gives *)

Section BrowserIds.

Lemma imap_indices {A} (l : list A) k :
  (imap (fun i x => ((k + i)%nat, x)) l).*1 = seq k (length l).
Proof.
  revert k. induction l as [|x l IH]; intros k; [done|].
  rewrite imap_cons. cbn [fmap list_fmap fst length seq]. f_equal; [lia|].
  rewrite <- (IH (S k)). f_equal. apply imap_ext. intros i y _. simpl.
  f_equal. lia.
Qed.

Lemma seq_sorted k n : StronglySorted lt (seq k n).
Proof.
  revert k. induction n as [|n IH]; intros k; [constructor|].
  cbn [seq]. constructor; [apply IH|].
  apply Forall_forall. intros i Hi. apply list_elem_of_In, in_seq in Hi. lia.
Qed.

Lemma data_lines_sorted lines : StronglySorted lt (data_lines lines).*1.
Proof.
  unfold data_lines.
  rewrite (imap_ext _ (fun i raw => ((1 + i)%nat, raw))) by done.
  rewrite imap_indices. apply seq_sorted.
Qed.

Lemma accepted_rows_index e rows i wolof french :
  (i, wolof, french) ∈ accepted_rows e rows -> i ∈ rows.*1.
Proof.
  induction rows as [|[j raw] rows IH]; [by intros ?%elem_of_nil|].
  rewrite accepted_rows_cons. cbn [fmap list_fmap fst].
  destruct (row_of_line raw) as [[w f]|];
    [destruct (e f w)|]; rewrite ?elem_of_cons; intros H;
    try (right; by apply IH).
  destruct H as [[= -> _ _]|H]; [by left | right; by apply IH].
Qed.

Lemma accepted_rows_sorted e rows :
  StronglySorted lt rows.*1 ->
  StronglySorted (fun r1 r2 => (r1.1.1 < r2.1.1)%nat) (accepted_rows e rows).
Proof.
  induction rows as [|[j raw] rows IH]; [constructor|].
  cbn [fmap list_fmap fst]. intros Hs.
  apply StronglySorted_inv in Hs as [Hs Hj]. rewrite accepted_rows_cons.
  destruct (row_of_line raw) as [[w f]|]; [destruct (e f w)|];
    try (by apply IH).
  constructor; [by apply IH|].
  apply Forall_forall. intros [[i w'] f'] Hin. cbn [fst].
  apply accepted_rows_index in Hin. rewrite Forall_forall in Hj. by apply Hj.
Qed.

Lemma browser_records_elem clk n rows t :
  t ∈ browser_records clk n rows ->
  exists j i wolof french,
    (i, wolof, french) ∈ rows /\
    t !! "id" = Some (VNum (date_now clk i + (n + Z.of_nat j))).
Proof.
  unfold browser_records. intros Hin.
  apply list_elem_of_lookup in Hin as [j Hj].
  rewrite list_lookup_imap in Hj.
  destruct (rows !! j) as [[[i w] f]|] eqn:E; [|done].
  injection Hj as <-. exists j, i, w, f.
  split; [by eapply list_elem_of_lookup_2 | done].
Qed.

Lemma browser_records_sorted clk n rows :
  clock_monotone clk ->
  StronglySorted (fun r1 r2 => (r1.1.1 < r2.1.1)%nat) rows ->
  StronglySorted id_below (browser_records clk n rows).
Proof.
  intros Hclk. revert n.
  induction rows as [|[[i w] f] rows IH]; intros n Hs; [constructor|].
  apply StronglySorted_inv in Hs as [Hs Hi]. rewrite browser_records_cons.
  constructor; [by apply IH|].
  apply Forall_forall. intros t Hin.
  apply browser_records_elem in Hin as (j & i' & w' & f' & Hin & Hid).
  rewrite Forall_forall in Hi. specialize (Hi _ Hin). cbn [fst] in Hi.
  exists (date_now clk i + n)%Z, (date_now clk i' + (n + 1 + Z.of_nat j))%Z.
  split; [done|]. split; [done|].
  pose proof (Hclk i i' ltac:(lia)). lia.
Qed.

End BrowserIds.

(** X9.  When the clock does not run backwards during an import, the
    records one import into the localStorage store adds carry ids in strictly
    increasing order, hence pairwise distinct ones. *)
Theorem browser_import_ids_increasing csv clk ls :
  clock_monotone clk ->
  exists inserted,
    BrowserDb.translations (BrowserDb.importTranslationsFromCSV csv clk ls).1
    = BrowserDb.translations ls ++ inserted /\
    StronglySorted id_below inserted /\
    NoDup ((fun t => t !! "id") <$> inserted).
Proof.
  intros Hclk. rewrite browser_import_translations. cbn [fst].
  rewrite browser_translations_set. eexists. split; [done|].
  set (rows := accepted_rows _ _).
  assert (StronglySorted id_below (browser_records clk 0 rows)) as Hsorted.
  { apply browser_records_sorted; [done|].
    apply accepted_rows_sorted, data_lines_sorted. }
  split; [done|]. clear -Hsorted.
  induction Hsorted as [|t l _ IH Hall]; [constructor|].
  cbn [fmap list_fmap]. constructor; [|done].
  intros Hin. apply list_elem_of_fmap in Hin as (t' & Heq & Hin).
  rewrite Forall_forall in Hall. destruct (Hall t' Hin) as (a & b & Ha & Hb & Hlt).
  rewrite Ha, Hb in Heq. injection Heq as ->. lia.
Qed.

Lemma browser_import_ids_increasing_witness :
  clock_monotone sample_clock /\
  exists inserted,
    BrowserDb.translations
      (BrowserDb.importTranslationsFromCSV sample_csv sample_clock
                                           empty_storage).1
    = BrowserDb.translations empty_storage ++ inserted /\
    StronglySorted id_below inserted /\
    NoDup ((fun t => t !! "id") <$> inserted).
Proof.
  assert (clock_monotone sample_clock) as H
    by (intros i j Hij; simpl; lia).
  split; [exact H|].
  exact (browser_import_ids_increasing sample_csv sample_clock empty_storage H).
Defined.

(** ** Two updates of one record *)

Section UpdateTwice.
Import BrowserDb.

Lemma spread_twice (old updates1 updates2 : obj) now1 now2 :
  <["lastUpdated" := VStr now2]>
    (updates2 ∪ <["lastUpdated" := VStr now1]> (updates1 ∪ old))
  = <["lastUpdated" := VStr now2]> ((updates2 ∪ updates1) ∪ old).
Proof.
  apply map_eq. intros field.
  destruct (decide (field = "lastUpdated")) as [->|Hne].
  - by rewrite !lookup_insert_eq.
  - rewrite !lookup_insert_ne by done. rewrite !lookup_union.
    rewrite lookup_insert_ne by done. rewrite lookup_union.
    by destruct (updates2 !! field), (updates1 !! field), (old !! field).
Qed.

Lemma browser_find_updated id (new old : obj) index l :
  list_find (fun t => t !! "id" = Some id) l = Some (index, old) ->
  new !! "id" = Some id ->
  list_find (fun t => t !! "id" = Some id) (<[index := new]> l)
  = Some (index, new).
Proof.
  intros Hfind Hnew. apply list_find_Some in Hfind as (Hl & Hold & Hfirst).
  apply list_find_Some. split; [|split; [done|]].
  - apply list_lookup_insert_eq. by eapply lookup_lt_Some.
  - intros j y Hj Hlt. rewrite list_lookup_insert_ne in Hj by lia.
    by eapply Hfirst.
Qed.

Lemma browser_update_find id updates now ls :
  updateTranslation id updates now ls
  = match list_find (fun t => t !! "id" = Some id) (translations ls) with
    | None => (initDB ls, Rejected (NotFound id))
    | Some (index, old) =>
        let new := <["lastUpdated" := VStr now]> (updates ∪ old) in
        (set_translations (<[index := new]> (translations ls)) (initDB ls),
         Resolved new)
    end.
Proof.
  unfold updateTranslation. rewrite browser_translations_initDB.
  by destruct (list_find _ _) as [[index old]|].
Qed.

Lemma browser_update_initialised l ls :
  initDB (set_translations l (initDB ls)) = set_translations l (initDB ls).
Proof. by destruct ls as [[?|] [?|]]. Qed.

Lemma browser_set_translations_twice l1 l2 ls :
  set_translations l2 (set_translations l1 ls) = set_translations l2 ls.
Proof. done. Qed.

End UpdateTwice.

(** X10.  Two updates of one id in the localStorage store, the first not
    naming the field [id], amount to the single update, at the time of the
    second, by the fields of both with those of the second taking precedence:
    the same store is left and the same record returned.  When the id is
    unknown both are rejected and leave the same store. *)
Theorem browser_update_twice id updates1 updates2 now1 now2 ls :
  updates1 !! "id" = None ->
  BrowserDb.updateTranslation id updates2 now2
    (BrowserDb.updateTranslation id updates1 now1 ls).1
  = BrowserDb.updateTranslation id (updates2 ∪ updates1) now2 ls.
Proof.
  intros Hid. rewrite (browser_update_find id updates1 now1 ls).
  rewrite (browser_update_find id (updates2 ∪ updates1) now2 ls).
  destruct (list_find _ (BrowserDb.translations ls)) as [[index old]|] eqn:Hfind.
  - cbv zeta. cbn [fst]. rewrite browser_update_find.
    rewrite browser_translations_set.
    set (new1 := <["lastUpdated" := VStr now1]> (updates1 ∪ old)).
    assert (new1 !! "id" = Some id) as Hnew.
    { unfold new1. rewrite lookup_insert_ne by done.
      rewrite lookup_union_r by done.
      by apply list_find_Some in Hfind as (_ & ? & _). }
    rewrite (browser_find_updated id new1 old index _ Hfind Hnew). cbv zeta.
    rewrite list_insert_insert_eq, browser_update_initialised.
    unfold new1. by rewrite spread_twice.
  - cbn [fst]. rewrite browser_update_find, browser_translations_initDB, Hfind.
    by rewrite browser_initDB_idem.
Qed.

Lemma browser_update_twice_witness :
  sample_validation !! "id" = None /\
  BrowserDb.updateTranslation (VNum 1)
    (correction (js "salaam") (js "Serge")) sample_stamp
    (BrowserDb.updateTranslation (VNum 1) sample_validation sample_stamp
                                 sample_storage).1
  = BrowserDb.updateTranslation (VNum 1)
      (correction (js "salaam") (js "Serge") ∪ sample_validation) sample_stamp
      sample_storage.
Proof.
  split; [reflexivity|].
  exact (browser_update_twice (VNum 1) sample_validation
           (correction (js "salaam") (js "Serge")) sample_stamp sample_stamp
           sample_storage eq_refl).
Defined.

(** ** The status of a record under the writes of the components *)

Section Reviewed.

Lemma pending_not_validated t : has_status "pending" t -> ~ has_status "validated" t.
Proof. unfold has_status. intros -> [=]. Qed.

Lemma pending_not_corrected t : has_status "pending" t -> ~ has_status "corrected" t.
Proof. unfold has_status. intros -> [=]. Qed.

Lemma validated_not_corrected t :
  has_status "validated" t -> ~ has_status "corrected" t.
Proof. unfold has_status. intros -> [=]. Qed.

Lemma validation_validated username old now :
  has_status "validated"
    (<["lastUpdated" := VStr now]> (validation username ∪ old)).
Proof.
  unfold has_status. rewrite lookup_insert_ne by done.
  by apply lookup_union_Some_l.
Qed.

Lemma correction_pending editedTranslation username old now :
  has_status "pending"
    (<["lastUpdated" := VStr now]> (correction editedTranslation username ∪ old)).
Proof.
  unfold has_status. rewrite lookup_insert_ne by done.
  by apply lookup_union_Some_l.
Qed.

Lemma reviewed_insert_id x t : reviewed t -> reviewed (<["id" := x]> t).
Proof. unfold reviewed, has_status. by rewrite lookup_insert_ne. Qed.

Lemma browser_records_reviewed clk n rows :
  Forall reviewed (browser_records clk n rows).
Proof.
  revert n. induction rows as [|[[i w] f] rows IH]; intros n; [constructor|].
  rewrite browser_records_cons. constructor; [by left | apply IH].
Qed.

Lemma browser_write_reviewed w ls :
  Forall reviewed (BrowserDb.translations ls) ->
  Forall reviewed (BrowserDb.translations (browser_write w ls)).
Proof.
  intros Hls.
  destruct w as [csv clk|id username now|id edited username now];
    cbn [browser_write].
  - rewrite browser_import_translations. cbn [fst].
    rewrite browser_translations_set. apply Forall_app.
    split; [done | apply browser_records_reviewed].
  - rewrite browser_update_find.
    destruct (list_find _ _) as [[index old]|];
      cbn [fst]; [|by rewrite browser_translations_initDB].
    rewrite browser_translations_set. apply Forall_insert; [done|].
    right. apply validation_validated.
  - rewrite browser_update_find.
    destruct (list_find _ _) as [[index old]|];
      cbn [fst]; [|by rewrite browser_translations_initDB].
    rewrite browser_translations_set. apply Forall_insert; [done|].
    left. apply correction_pending.
Qed.

Lemma indexed_place_Forall (P : obj -> Prop) k v rs :
  Forall P rs -> P v -> Forall P (IndexedDb.place k v rs).
Proof.
  intros Hrs Hv. induction Hrs as [|r rs Hr Hrs IH]; simpl; [by constructor|].
  destruct (IndexedDb.key_of r); [|by constructor].
  destruct (decide _); [by constructor|].
  destruct (IndexedDb.key_ltb _ _); by repeat constructor.
Qed.

Lemma indexed_store_write_reviewed b v os os' :
  IndexedDb.store_write b v os = inr os' -> reviewed v ->
  Forall reviewed (IndexedDb.records os) ->
  Forall reviewed (IndexedDb.records os').
Proof.
  unfold IndexedDb.store_write. intros Hw Hv Hos.
  destruct (v !! "id") as [x|].
  - destruct (IndexedDb.key_of_value x) as [k|]; [|done].
    destruct (_ && _); [done|]. injection Hw as <-.
    by apply indexed_place_Forall.
  - injection Hw as <-. apply indexed_place_Forall; [done|].
    by apply reviewed_insert_id.
Qed.

Lemma indexed_import_loop_reviewed clk rows os :
  Forall reviewed (IndexedDb.records os) ->
  match fold_left (fun s '(i, raw) => IndexedDb.import_line clk s i raw)
                  rows (inr os) with
  | inr os' => Forall reviewed (IndexedDb.records os')
  | inl _ => True
  end.
Proof.
  revert os. induction rows as [|[i raw] rows IH]; intros os Hos; [done|].
  cbn [fold_left]. rewrite indexed_import_line_step.
  destruct (row_of_line raw) as [[wolof french]|]; [|by apply IH].
  destruct (IndexedDb.store_write _ _ _) as [e|os1] eqn:Hw.
  - by rewrite indexed_import_loop_failed.
  - apply IH. eapply indexed_store_write_reviewed; [exact Hw | by left | done].
Qed.

Lemma indexed_update_reviewed id updates now db :
  (forall old, reviewed (<["lastUpdated" := VStr now]> (updates ∪ old))) ->
  Forall reviewed (IndexedDb.records (IndexedDb.translations db)) ->
  Forall reviewed
    (IndexedDb.records
       (IndexedDb.translations (IndexedDb.updateTranslation id updates now db).1)).
Proof.
  intros Hnew Hdb. unfold IndexedDb.updateTranslation.
  destruct (IndexedDb.key_of_value id) as [k|]; [|done].
  destruct (IndexedDb.store_write _ _ _) as [e|os'] eqn:Hw; [done|].
  cbn [fst IndexedDb.translations].
  by eapply indexed_store_write_reviewed.
Qed.

Lemma indexed_write_reviewed w db :
  Forall reviewed (IndexedDb.records (IndexedDb.translations db)) ->
  Forall reviewed
    (IndexedDb.records (IndexedDb.translations (indexed_write w db))).
Proof.
  intros Hdb.
  destruct w as [csv clk|id username now|id edited username now];
    cbn [indexed_write].
  - unfold IndexedDb.importTranslationsFromCSV.
    rewrite for_each_data_line_fold.
    pose proof (indexed_import_loop_reviewed clk
                  (data_lines (split newline csv)) _ Hdb) as H.
    by destruct (fold_left _ _ _).
  - apply indexed_update_reviewed; [|done].
    intros old. right. apply validation_validated.
  - apply indexed_update_reviewed; [|done].
    intros old. left. apply correction_pending.
Qed.

Lemma reviewed_stats l :
  Forall reviewed l ->
  corrected (updateStats l) = 0%nat /\
  total (updateStats l)
  = (pending (updateStats l) + validated (updateStats l))%nat.
Proof.
  unfold updateStats. cbn [corrected total pending validated].
  induction 1 as [|t l Ht _ [IH1 IH2]]; [done|].
  rewrite !filter_cons. cbn [length].
  destruct Ht as [Ht|Ht].
  - pose proof (pending_not_validated _ Ht).
    pose proof (pending_not_corrected _ Ht).
    rewrite (decide_True _ _ Ht), !decide_False by done. cbn [length]. lia.
  - pose proof (validated_not_corrected _ Ht).
    assert (~ has_status "pending" t)
      by (intros Hp; by apply (pending_not_validated _ Hp)).
    rewrite (decide_True _ _ Ht), !decide_False by done. cbn [length]. lia.
Qed.

End Reviewed.

(** X11.  No write of the components gives a record another status than
    [pending] or [validated]: when every stored record has one of the two,
    so it is after any sequence of imports, validations and corrections, in
    the localStorage store and in the IndexedDB store.  The counter
    [corrected] of the validator screen is then zero and the total is the
    sum of the pending and the validated records. *)
Theorem status_stays_reviewed ws ls db :
  Forall reviewed (BrowserDb.translations ls) ->
  Forall reviewed (IndexedDb.records (IndexedDb.translations db)) ->
  (let after :=
     BrowserDb.translations (fold_left (fun s w => browser_write w s) ws ls) in
   Forall reviewed after /\
   corrected (updateStats after) = 0%nat /\
   total (updateStats after)
   = (pending (updateStats after) + validated (updateStats after))%nat) /\
  (let after :=
     IndexedDb.records
       (IndexedDb.translations
          (fold_left (fun s w => indexed_write w s) ws db)) in
   Forall reviewed after /\
   corrected (updateStats after) = 0%nat /\
   total (updateStats after)
   = (pending (updateStats after) + validated (updateStats after))%nat).
Proof.
  intros Hls Hdb. cbv zeta.
  assert (Forall reviewed
            (BrowserDb.translations
               (fold_left (fun s w => browser_write w s) ws ls))) as H1.
  { clear Hdb. revert ls Hls. induction ws as [|w ws IH]; intros ls Hls; [done|].
    cbn [fold_left]. by apply IH, browser_write_reviewed. }
  assert (Forall reviewed
            (IndexedDb.records
               (IndexedDb.translations
                  (fold_left (fun s w => indexed_write w s) ws db)))) as H2.
  { clear Hls H1. revert db Hdb.
    induction ws as [|w ws IH]; intros db Hdb; [done|].
    cbn [fold_left]. by apply IH, indexed_write_reviewed. }
  split; (split; [done | by apply reviewed_stats]).
Qed.

Lemma status_stays_reviewed_witness :
  let ws := [Imports sample_csv sample_clock;
             Corrects (VNum 1700000000000) (js "salaam") (js "Serge") sample_stamp;
             Validates (VNum 1700000000001) (js "Alwaly") sample_stamp] in
  corrected
    (updateStats
       (BrowserDb.translations
          (fold_left (fun s w => browser_write w s) ws empty_storage)))
  = 0%nat.
Proof.
  cbv zeta.
  refine (proj1 (proj2 (proj1 (status_stays_reviewed _ empty_storage
                                 empty_database _ _)))); constructor.
Defined.

(** ** What the writes of the components keep *)

Section Originals.

Lemma validation_keeps field username (old : obj) now :
  field <> "lastUpdated" -> field <> "status" -> field <> "validatedBy" ->
  (<["lastUpdated" := VStr now]> (validation username ∪ old)) !! field
  = old !! field.
Proof.
  intros H1 H2 H3. rewrite lookup_insert_ne by done.
  apply lookup_union_r. unfold validation.
  by rewrite !lookup_insert_ne, lookup_singleton_ne.
Qed.

Lemma correction_keeps field editedTranslation username (old : obj) now :
  field <> "lastUpdated" -> field <> "status" -> field <> "wolof" ->
  field <> "correctedBy" -> field <> "hasBeenCorrected" ->
  (<["lastUpdated" := VStr now]> (correction editedTranslation username ∪ old))
    !! field
  = old !! field.
Proof.
  intros H1 H2 H3 H4 H5. rewrite lookup_insert_ne by done.
  apply lookup_union_r. unfold correction.
  by rewrite !lookup_insert_ne, lookup_singleton_ne.
Qed.

Lemma browser_write_keeps w ls j t :
  BrowserDb.translations ls !! j = Some t ->
  exists t',
    BrowserDb.translations (browser_write w ls) !! j = Some t' /\
    t' !! "id" = t !! "id" /\ t' !! "french" = t !! "french" /\
    t' !! "originalWolof" = t !! "originalWolof".
Proof.
  intros Hj.
  destruct w as [csv clk|id username now|id edited username now];
    cbn [browser_write].
  - exists t. rewrite browser_import_translations. cbn [fst].
    rewrite browser_translations_set. split; [|done].
    by apply lookup_app_l_Some.
  - rewrite browser_update_find.
    destruct (list_find _ _) as [[index old]|] eqn:Hfind; cbn [fst];
      [|exists t; by rewrite browser_translations_initDB].
    rewrite browser_translations_set.
    destruct (decide (j = index)) as [->|Hne];
      [|exists t; by rewrite list_lookup_insert_ne].
    apply list_find_Some in Hfind as (Hl & _). rewrite Hj in Hl.
    injection Hl as <-. eexists.
    split; [apply list_lookup_insert_eq; by eapply lookup_lt_Some|].
    by rewrite !validation_keeps.
  - rewrite browser_update_find.
    destruct (list_find _ _) as [[index old]|] eqn:Hfind; cbn [fst];
      [|exists t; by rewrite browser_translations_initDB].
    rewrite browser_translations_set.
    destruct (decide (j = index)) as [->|Hne];
      [|exists t; by rewrite list_lookup_insert_ne].
    apply list_find_Some in Hfind as (Hl & _). rewrite Hj in Hl.
    injection Hl as <-. eexists.
    split; [apply list_lookup_insert_eq; by eapply lookup_lt_Some|].
    by rewrite !correction_keeps.
Qed.

Lemma filter_insert_length {A} (P : A -> Prop) `{forall x, Decision (P x)}
    (l : list A) i x y :
  l !! i = Some x ->
  (length (filter P (<[i := y]> l)) + (if decide (P x) then 1 else 0)
   = length (filter P l) + (if decide (P y) then 1 else 0))%nat.
Proof.
  intros Hl. rewrite insert_take_drop by (by eapply lookup_lt_Some).
  rewrite <- (take_drop_middle l i x Hl) at 3.
  rewrite !filter_app, !filter_cons, !length_app.
  destruct (decide (P x)), (decide (P y)); cbn [length]; lia.
Qed.

End Originals.

(** X12.  In the localStorage store no sequence of imports, validations and
    corrections moves a record or changes its id, its French text or its
    original Wolof text: the record at a position stays at this position
    with these three fields as they were. *)
Theorem originals_kept ws ls j t :
  BrowserDb.translations ls !! j = Some t ->
  exists t',
    BrowserDb.translations (fold_left (fun s w => browser_write w s) ws ls) !! j
    = Some t' /\
    t' !! "id" = t !! "id" /\ t' !! "french" = t !! "french" /\
    t' !! "originalWolof" = t !! "originalWolof".
Proof.
  revert ls t. induction ws as [|w ws IH]; intros ls t Hj.
  - by exists t.
  - cbn [fold_left].
    destruct (browser_write_keeps w ls j t Hj) as (t1 & Hj1 & Hid & Hf & Ho).
    destruct (IH _ _ Hj1) as (t' & Hj' & Hid' & Hf' & Ho').
    exists t'. split; [done|]. split; [congruence|]. split; congruence.
Qed.

Lemma originals_kept_witness :
  exists t',
    BrowserDb.translations
      (fold_left (fun s w => browser_write w s)
         [Corrects (VNum 1) (js "salaam") (js "Serge") sample_stamp;
          Validates (VNum 1) (js "Alwaly") sample_stamp]
         sample_storage) !! 0%nat
    = Some t' /\
    t' !! "id" = sample_record_1 !! "id" /\
    t' !! "french" = sample_record_1 !! "french" /\
    t' !! "originalWolof" = sample_record_1 !! "originalWolof".
Proof.
  exact (originals_kept _ sample_storage 0%nat sample_record_1 eq_refl).
Defined.

(** X13.  In the localStorage store the validation of a pending record
    moves one unit from the counter [pending] of the validator screen to the
    counter [validated] and leaves the two other counters; its correction
    leaves the four counters as they are, the corrected record being pending
    again. *)
Theorem validation_and_correction_counters
    id username editedTranslation now ls index old :
  list_find (fun t => t !! "id" = Some id) (BrowserDb.translations ls)
  = Some (index, old) ->
  has_status "pending" old ->
  let before := updateStats (BrowserDb.translations ls) in
  (let after :=
     updateStats
       (BrowserDb.translations (browser_write (Validates id username now) ls)) in
   total after = total before /\ S (pending after) = pending before /\
   validated after = S (validated before) /\
   corrected after = corrected before) /\
  updateStats
    (BrowserDb.translations
       (browser_write (Corrects id editedTranslation username now) ls))
  = before.
Proof.
  intros Hfind Hold. cbv zeta. cbn [browser_write].
  rewrite !browser_update_find, Hfind. cbv zeta. cbn [fst].
  rewrite !browser_translations_set.
  pose proof (proj1 (list_find_Some _ _ _ _) Hfind) as (Hl & _ & _).
  set (l := BrowserDb.translations ls) in *.
  set (v := <["lastUpdated" := VStr now]> (validation username ∪ old)).
  set (c := <["lastUpdated" := VStr now]>
              (correction editedTranslation username ∪ old)).
  pose proof (validation_validated username old now) as Hv. fold v in Hv.
  pose proof (correction_pending editedTranslation username old now) as Hc.
  fold c in Hc.
  pose proof (pending_not_validated _ Hold).
  pose proof (pending_not_corrected _ Hold).
  pose proof (pending_not_validated _ Hc).
  pose proof (pending_not_corrected _ Hc).
  pose proof (validated_not_corrected _ Hv).
  assert (~ has_status "pending" v)
    by (intros Hp; by apply (pending_not_validated _ Hp)).
  pose proof (filter_insert_length (has_status "pending") l index old v Hl) as P1.
  pose proof (filter_insert_length (has_status "validated") l index old v Hl) as P2.
  pose proof (filter_insert_length (has_status "corrected") l index old v Hl) as P3.
  pose proof (filter_insert_length (has_status "pending") l index old c Hl) as Q1.
  pose proof (filter_insert_length (has_status "validated") l index old c Hl) as Q2.
  pose proof (filter_insert_length (has_status "corrected") l index old c Hl) as Q3.
  unfold updateStats. cbn [total pending validated corrected].
  rewrite !length_insert.
  repeat case_decide; try done.
  split; [repeat split; lia | f_equal; lia].
Qed.

Lemma validation_and_correction_counters_witness :
  has_status "pending" sample_record_1 /\
  pending
    (updateStats
       (BrowserDb.translations
          (browser_write (Validates (VNum 1) (js "Alwaly") sample_stamp)
                         sample_storage)))
  = 1%nat.
Proof.
  assert (has_status "pending" sample_record_1) as H by reflexivity.
  split; [exact H|].
  refine (eq_add_S _ _
            (proj1 (proj2 (proj1
               (validation_and_correction_counters (VNum 1) (js "Alwaly")
                  (js "salaam") sample_stamp sample_storage 0%nat
                  sample_record_1 _ H))))).
  reflexivity.
Defined.

(** ** What the operations leave of the store *)

Section Frame.

Lemma browser_initialised_set_translations l ls :
  BrowserDb.initDB (BrowserDb.set_translations l (BrowserDb.initDB ls))
  = BrowserDb.set_translations l (BrowserDb.initDB ls).
Proof. by destruct ls as [[?|] [?|]]. Qed.

Lemma browser_initialised_set_users l ls :
  BrowserDb.initDB (BrowserDb.set_users l (BrowserDb.initDB ls))
  = BrowserDb.set_users l (BrowserDb.initDB ls).
Proof. by destruct ls as [[?|] [?|]]. Qed.

Lemma browser_users_set_translations l ls :
  BrowserDb.users (BrowserDb.set_translations l ls) = BrowserDb.users ls.
Proof. done. Qed.

Lemma browser_run_initialised op ls :
  BrowserDb.initDB (browser_run op ls) = browser_run op ls.
Proof.
  destruct op as [csv clk| |r|id updates now| | |clk| | ]; cbn [browser_run];
    try (cbn [fst]; apply browser_initDB_idem).
  - apply browser_import_initialised.
  - unfold BrowserDb.getRandomPendingTranslation.
    destruct (bool_decide _); cbn [fst]; apply browser_initDB_idem.
  - rewrite browser_update_find.
    destruct (list_find _ _) as [[index old]|]; cbn [fst];
      [apply browser_initialised_set_translations | apply browser_initDB_idem].
  - destruct (browser_initializeUsers_seeded clk ls) as (added & -> & _).
    cbn [fst]. destruct (bool_decide _);
      [apply browser_initDB_idem | apply browser_initialised_set_users].
Qed.

Lemma browser_run_users op ls :
  is_initializeUsers op = false ->
  BrowserDb.users (browser_run op ls) = BrowserDb.users ls.
Proof.
  destruct op as [csv clk| |r|id updates now| | |clk| | ]; try done; intros _;
    cbn [browser_run]; try (cbn [fst]; apply browser_users_initDB).
  - rewrite browser_import_translations. cbn [fst].
    rewrite browser_users_set_translations. apply browser_users_initDB.
  - unfold BrowserDb.getRandomPendingTranslation.
    destruct (bool_decide _); cbn [fst]; apply browser_users_initDB.
  - rewrite browser_update_find.
    destruct (list_find _ _) as [[index old]|]; cbn [fst];
      rewrite ?browser_users_set_translations; apply browser_users_initDB.
Qed.

Lemma indexed_run_users op db :
  is_initializeUsers op = false ->
  IndexedDb.users (indexed_run op db) = IndexedDb.users db.
Proof.
  destruct op as [csv clk| |r|id updates now| | |clk| | ]; try done; intros _;
    cbn [indexed_run].
  - unfold IndexedDb.importTranslationsFromCSV.
    by destruct (for_each_data_line _ _ _).
  - unfold IndexedDb.getRandomPendingTranslation. by destruct (bool_decide _).
  - unfold IndexedDb.updateTranslation.
    destruct (IndexedDb.key_of_value id); [|done].
    by destruct (IndexedDb.store_write _ _ _).
Qed.

End Frame.

(** X14.  Every operation of the localStorage store leaves both items of
    localStorage present, so that another [initDB] changes nothing; and in
    the localStorage store as in the IndexedDB store no operation other than
    [initializeUsers] changes the users. *)
Theorem operations_keep_users op ls db :
  BrowserDb.initDB (browser_run op ls) = browser_run op ls /\
  (is_initializeUsers op = false ->
   BrowserDb.users (browser_run op ls) = BrowserDb.users ls /\
   IndexedDb.users (indexed_run op db) = IndexedDb.users db).
Proof.
  split; [apply browser_run_initialised|]. intros Hop.
  split; [by apply browser_run_users | by apply indexed_run_users].
Qed.

Lemma operations_keep_users_witness :
  is_initializeUsers (Update (VNum 1) sample_validation sample_stamp) = false /\
  BrowserDb.users
    (browser_run (Update (VNum 1) sample_validation sample_stamp) sample_storage)
  = BrowserDb.users sample_storage.
Proof.
  split; [reflexivity|].
  exact (proj1 (proj2 (operations_keep_users
                         (Update (VNum 1) sample_validation sample_stamp)
                         sample_storage sample_database) eq_refl)).
Defined.

(** ** Is the store empty after an import *)

Section EmptyAfterImport.

Lemma bool_decide_length_nil {A} `{EqDecision A} (l : list A) :
  bool_decide (length l = 0%nat) = bool_decide (l = []).
Proof. apply bool_decide_ext. by destruct l. Qed.

Lemma browser_import_empty csv clk ls :
  let rows := accepted_rows (fun _ _ => false) (data_lines (split newline csv)) in
  BrowserDb.translations (BrowserDb.importTranslationsFromCSV csv clk ls).1 = []
  <-> BrowserDb.translations ls = [] /\ rows = [].
Proof.
  cbv zeta. rewrite browser_import_translations. cbn [fst].
  rewrite browser_translations_set.
  destruct (BrowserDb.translations ls) as [|t l] eqn:E.
  - rewrite (accepted_rows_ext _ (fun _ _ => false)).
    + cbn [app]. destruct (accepted_rows _ _) as [|[[i w] f] rows].
      * done.
      * rewrite browser_records_cons. split; [done | by intros [_ ?]].
    + intros f w. unfold BrowserDb.translationExists. by rewrite E.
  - split; [done | by intros [? _]].
Qed.

Lemma indexed_import_empty csv clk db :
  let rows := accepted_rows (fun _ _ => false) (data_lines (split newline csv)) in
  (IndexedDb.importTranslationsFromCSV csv clk db).2 = Resolved true /\
  (IndexedDb.records
     (IndexedDb.translations (IndexedDb.importTranslationsFromCSV csv clk db).1)
   = []
   <-> IndexedDb.records (IndexedDb.translations db) = [] /\ rows = []).
Proof.
  cbv zeta. unfold IndexedDb.importTranslationsFromCSV.
  rewrite for_each_data_line_fold.
  destruct (indexed_import_loop_cases clk (data_lines (split newline csv))
              (IndexedDb.translations db)) as (os' & Hfold & Hcases).
  rewrite Hfold. cbn [fst snd IndexedDb.translations]. split; [done|].
  destruct (accepted_rows _ _) as [|row rows] eqn:E.
  - rewrite (indexed_import_loop_nothing _ _ _ E) in Hfold.
    injection Hfold as <-. split; [done | by intros [? _]].
  - destruct Hcases as [?|Hsome]; [done|]. split; [done | by intros [_ ?]].
Qed.

Lemma sqlite_insert_not_empty wolof french originalWolof now t :
  SqliteDb.rows (SqliteDb.insert_translation wolof french originalWolof now t)
  <> [].
Proof.
  unfold SqliteDb.insert_translation.
  destruct (existsb _ (SqliteDb.rows t)) eqn:E.
  - by destruct (SqliteDb.rows t).
  - cbn [SqliteDb.rows]. by destruct (SqliteDb.rows t).
Qed.

Lemma sqlite_import_loop_empty clk rows t :
  SqliteDb.rows
    (fold_left (fun s '(i, raw) => SqliteDb.import_line clk s i raw) rows t) = []
  <-> SqliteDb.rows t = [] /\ accepted_rows (fun _ _ => false) rows = [].
Proof.
  revert t. induction rows as [|[i raw] rows IH]; intros t.
  - cbn [fold_left]. split; [done | by intros [? _]].
  - cbn [fold_left]. rewrite IH, accepted_rows_cons.
    unfold SqliteDb.import_line. rewrite csv_fields_row_of_line.
    destruct (row_of_line raw) as [[wolof french]|]; [|done].
    split; [|by intros [_ ?]].
    intros [Hempty _]. by apply sqlite_insert_not_empty in Hempty.
Qed.

End EmptyAfterImport.

(** X15.  After an import the store answers that it is empty exactly when
    it held no translation before and the text has no well-formed row, in
    each of the three stores; the import of the IndexedDB store is never
    rejected. *)
Theorem import_then_isDatabaseEmpty csv clk ls db sql :
  let rows := accepted_rows (fun _ _ => false) (data_lines (split newline csv)) in
  (BrowserDb.isDatabaseEmpty (BrowserDb.importTranslationsFromCSV csv clk ls).1).2
  = Resolved (bool_decide (BrowserDb.translations ls = [] /\ rows = [])) /\
  (IndexedDb.importTranslationsFromCSV csv clk db).2 = Resolved true /\
  (IndexedDb.isDatabaseEmpty (IndexedDb.importTranslationsFromCSV csv clk db).1).2
  = Resolved (bool_decide (IndexedDb.records (IndexedDb.translations db) = []
                           /\ rows = [])) /\
  (SqliteDb.isDatabaseEmpty (SqliteDb.importTranslationsFromCSV csv clk sql).1).2
  = Resolved (bool_decide
                (SqliteDb.rows (SqliteDb.translations (SqliteDb.getDB sql)) = []
                 /\ rows = [])).
Proof.
  cbv zeta. split; [|split; [|split]].
  - unfold BrowserDb.isDatabaseEmpty. cbn [snd].
    rewrite browser_translations_initDB, bool_decide_length_nil. f_equal.
    apply bool_decide_ext, browser_import_empty.
  - apply indexed_import_empty.
  - unfold IndexedDb.isDatabaseEmpty. cbn [snd].
    rewrite bool_decide_length_nil. f_equal.
    apply bool_decide_ext, indexed_import_empty.
  - unfold SqliteDb.isDatabaseEmpty, SqliteDb.importTranslationsFromCSV.
    cbn [fst snd SqliteDb.getDB SqliteDb.initDB SqliteDb.translations].
    rewrite bool_decide_length_nil, for_each_data_line_fold. f_equal.
    apply bool_decide_ext, sqlite_import_loop_empty.
Qed.

(** ** The constraints of the SQLite tables *)

Section SqliteConstraints.
Import SqliteDb.

Lemma rowid_le_max row z l :
  row ∈ l -> row !! "id" = Some (VNum z) ->
  (z <= foldr Z.max 0 (rowid <$> l))%Z.
Proof.
  intros Hin Hid. induction l as [|r l IH]; [by apply elem_of_nil in Hin|].
  cbn [fmap list_fmap foldr]. apply elem_of_cons in Hin as [<-|Hin].
  - unfold rowid at 1. rewrite Hid. lia.
  - specialize (IH Hin). lia.
Qed.

Lemma keyed_snoc l row :
  keyed l -> row !! "id" = Some (VNum (next_rowid {| rows := l; sequence := 0 |}))
  \/ (exists z, row !! "id" = Some (VNum z)
                /\ (foldr Z.max 0 (rowid <$> l) < z)%Z) ->
  keyed (l ++ [row]).
Proof.
  intros [Hnum Hsorted] Hrow.
  assert (exists z, row !! "id" = Some (VNum z)
                    /\ (foldr Z.max 0 (rowid <$> l) < z)%Z) as (z & Hz & Hlt).
  { destruct Hrow as [Hrow|Hrow]; [|done]. eexists. split; [exact Hrow|].
    unfold next_rowid. cbn [rows sequence]. lia. }
  split.
  - apply Forall_app. split; [done|]. constructor; [by exists z | constructor].
  - clear Hrow. induction l as [|r l IH]; [repeat constructor|].
    apply Forall_cons in Hnum as [(a & Ha) Hnum].
    apply StronglySorted_inv in Hsorted as [Hsorted Hr].
    cbn [fmap list_fmap foldr] in Hlt.
    cbn [app]. constructor.
    + apply IH; [done | done | lia].
    + apply Forall_app. split; [done|]. constructor; [|constructor].
      exists a, z. split; [done|]. split; [done|].
      unfold rowid in Hlt at 1. rewrite Ha in Hlt. lia.
Qed.

Lemma next_rowid_above t :
  (foldr Z.max 0 (rowid <$> rows t) < next_rowid t)%Z.
Proof. unfold next_rowid. lia. Qed.

Lemma sqlite_insert_translation_constraints wolof french now t :
  let t' := insert_translation wolof french wolof now t in
  (unique_pairs (rows t) -> unique_pairs (rows t')) /\
  (keyed (rows t) -> keyed (rows t')) /\
  exists added, rows t' = rows t ++ added.
Proof.
  cbv zeta. unfold insert_translation. rewrite existsb_has_pair.
  destruct (decide (has_pair french wolof (rows t))) as [Hp|Hp].
  - rewrite bool_decide_eq_true_2 by done.
    split; [done|]. split; [done|]. exists []. by rewrite app_nil_r.
  - rewrite bool_decide_eq_false_2 by done. cbn [rows].
    split; [|split; [|by eexists]].
    + unfold unique_pairs. intros Hnd. rewrite fmap_app.
      apply NoDup_app. split; [done|]. split; [|apply NoDup_singleton].
      intros pair Hin Hnew. cbn [fmap list_fmap] in Hnew.
      apply list_elem_of_singleton in Hnew. subst pair.
      apply list_elem_of_fmap in Hin as (row & Heq & Hin).
      apply Hp. unfold has_pair. apply Exists_exists. exists row.
      split; [done|]. revert Heq. simplify_map_eq. by intros [= <- <-].
    + intros Hk. apply keyed_snoc; [done|]. right.
      exists (next_rowid t). split; [by simplify_map_eq | apply next_rowid_above].
Qed.

Lemma sqlite_import_loop_constraints clk lines t :
  let t' := fold_left (fun s '(i, raw) => import_line clk s i raw) lines t in
  (unique_pairs (rows t) -> unique_pairs (rows t')) /\
  (keyed (rows t) -> keyed (rows t')) /\
  exists added, rows t' = rows t ++ added.
Proof.
  cbv zeta. revert t. induction lines as [|[i raw] lines IH]; intros t.
  - split; [done|]. split; [done|]. exists []. by rewrite app_nil_r.
  - cbn [fold_left]. destruct (IH (import_line clk t i raw)) as (U & K & A).
    assert ((unique_pairs (rows t) -> unique_pairs (rows (import_line clk t i raw)))
            /\ (keyed (rows t) -> keyed (rows (import_line clk t i raw)))
            /\ exists added, rows (import_line clk t i raw) = rows t ++ added)
      as (U1 & K1 & added1 & A1).
    { unfold import_line. destruct (csv_fields raw) as [[wolof french]|].
      - apply sqlite_insert_translation_constraints.
      - split; [done|]. split; [done|]. exists []. by rewrite app_nil_r. }
    split; [by intros ?%U1%U|]. split; [by intros ?%K1%K|].
    destruct A as (added & ->). exists (added1 ++ added).
    by rewrite A1, app_assoc.
Qed.

Lemma sqlite_insert_user_constraints t name :
  let t' := insert_user t name in
  (unique_names (rows t) -> unique_names (rows t')) /\
  (keyed (rows t) -> keyed (rows t')).
Proof.
  cbv zeta. unfold insert_user.
  destruct (existsb _ (rows t)) eqn:E; [done|]. cbn [rows]. split.
  - unfold unique_names. intros Hnd. rewrite fmap_app.
    apply NoDup_app. split; [done|]. split; [|apply NoDup_singleton].
    intros n Hin Hnew. cbn [fmap list_fmap] in Hnew.
    apply list_elem_of_singleton in Hnew. subst n.
    apply list_elem_of_fmap in Hin as (row & Heq & Hin).
    apply not_true_iff_false in E. apply E. apply existsb_exists.
    exists row. split; [by apply list_elem_of_In|].
    apply bool_decide_eq_true. revert Heq. by simplify_map_eq.
  - intros Hk. apply keyed_snoc; [done|]. right.
    exists (next_rowid t). split; [by simplify_map_eq | apply next_rowid_above].
Qed.

Lemma sqlite_seed_constraints names t :
  let t' := fold_left insert_user names t in
  (unique_names (rows t) -> unique_names (rows t')) /\
  (keyed (rows t) -> keyed (rows t')).
Proof.
  cbv zeta. revert t. induction names as [|name names IH]; intros t; [done|].
  cbn [fold_left]. destruct (IH (insert_user t name)) as (U & K).
  destruct (sqlite_insert_user_constraints t name) as (U1 & K1).
  split; [by intros ?%U1%U | by intros ?%K1%K].
Qed.

End SqliteConstraints.

(** X16.  The SQLite store keeps the constraints of its tables.  An import
    only appends rows to the translations; when no two rows held the same
    French and Wolof pair, none do afterwards, and when the rows came with
    numbers as ids in strictly increasing order, so they do afterwards.
    [initializeUsers] keeps the names of the users distinct and their ids in
    increasing order in the same way. *)
Theorem sqlite_keeps_constraints csv clk sql :
  (let before := SqliteDb.rows (SqliteDb.translations (SqliteDb.getDB sql)) in
   let after :=
     SqliteDb.rows
       (SqliteDb.translations
          (SqliteDb.getDB (SqliteDb.importTranslationsFromCSV csv clk sql).1)) in
   (exists added, after = before ++ added) /\
   (unique_pairs before -> unique_pairs after) /\
   (keyed before -> keyed after)) /\
  (let before := SqliteDb.rows (SqliteDb.users (SqliteDb.getDB sql)) in
   let after :=
     SqliteDb.rows
       (SqliteDb.users (SqliteDb.getDB (SqliteDb.initializeUsers sql).1)) in
   (unique_names before -> unique_names after) /\
   (keyed before -> keyed after)).
Proof.
  cbv zeta. split.
  - unfold SqliteDb.importTranslationsFromCSV.
    cbn [fst SqliteDb.getDB SqliteDb.initDB SqliteDb.translations].
    rewrite for_each_data_line_fold.
    destruct (sqlite_import_loop_constraints clk
                (data_lines (split newline csv))
                (SqliteDb.translations (SqliteDb.initDB sql))) as (U & K & A).
    done.
  - unfold SqliteDb.initializeUsers.
    cbn [fst SqliteDb.getDB SqliteDb.initDB SqliteDb.users].
    apply sqlite_seed_constraints.
Qed.

Lemma sqlite_keeps_constraints_witness :
  unique_pairs (SqliteDb.rows (SqliteDb.translations (SqliteDb.getDB None))) /\
  unique_pairs
    (SqliteDb.rows
       (SqliteDb.translations
          (SqliteDb.getDB
             (SqliteDb.importTranslationsFromCSV sample_csv sample_clock None).1))).
Proof.
  assert (unique_pairs
            (SqliteDb.rows (SqliteDb.translations (SqliteDb.getDB None)))) as H
    by constructor.
  split; [exact H|].
  exact (proj1 (proj2 (proj1 (sqlite_keeps_constraints sample_csv sample_clock
                                None))) H).
Defined.

(** ** The next translation offered after a validation or a correction *)

Section NextTranslation.

Lemma pick_elem {A} (l : list A) i x : pick l i = Some x -> x ∈ l.
Proof.
  unfold pick. destruct (i <? 0)%Z; [done|]. apply list_elem_of_lookup_2.
Qed.

Lemma pick_nat {A} (l : list A) j : pick l (Z.of_nat j) = l !! j.
Proof.
  unfold pick. destruct (Z.ltb_spec (Z.of_nat j) 0); [lia|].
  by rewrite Nat2Z.id.
Qed.

Lemma browser_random_pending_elem r ls t :
  (BrowserDb.getRandomPendingTranslation r ls).2 = Resolved (Some t) ->
  has_status "pending" t /\ t ∈ BrowserDb.translations ls.
Proof.
  unfold BrowserDb.getRandomPendingTranslation.
  rewrite browser_translations_initDB.
  destruct (bool_decide _); [done|]. cbn [snd]. intros [= Hpick].
  apply pick_elem, list_elem_of_filter in Hpick. done.
Qed.

Lemma NoDup_fmap_lookup {A B} (f : A -> B) (l : list A) i j x y :
  NoDup (f <$> l) -> l !! i = Some x -> l !! j = Some y -> f x = f y -> i = j.
Proof.
  intros Hnd Hi Hj Heq. eapply NoDup_lookup; [exact Hnd| |].
  - by rewrite list_lookup_fmap, Hi.
  - by rewrite list_lookup_fmap, Hj, Heq.
Qed.

(** A draw that selects the position [j] of [n]. *)
Lemma random_index_hits j n :
  (j < n)%nat ->
  let r := (inject_Z (Z.of_nat j) / inject_Z (Z.of_nat n))%Q in
  (0 <= r)%Q /\ (r < 1)%Q /\ random_index r n = Z.of_nat j.
Proof.
  intros Hj. cbv zeta.
  assert (0 < n)%nat as Hn by lia.
  pose proof (inject_nat_pos n Hn) as Hpos.
  split; [|split].
  - apply Qle_shift_div_l; [done|]. rewrite Qmult_0_l.
    change 0%Q with (inject_Z 0). rewrite <- Zle_Qle. lia.
  - apply Qlt_shift_div_r; [done|]. rewrite Qmult_1_l.
    rewrite <- Zlt_Qlt. lia.
  - apply random_index_interval; [done|]. split; [apply Qle_refl|].
    unfold Qdiv. apply Qmult_lt_compat_r; [by apply Qinv_lt_0_compat|].
    rewrite <- Zlt_Qlt. lia.
Qed.

End NextTranslation.

(** X17.  Once a translation is validated the validator screen does not
    get it again: in the localStorage store, when the ids of the stored
    records are pairwise distinct, whatever the draw the translation returned
    by [getRandomPendingTranslation] after the validation of [id] is pending
    and has another id. *)
Theorem validated_not_offered_again id username now r ls t :
  NoDup ((fun t => t !! "id") <$> BrowserDb.translations ls) ->
  (BrowserDb.getRandomPendingTranslation r
     (browser_write (Validates id username now) ls)).2 = Resolved (Some t) ->
  has_status "pending" t /\ t !! "id" <> Some id.
Proof.
  intros Hnd Hpick. apply browser_random_pending_elem in Hpick as [Hp Hin].
  split; [done|]. intros Hid. revert Hin. cbn [browser_write].
  rewrite browser_update_find.
  destruct (list_find _ _) as [[index old]|] eqn:Hfind; cbn [fst].
  - rewrite browser_translations_set. intros Hin.
    apply list_find_Some in Hfind as (Hl & Hold & _).
    apply list_elem_of_lookup in Hin as [j Hj].
    destruct (decide (j = index)) as [->|Hne].
    + rewrite list_lookup_insert_eq in Hj by (by eapply lookup_lt_Some).
      injection Hj as <-.
      by apply (pending_not_validated _ Hp), validation_validated.
    + rewrite list_lookup_insert_ne in Hj by done. apply Hne.
      eapply (NoDup_fmap_lookup _ _ _ _ _ _ Hnd Hj Hl). congruence.
  - rewrite browser_translations_initDB. intros Hin.
    apply list_find_None in Hfind. rewrite Forall_forall in Hfind.
    by apply (Hfind t).
Qed.

Lemma validated_not_offered_again_witness :
  NoDup ((fun t => t !! "id") <$> BrowserDb.translations sample_storage) /\
  (BrowserDb.getRandomPendingTranslation (1 # 2)
     (browser_write (Validates (VNum 1) (js "Alwaly") sample_stamp)
                    sample_storage)).2 = Resolved (Some sample_record_2) /\
  sample_record_2 !! "id" <> Some (VNum 1).
Proof.
  assert (NoDup ((fun t => t !! "id") <$> BrowserDb.translations sample_storage))
    as Hnd by (apply (bool_decide_unpack _); vm_compute; exact I).
  assert ((BrowserDb.getRandomPendingTranslation (1 # 2)
             (browser_write (Validates (VNum 1) (js "Alwaly") sample_stamp)
                            sample_storage)).2 = Resolved (Some sample_record_2))
    as Hpick by (by vm_compute).
  split; [exact Hnd|]. split; [exact Hpick|].
  exact (proj2 (validated_not_offered_again (VNum 1) (js "Alwaly") sample_stamp
                  (1 # 2) sample_storage sample_record_2 Hnd Hpick)).
Defined.

(** X18.  A corrected translation is pending again and can be the next
    one the validator screen gets: in the localStorage store, after the
    correction of a stored id there is a draw in the unit interval for which
    [getRandomPendingTranslation] returns the corrected record. *)
Theorem corrected_offered_again id editedTranslation username now ls index old :
  list_find (fun t => t !! "id" = Some id) (BrowserDb.translations ls)
  = Some (index, old) ->
  exists r,
    (0 <= r)%Q /\ (r < 1)%Q /\
    (BrowserDb.getRandomPendingTranslation r
       (browser_write (Corrects id editedTranslation username now) ls)).2
    = Resolved
        (Some (<["lastUpdated" := VStr now]>
                 (correction editedTranslation username ∪ old))).
Proof.
  intros Hfind. cbn [browser_write]. rewrite browser_update_find, Hfind.
  cbv zeta. cbn [fst].
  set (c := <["lastUpdated" := VStr now]>
              (correction editedTranslation username ∪ old)).
  set (ls1 := BrowserDb.set_translations _ _).
  set (pendingTranslations :=
         filter (has_status "pending") (BrowserDb.translations ls1)).
  assert (c ∈ pendingTranslations) as Hin.
  { apply list_elem_of_filter. split; [apply correction_pending|].
    unfold ls1. rewrite browser_translations_set.
    apply list_find_Some in Hfind as (Hl & _).
    eapply list_elem_of_lookup_2, list_lookup_insert_eq.
    by eapply lookup_lt_Some. }
  apply list_elem_of_lookup in Hin as [j Hj].
  pose proof (lookup_lt_Some _ _ _ Hj) as Hlt.
  destruct (random_index_hits j (length pendingTranslations) Hlt)
    as (H0 & H1 & Hindex).
  eexists. split; [exact H0|]. split; [exact H1|].
  unfold BrowserDb.getRandomPendingTranslation.
  rewrite browser_translations_initDB. fold pendingTranslations.
  rewrite bool_decide_eq_false_2 by lia. cbn [snd].
  by rewrite Hindex, pick_nat, Hj.
Qed.

Lemma corrected_offered_again_witness :
  exists r,
    (0 <= r)%Q /\ (r < 1)%Q /\
    (BrowserDb.getRandomPendingTranslation r
       (browser_write (Corrects (VNum 1) (js "salaam") (js "Serge") sample_stamp)
                      sample_storage)).2
    = Resolved
        (Some (<["lastUpdated" := VStr sample_stamp]>
                 (correction (js "salaam") (js "Serge") ∪ sample_record_1))).
Proof.
  exact (corrected_offered_again (VNum 1) (js "salaam") (js "Serge")
           sample_stamp sample_storage 0%nat sample_record_1 eq_refl).
Defined.

(** ** A file in the older order of columns *)

(** X19.  The data initializer does not exchange the columns of a file
    whose header is [French,Wolof]: started on an empty localStorage store
    with such a file of one row, French text first, it stores the French
    text as the Wolof text of the record, and the Wolof text as its French
    text. *)
Theorem older_file_columns_not_exchanged french wolof clk ls :
  trimmed french -> trimmed wolof -> comma ∉ french ->
  newline ∉ french -> newline ∉ wolof ->
  BrowserDb.translations ls = [] ->
  BrowserDb.translations
    (initializeData browser_api
       (Resolved (js "French,Wolof" ++ newline :: french ++ comma :: wolof))
       clk ls)
  = [ {[ "id" := VNum (date_now clk 1 + 0);
         "french" := VStr wolof;
         "wolof" := VStr french;
         "status" := VStr (js "pending");
         "validatedBy" := VNull;
         "originalWolof" := VStr french;
         "lastUpdated" := VStr (date_iso clk 1) ]} ].
Proof.
  intros Hf Hw Hc Hnf Hnw Hempty.
  rewrite browser_initializeData, (bool_decide_eq_true_2 _ Hempty).
  rewrite (browser_import_data_lines _ _ _ _ (fix_header_data_lines _)).
  rewrite browser_import_translations. cbn [fst].
  rewrite browser_translations_set, browser_translations_initDB, Hempty.
  rewrite split_two_lines;
    [| apply (bool_decide_unpack _); vm_compute; exact I
     | by apply line_no_newline].
  change (data_lines [js "French,Wolof"; french ++ comma :: wolof])
    with [(1%nat, french ++ comma :: wolof)].
  rewrite accepted_single_row; [done | done | done | done |].
  unfold BrowserDb.translationExists.
  by rewrite browser_translations_initDB, Hempty.
Qed.

Lemma older_file_columns_not_exchanged_witness :
  exists t,
    BrowserDb.translations
      (initializeData browser_api
         (Resolved (js "French,Wolof" ++ newline :: js "bonjour"
                       ++ comma :: js "salam"))
         sample_clock empty_storage) = [t] /\
    t !! "wolof" = Some (VStr (js "bonjour")).
Proof.
  eexists. split.
  - refine (older_file_columns_not_exchanged (js "bonjour") (js "salam")
              sample_clock empty_storage _ _ _ _ _ _);
      try (vm_compute; split; reflexivity);
      try (apply (bool_decide_unpack _); vm_compute; exact I).
  - reflexivity.
Defined.

(** ** The keys of the IndexedDB store under the writes of the components *)

Section IndexedKeys.
Import IndexedDb.

Lemma sorted_insert_same_key rs index old new :
  StronglySorted key_order rs -> rs !! index = Some old ->
  key_of new = key_of old ->
  StronglySorted key_order (<[index := new]> rs).
Proof.
  intros Hs. revert index. induction Hs as [|r rest Hs IH Hr];
    intros index Hl Hk; [done|].
  destruct index as [|index]; simpl in *.
  - injection Hl as ->. constructor; [done|].
    eapply Forall_impl; [exact Hr|]. intros y (k1 & k2 & H1 & H2 & H3).
    exists k1, k2. by rewrite Hk.
  - constructor; [by apply IH|]. apply Forall_insert; [done|].
    rewrite Forall_forall in Hr.
    destruct (Hr old) as (k1 & k2 & H1 & H2 & H3);
      [by eapply list_elem_of_lookup_2|].
    exists k1, k2. by rewrite Hk.
Qed.

Lemma sorted_snoc rs g v :
  indexed_numeric {| records := rs; generator := g |} ->
  StronglySorted key_order rs -> v !! "id" = Some (VNum g) ->
  StronglySorted key_order (rs ++ [v]).
Proof.
  unfold indexed_numeric. cbn [records generator]. intros Hnum Hs Hv.
  induction Hs as [|r rest Hs IH Hr]; [repeat constructor|].
  apply Forall_cons in Hnum as [(z & Hz & Hlt) Hnum]. cbn [app].
  constructor; [by apply IH|]. apply Forall_app. split; [done|].
  constructor; [|constructor]. exists (KNum z), (KNum g).
  unfold key_of. rewrite Hz, Hv. split; [done|]. split; [done|].
  by apply Z.ltb_lt.
Qed.

Lemma indexed_write_generated_sorted b v os :
  v !! "id" = None -> indexed_numeric os -> indexed_sorted os ->
  exists os', store_write b v os = inr os' /\ indexed_numeric os'
              /\ indexed_sorted os'.
Proof.
  intros Hv Hnum Hs.
  destruct (indexed_write_generated b v os Hv Hnum) as [Hw Hnum'].
  eexists. split; [exact Hw|]. split; [exact Hnum'|].
  unfold indexed_sorted. cbn [records].
  apply (sorted_snoc _ (generator os)); [by destruct os | done |].
  by rewrite lookup_insert_eq.
Qed.

Lemma indexed_import_loop_keyed clk rows os :
  indexed_numeric os -> indexed_sorted os ->
  exists os',
    fold_left (fun s '(i, raw) => import_line clk s i raw) rows (inr os) = inr os'
    /\ indexed_numeric os' /\ indexed_sorted os'.
Proof.
  revert os. induction rows as [|[i raw] rows IH]; intros os Hnum Hs.
  - by exists os.
  - cbn [fold_left]. rewrite indexed_import_line_step.
    destruct (row_of_line raw) as [[wolof french]|]; [|by apply IH].
    destruct (indexed_write_generated_sorted true
                (new_translation french wolof (date_iso clk i)) os)
      as (os1 & -> & Hnum1 & Hs1); [done | done | done |].
    by apply IH.
Qed.

Lemma indexed_update_keyed id updates now db :
  updates !! "id" = None ->
  indexed_numeric (translations db) -> indexed_sorted (translations db) ->
  indexed_numeric (translations (updateTranslation id updates now db).1) /\
  indexed_sorted (translations (updateTranslation id updates now db).1).
Proof.
  intros Hid Hnum Hs. unfold updateTranslation.
  destruct (key_of_value id) as [k|]; [|done].
  unfold store_get.
  destruct (list_find _ (records (translations db))) as [[index old]|] eqn:Hfind;
    cbn [fmap option_fmap option_map snd from_option]; unfold Datatypes.id.
  - pose proof Hfind as Hfound.
    apply list_find_Some in Hfound as (Hl & Hk & _).
    pose proof Hnum as Hall. unfold indexed_numeric in Hall.
    rewrite Forall_forall in Hall.
    destruct (Hall old) as (z & Hz & Hlt); [by eapply list_elem_of_lookup_2|].
    assert (k = KNum z) as ->.
    { unfold key_of in Hk. rewrite Hz in Hk. by injection Hk. }
    set (updated := <["lastUpdated" := VStr now]> (updates ∪ old)).
    assert (updated !! "id" = Some (VNum z)) as Hupdated.
    { unfold updated. rewrite lookup_insert_ne by done.
      by rewrite lookup_union_r. }
    unfold store_write. rewrite Hupdated. cbn [key_of_value andb fst translations].
    rewrite (indexed_place_replace _ _ _ _ _ Hs Hfind).
    split.
    + unfold indexed_numeric. cbn [records generator]. apply Forall_insert.
      * eapply Forall_impl; [exact Hnum|]. intros r (z' & ? & ?).
        exists z'. split; [done | lia].
      * exists z. split; [done | lia].
    + unfold indexed_sorted. cbn [records].
      eapply sorted_insert_same_key; [exact Hs | exact Hl |].
      unfold key_of. by rewrite Hupdated, Hz.
  - set (updated := <["lastUpdated" := VStr now]> (updates ∪ ∅)).
    assert (updated !! "id" = None) as Hupdated.
    { unfold updated. rewrite lookup_insert_ne by done.
      by rewrite lookup_union_r. }
    destruct (indexed_write_generated_sorted false updated (translations db)
                Hupdated Hnum Hs) as (os' & -> & Hnum' & Hs').
    done.
Qed.

Lemma indexed_write_keyed w db :
  indexed_numeric (translations db) -> indexed_sorted (translations db) ->
  indexed_numeric (translations (indexed_write w db)) /\
  indexed_sorted (translations (indexed_write w db)).
Proof.
  intros Hnum Hs.
  destruct w as [csv clk|id username now|id edited username now];
    cbn [indexed_write].
  - unfold importTranslationsFromCSV. rewrite for_each_data_line_fold.
    by destruct (indexed_import_loop_keyed clk (data_lines (split newline csv))
                   _ Hnum Hs) as (os' & -> & ? & ?).
  - by apply indexed_update_keyed.
  - by apply indexed_update_keyed.
Qed.

End IndexedKeys.

(** X20.  The writes of the components keep the keys of the IndexedDB
    store in order: when the ids of the stored translations are numbers below
    the key generator and the records are in the strict order of their keys,
    so it is after any sequence of imports, validations and corrections,
    whatever the ids the validations and corrections name. *)
Theorem indexed_store_stays_keyed ws db :
  indexed_numeric (IndexedDb.translations db) ->
  indexed_sorted (IndexedDb.translations db) ->
  let after := fold_left (fun s w => indexed_write w s) ws db in
  indexed_numeric (IndexedDb.translations after) /\
  indexed_sorted (IndexedDb.translations after).
Proof.
  cbv zeta. revert db. induction ws as [|w ws IH]; intros db Hnum Hs; [done|].
  cbn [fold_left].
  destruct (indexed_write_keyed w db Hnum Hs) as [Hnum1 Hs1]. by apply IH.
Qed.

Lemma indexed_store_stays_keyed_witness :
  let ws := [Imports sample_csv sample_clock;
             Validates (VNum 1) (js "Alwaly") sample_stamp;
             Corrects (VNum 42) (js "salaam") (js "Serge") sample_stamp] in
  indexed_sorted
    (IndexedDb.translations
       (fold_left (fun s w => indexed_write w s) ws empty_database)).
Proof.
  cbv zeta.
  refine (proj2 (indexed_store_stays_keyed _ empty_database _ _)); constructor.
Defined.

(** ** The application shell *)

Section Shell.

Lemma app_run_snoc es e :
  fold_left app_step (es ++ [e]) App.initial
  = app_step (fold_left app_step es App.initial) e.
Proof. by rewrite fold_left_app. Qed.

Lemma app_run_invariant es :
  let a := fold_left app_step es App.initial in
  (App.isInitialized a = true -> Initialized ∈ es) /\
  (forall username, App.currentUser a = Some username ->
     username <> [] /\ Submitted username ∈ es /\
     exists before after,
       es = before ++ Submitted username :: after /\ LoggedOut ∉ after).
Proof.
  cbv zeta. induction es as [|e es [IH1 IH2]] using rev_ind; [done|].
  rewrite app_run_snoc. set (a := fold_left app_step es App.initial) in *.
  destruct e as [|selectedUser|]; cbn [app_step].
  - split.
    + intros _. apply elem_of_app. right. by left.
    + intros u Hu. destruct (IH2 u Hu) as (Hne & Hin & before & after & -> & Hno).
      split; [done|]. split; [apply elem_of_app; by left|].
      exists before, (after ++ [Initialized]).
      split; [by rewrite <- app_assoc|].
      rewrite elem_of_app, list_elem_of_singleton. by intros [?|?].
  - unfold submit_login. destruct (decide (selectedUser = [])) as [E|E].
    + rewrite (bool_decide_eq_true_2 _ E). cbn [negb]. split.
      * intros Hi. apply elem_of_app. left. by apply IH1.
      * intros u Hu.
        destruct (IH2 u Hu) as (Hne & Hin & before & after & -> & Hno).
        split; [done|]. split; [apply elem_of_app; by left|].
        exists before, (after ++ [Submitted selectedUser]).
        split; [by rewrite <- app_assoc|].
        rewrite elem_of_app, list_elem_of_singleton. by intros [?|?].
    + rewrite (bool_decide_eq_false_2 _ E). cbn [negb]. split.
      * intros Hi. apply elem_of_app. left. by apply IH1.
      * intros u [= <-]. split; [done|].
        split; [apply elem_of_app; right; by left|].
        exists es, []. split; [done | apply not_elem_of_nil].
  - split; [|done]. intros Hi. apply elem_of_app. left. by apply IH1.
Qed.

End Shell.

(** X21.  Whatever events reach the application shell, the validator screen
    is rendered only for a user name that is not empty and that the login
    form submitted with no logout since, and only after the data initializer
    has finished. *)
Theorem validator_screen_needs_login es username :
  App.render (fold_left app_step es App.initial)
  = App.TranslationValidator username ->
  username <> [] /\ Initialized ∈ es /\
  exists before after,
    es = before ++ Submitted username :: after /\ LoggedOut ∉ after.
Proof.
  destruct (app_run_invariant es) as [H1 H2]. unfold App.render.
  destruct (App.isInitialized _) eqn:Hi; cbn [negb]; [|done].
  destruct (App.currentUser _) as [u|] eqn:Hu; [|done].
  destruct (bool_decide (u = [])); [done|]. intros [= <-].
  destruct (H2 u eq_refl) as (Hne & _ & Hsub). by split; [|split; [apply H1|]].
Qed.

Lemma validator_screen_needs_login_witness :
  let es := [Submitted []; Initialized; Submitted (js "Serge")] in
  App.render (fold_left app_step es App.initial)
  = App.TranslationValidator (js "Serge") /\
  Initialized ∈ es.
Proof.
  cbv zeta.
  assert (App.render
            (fold_left app_step [Submitted []; Initialized; Submitted (js "Serge")]
                       App.initial)
          = App.TranslationValidator (js "Serge")) as H by reflexivity.
  split; [exact H|].
  exact (proj1 (proj2 (validator_screen_needs_login _ _ H))).
Defined.

(** ** The counters after the first start, and the row of a validation *)

Section FirstStart.

Lemma browser_records_pending clk n rows :
  Forall (has_status "pending") (browser_records clk n rows).
Proof.
  revert n. induction rows as [|[[i w] f] rows IH]; intros n; [constructor|].
  rewrite browser_records_cons. constructor; [done | apply IH].
Qed.

Lemma filter_all {A} (P : A -> Prop) `{forall x, Decision (P x)} (l : list A) :
  Forall P l -> filter P l = l.
Proof.
  induction 1 as [|x l Hx _ IH]; [done|].
  by rewrite filter_cons, decide_True, IH.
Qed.

Lemma pending_stats l :
  Forall (has_status "pending") l ->
  updateStats l
  = {| total := length l; pending := length l;
       validated := 0; corrected := 0 |}.
Proof.
  intros Hl. unfold updateStats.
  rewrite (filter_all _ _ Hl), !filter_none; [done | |];
    intros t Hin; rewrite Forall_forall in Hl.
  - by apply pending_not_corrected, Hl.
  - by apply pending_not_validated, Hl.
Qed.

End FirstStart.

(** X22.  After the data initializer has run on a localStorage store
    without translations, with a fetched text, the counters of the validator
    screen show the number of well-formed rows of the text as total and as
    pending, and no validated and no corrected translation. *)
Theorem counters_after_first_start csv clk ls :
  BrowserDb.translations ls = [] ->
  let n := length (accepted_rows (fun _ _ => false)
                                 (data_lines (split newline csv))) in
  updateStats
    (BrowserDb.translations
       (initializeData browser_api (Resolved csv) clk ls))
  = {| total := n; pending := n; validated := 0; corrected := 0 |}.
Proof.
  intros Hempty. cbv zeta.
  rewrite browser_initializeData, (bool_decide_eq_true_2 _ Hempty).
  rewrite (browser_import_data_lines _ _ _ _ (fix_header_data_lines _)).
  rewrite browser_import_translations. cbn [fst].
  rewrite browser_translations_set, browser_translations_initDB, Hempty.
  cbn [app].
  rewrite (accepted_rows_ext _ (fun _ _ => false)).
  - rewrite pending_stats by apply browser_records_pending.
    unfold browser_records. by rewrite length_imap.
  - intros f w. unfold BrowserDb.translationExists.
    by rewrite browser_translations_initDB, Hempty.
Qed.

Lemma counters_after_first_start_witness :
  BrowserDb.translations empty_storage = [] /\
  updateStats
    (BrowserDb.translations
       (initializeData browser_api (Resolved sample_csv) sample_clock
                       empty_storage))
  = {| total := 2; pending := 2; validated := 0; corrected := 0 |}.
Proof.
  split; [reflexivity|].
  refine (eq_trans (counters_after_first_start sample_csv sample_clock
                      empty_storage eq_refl) _).
  by vm_compute.
Defined.

(** X23.  In the localStorage store the record validated by
    [handleValidate] is among the validated translations, and its row in the
    export is the quoted Wolof and French texts of the record, the status
    [validated], the name of the user, who corrected it if anyone did, and the
    time of the validation. *)
Theorem validated_record_exported id username now ls index old wolof french :
  list_find (fun t => t !! "id" = Some id) (BrowserDb.translations ls)
  = Some (index, old) ->
  old !! "wolof" = Some (VStr wolof) -> old !! "french" = Some (VStr french) ->
  username <> [] ->
  let after := browser_write (Validates id username now) ls in
  exists v,
    (BrowserDb.updateTranslation id (validation username) now ls).2 = Resolved v
    /\ (exists validatedTranslations,
          (BrowserDb.getValidatedTranslations after).2
          = Resolved validatedTranslations /\ v ∈ validatedTranslations)
    /\ csv_line v
       = [dquote] ++ wolof ++ [dquote] ++ [comma]
         ++ [dquote] ++ french ++ [dquote] ++ [comma]
         ++ js "validated" ++ [comma] ++ username ++ [comma]
         ++ join_element (or_empty (old !! "correctedBy")) ++ [comma] ++ now.
Proof.
  intros Hfind Hw Hf Hu. cbv zeta. cbn [browser_write].
  rewrite browser_update_find, Hfind. cbv zeta. cbn [fst snd].
  set (v := <["lastUpdated" := VStr now]> (validation username ∪ old)).
  exists v. split; [done|]. split.
  - eexists. unfold BrowserDb.getValidatedTranslations. cbn [snd].
    split; [done|]. rewrite browser_update_initialised, browser_translations_set.
    apply list_elem_of_filter. split; [apply validation_validated|].
    apply list_find_Some in Hfind as (Hl & _).
    eapply list_elem_of_lookup_2, list_lookup_insert_eq.
    by eapply lookup_lt_Some.
  - unfold csv_line.
    assert (v !! "wolof" = Some (VStr wolof)) as ->
      by (unfold v; by rewrite validation_keeps).
    assert (v !! "french" = Some (VStr french)) as ->
      by (unfold v; by rewrite validation_keeps).
    assert (v !! "correctedBy" = old !! "correctedBy") as ->
      by (unfold v; by rewrite validation_keeps).
    assert (v !! "status" = Some (VStr (js "validated"))) as ->
      by apply validation_validated.
    assert (v !! "validatedBy" = Some (VStr username)) as ->.
    { unfold v. rewrite lookup_insert_ne by done.
      by apply lookup_union_Some_l. }
    assert (v !! "lastUpdated" = Some (VStr now)) as ->
      by (unfold v; by rewrite lookup_insert_eq).
    assert (or_empty (Some (VStr username)) = Some (VStr username)) as ->.
    { unfold or_empty, truthy. by rewrite bool_decide_eq_false_2. }
    cbn [join to_string join_element]. by rewrite <- !app_assoc.
Qed.

Lemma validated_record_exported_witness :
  exists v,
    (BrowserDb.updateTranslation (VNum 1) (validation (js "Alwaly")) sample_stamp
                                 sample_storage).2 = Resolved v
    /\ (exists validatedTranslations,
          (BrowserDb.getValidatedTranslations
             (browser_write (Validates (VNum 1) (js "Alwaly") sample_stamp)
                            sample_storage)).2
          = Resolved validatedTranslations /\ v ∈ validatedTranslations)
    /\ csv_line v
       = [dquote] ++ js "salam" ++ [dquote] ++ [comma]
         ++ [dquote] ++ js "bonjour" ++ [dquote] ++ [comma]
         ++ js "validated" ++ [comma] ++ js "Alwaly" ++ [comma]
         ++ join_element (or_empty (sample_record_1 !! "correctedBy"))
         ++ [comma] ++ sample_stamp.
Proof.
  refine (validated_record_exported (VNum 1) (js "Alwaly") sample_stamp
            sample_storage 0%nat sample_record_1 (js "salam") (js "bonjour")
            _ _ _ _); try reflexivity.
  intros H. discriminate H.
Defined.

(** ** The update of an id that is not stored *)

(** X24.  In the localStorage store and in the SQLite store the update of
    an id that no stored translation carries is rejected with the error that
    the translation is not found, the translations being left as they
    were. *)
Theorem update_unknown_id_rejected run_update id z updates now ls sql :
  (~ browser_present id ls ->
   BrowserDb.updateTranslation id updates now ls
   = (BrowserDb.initDB ls, Rejected (NotFound id)) /\
   BrowserDb.translations (BrowserDb.updateTranslation id updates now ls).1
   = BrowserDb.translations ls) /\
  (SqliteDb.select_by_id z (SqliteDb.translations (SqliteDb.getDB sql)) = None ->
   SqliteDb.updateTranslation run_update z updates now sql
   = (Some (SqliteDb.getDB sql), Rejected (NotFound (VNum z)))).
Proof.
  split.
  - intros Hid. rewrite (browser_update_unknown _ _ _ _ Hid).
    split; [done | apply browser_translations_initDB].
  - apply sqlite_update_unknown.
Qed.

Lemma update_unknown_id_rejected_witness :
  ~ browser_present (VNum 42) sample_storage /\
  BrowserDb.updateTranslation (VNum 42) sample_validation sample_stamp
                              sample_storage
  = (BrowserDb.initDB sample_storage, Rejected (NotFound (VNum 42))).
Proof.
  assert (~ browser_present (VNum 42) sample_storage) as H
    by (apply (bool_decide_unpack _); vm_compute; exact I).
  split; [exact H|].
  exact (proj1 (proj1 (update_unknown_id_rejected (fun _ _ _ _ => None)
                         (VNum 42) 42 sample_validation sample_stamp
                         sample_storage None) H)).
Defined.

(** X25.  In the IndexedDB store the update of an id that is a key but not
    the key of a stored translation is not rejected: with fields that do not
    name [id], and the keys of the store being generated numbers, it appends
    a record made of these fields and the time alone, under the next
    generated key, and resolves to that record without its id. *)
Theorem indexed_update_unknown_id_appends id k updates now db :
  IndexedDb.key_of_value id = Some k ->
  IndexedDb.store_get k (IndexedDb.translations db) = None ->
  updates !! "id" = None ->
  indexed_numeric (IndexedDb.translations db) ->
  let updated := <["lastUpdated" := VStr now]> updates in
  let g := IndexedDb.generator (IndexedDb.translations db) in
  IndexedDb.updateTranslation id updates now db
  = ({| IndexedDb.translations :=
          {| IndexedDb.records :=
               IndexedDb.records (IndexedDb.translations db)
               ++ [<["id" := VNum g]> updated];
             IndexedDb.generator := g + 1 |};
        IndexedDb.users := IndexedDb.users db |},
     Resolved updated).
Proof.
  intros Hk Hget Hid Hnum. cbv zeta. unfold IndexedDb.updateTranslation.
  rewrite Hk, Hget. cbn [from_option]. rewrite (right_id_L ∅ (∪) updates).
  assert ((<["lastUpdated" := VStr now]> updates) !! "id" = None) as Hupdated
    by (by rewrite lookup_insert_ne).
  by destruct (indexed_write_generated false _ _ Hupdated Hnum) as [-> _].
Qed.

Lemma indexed_update_unknown_id_appends_witness :
  indexed_numeric (IndexedDb.translations sample_database) /\
  length
    (IndexedDb.records
       (IndexedDb.translations
          (IndexedDb.updateTranslation (VStr (js "1")) sample_validation
                                       sample_stamp sample_database).1))
  = 3%nat.
Proof.
  assert (indexed_numeric (IndexedDb.translations sample_database)) as H.
  { repeat constructor; eexists; (split; [reflexivity | reflexivity]). }
  split; [exact H|].
  refine (eq_trans
            (f_equal (fun r => length (IndexedDb.records
                                         (IndexedDb.translations r.1)))
               (indexed_update_unknown_id_appends (VStr (js "1"))
                  (IndexedDb.KStr (js "1")) sample_validation sample_stamp
                  sample_database eq_refl eq_refl eq_refl H)) _).
  reflexivity.
Defined.
